(** * Liquidity-concentration monitor (index.js): shallow embedding and properties

    The monitor samples a Uniswap V3 pool once a minute, sums for every
    roster address the liquidity of its in-range positions, turns the sum
    into a percentage of the pool's liquidity, smooths it over a window of
    72 samples and appends one row per address to a log.

    JavaScript values are modelled as the program has them:
    - a [Number] is an IEEE-754 binary64 value, here Rocq's primitive [float];
    - a [BigInt] returned by the chain (uint24, int24, uint128, uint160,
      uint256) is a [Z];
    - the objects [positionsByAddress] and [rollingData] are finite maps from
      strings ([gmap string _]); the object [activeLiquidityByAddress], which
      [updateLoop] fills with Numbers, is the finite map of its own
      properties, written and read as [JS.setProperty] and [JS.getProperty]
      say;
    - an exception is the [Throw] constructor of [result]; console output,
      rows handed to [logAndSave] and registry queries are events of a trace;
    - an [await] is a step of the sequence it stands in: what the chain
      answers is an input of the model, and the cycles of a run follow one
      another without overlapping. *)

From Stdlib Require Import ZArith List Lia Bool String Ascii.
From Stdlib Require Import Floats.
From stdpp Require Import base option list gmap strings pretty.

Open Scope string_scope.
Open Scope Z_scope.
Open Scope list_scope.

(** ** JavaScript numbers *)

Module JS.

(** [Number(b)] for a BigInt [b]: the binary64 value nearest to [b], ties to
    even ([ofInteger] is that value in the format's specification). An
    integer-valued Number such as [array.length] is [Number] of that integer. *)
Definition ofInteger (b : Z) : spec_float :=
  binary_normalize prec emax b 0 false.

Definition Number (b : Z) : float := SF2Prim (ofInteger b).

(** The integer a Number denotes, when it denotes one. *)
Definition integerValue (x : float) : option Z :=
  match Prim2SF x with
  | S754_zero _ => Some 0
  | S754_finite s m e =>
      if 0 <=? e then Some (cond_Zopp s (Z.pos m * 2 ^ e))
      else if (Z.pos m) mod 2 ^ (- e) =? 0
           then Some (cond_Zopp s (Z.pos m / 2 ^ (- e)))
           else None
  | _ => None
  end.

(** [===] on two Numbers. *)
Definition strictEq (x y : float) : bool := PrimFloat.eqb x y.

Definition lowerAscii (c : ascii) : ascii :=
  let n := nat_of_ascii c in
  if (65 <=? n)%nat && (n <=? 90)%nat then ascii_of_nat (n + 32) else c.

(** [s.toLowerCase()] on the ASCII strings the program handles. *)
Fixpoint toLowerCase (s : string) : string :=
  match s with
  | EmptyString => EmptyString
  | String c s' => String (lowerAscii c) (toLowerCase s')
  end.

(** What [obj[key]] reads from an object created as [{}] and filled with
    Numbers: the Number the object owns under the key, or, when it owns
    none, what [Object.prototype] has under that key: the prototype object
    itself for [__proto__], a built-in function or [undefined] for any other
    key. *)
Inductive Value : Type :=
| VNumber (x : float)
| VInherited (key : string).

(** The conversion the division applies to its operands. None of the values
    of [Object.prototype] is a Number or converts to one. *)
Definition toNumber (v : Value) : float :=
  match v with
  | VNumber x => x
  | VInherited _ => nan
  end.

(** [obj[key] = x] for a Number [x]. The key [__proto__] is the accessor of
    [Object.prototype], whose setter drops a value that is not an object;
    under any other key the object gets, or keeps, a property of its own. *)
Definition setProperty (obj : gmap string float) (key : string) (x : float)
    : gmap string float :=
  if String.eqb key "__proto__" then obj else <[key := x]> obj.

Definition getProperty (obj : gmap string float) (key : string) : Value :=
  match obj !! key with
  | Some x => VNumber x
  | None => VInherited key
  end.

End JS.

(** A Number is a value. *)
Coercion JS.VNumber : float >-> JS.Value.
Bind Scope float_scope with JS.Value.

(** ** Configuration constants *)

Definition USDC_ADDRESS : string := "0xA0b86991C6218b36c1d19D4a2e9Eb0cE3606EB48".
Definition OTHER_TOKEN : string := "0x77E06c9eCCf2E797fd462A92B6D7642EF85b0A44".
Definition FEE : float := 10000%float.
Definition ZERO_ADDRESS : string := "0x0000000000000000000000000000000000000000".
Definition WINDOW_SIZE : nat := 72.

(** ** Positions *)

(** The fields of the tuple returned by [positionManager.positions(id)] that
    the program reads. *)
Record RawPosition : Type := {
  raw_token0 : string;
  raw_token1 : string;
  raw_fee : Z;
  raw_tickLower : Z;
  raw_tickUpper : Z;
  raw_liquidity : Z
}.

(** The object built by the [map] of [fetchPositionsForAddress]: [fee] and
    [liquidity] go through [Number], the ticks stay as returned. *)
Record Position : Type := {
  token0 : string;
  token1 : string;
  fee : float;
  tickLower : Z;
  tickUpper : Z;
  liquidity : float
}.

Definition convertPosition (pos : RawPosition) : Position :=
  {| token0 := raw_token0 pos;
     token1 := raw_token1 pos;
     fee := JS.Number (raw_fee pos);
     tickLower := raw_tickLower pos;
     tickUpper := raw_tickUpper pos;
     liquidity := JS.Number (raw_liquidity pos) |}.

(** The predicate of the [filter] of [fetchPositionsForAddress]. *)
Definition isTargetPosition (pos : Position) : bool :=
  let isDirect :=
    String.eqb (JS.toLowerCase (token0 pos)) (JS.toLowerCase USDC_ADDRESS) &&
    String.eqb (JS.toLowerCase (token1 pos)) (JS.toLowerCase OTHER_TOKEN) &&
    JS.strictEq (fee pos) FEE in
  let isReversed :=
    String.eqb (JS.toLowerCase (token0 pos)) (JS.toLowerCase OTHER_TOKEN) &&
    String.eqb (JS.toLowerCase (token1 pos)) (JS.toLowerCase USDC_ADDRESS) &&
    JS.strictEq (fee pos) FEE in
  isDirect || isReversed.

Definition filterTarget (l : list Position) : list Position :=
  List.filter isTargetPosition l.

(** [isPositionActive(position, currentTick)]. *)
Definition isPositionActive (position : Position) (currentTick : Z) : bool :=
  (currentTick >=? tickLower position) && (currentTick <? tickUpper position).

(** The inner loop of [updateLoop]: [activeLiquidity] starts at [0] and
    [+=] adds the liquidity of every active position, in order. *)
Definition activeLiquidityOf (positions : list Position) (currentTick : Z) : float :=
  fold_left
    (fun activeLiquidity pos =>
       if isPositionActive pos currentTick
       then (activeLiquidity + liquidity pos)%float
       else activeLiquidity)
    positions 0%float.

(** The sum the specification asks for: the liquidity of the positions whose
    range holds the tick, added as integers. *)
Definition exactActiveLiquidity (rawPositions : list RawPosition) (currentTick : Z) : Z :=
  fold_right Z.add 0
    (map raw_liquidity
       (List.filter
          (fun pos => (raw_tickLower pos <=? currentTick) && (currentTick <? raw_tickUpper pos))
          rawPositions)).

(** ** Rolling window *)

(** [store.values.push(v); if (store.values.length > WINDOW_SIZE) store.values.shift();] *)
Definition pushWindow (values : list float) (v : float) : list float :=
  let values := values ++ [v] in
  if (WINDOW_SIZE <? length values)%nat then tail values else values.

(** [store.values.reduce((acc, val) => acc + val, 0) / store.values.length] *)
Definition rollingAvg (values : list float) : float :=
  let sum := fold_left (fun acc val => (acc + val)%float) values 0%float in
  (sum / JS.Number (Z.of_nat (length values)))%float.

(** The window after pushing a sequence of values, oldest first. *)
Definition pushAll (values : list float) (pushed : list float) : list float :=
  fold_left pushWindow pushed values.

(** ** Exceptions, trace and program state *)

Inductive result (A : Type) : Type :=
| Ok (a : A)
| Throw (err : string).
Arguments Ok {A} a.
Arguments Throw {A} err.

(** One row handed to [logAndSave], held by field before the template string
    formats it ([toFixed] and the [%] signs are the formatter's). The active
    liquidity is a Number in every row but one: the row of a roster entry
    [__proto__] in the share branch, see [updateLoop]. [None] in the last two
    fields is the text [N/A]. *)
Record TimeSeriesRecord : Type := {
  rec_timestamp : string;
  rec_address : string;
  rec_activeLiquidity : JS.Value;
  rec_percentage : float;
  rec_rollingAvg : float;
  rec_currentTick : option Z;
  rec_currentPrice : option float
}.

Inductive Event : Type :=
| ConsoleLog (msg : string)
| ConsoleError (msg : string)
| LogAndSave (row : TimeSeriesRecord)
| FactoryGetPool (tokenA tokenB : string) (fee : float).

(** The two global objects. What the program stores in them are objects (an
    array of positions, a store), so an assignment under the key [__proto__]
    takes effect, as the prototype, and a read under that key gives it back:
    for the keys of the roster they are maps. *)
Record State : Type := {
  positionsByAddress : gmap string (list Position);
  rollingData : gmap string (list float)
}.

(** A computation reads and writes the globals, appends events to the trace
    and returns a value or throws. What was written and emitted before a
    throw stays. *)
Definition Eff (A : Type) : Type := State -> result A * State * list Event.

Definition ret {A} (a : A) : Eff A := fun st => (Ok a, st, []).

Definition throw {A} (err : string) : Eff A := fun st => (Throw err, st, []).

Definition bind {A B} (m : Eff A) (k : A -> Eff B) : Eff B := fun st =>
  match m st with
  | (Ok a, st1, out1) =>
      let '(r, st2, out2) := k a st1 in (r, st2, out1 ++ out2)
  | (Throw err, st1, out1) => (Throw err, st1, out1)
  end.

Notation "'let!' x ':=' m 'in' k" := (bind m (fun x => k))
  (at level 10, x name, m at level 100, k at level 200).
Notation "m ';;' k" := (bind m (fun _ => k))
  (at level 100, k at level 200, right associativity).

(** [try { m } catch (err) { handler err }] *)
Definition try_catch {A} (m : Eff A) (handler : string -> Eff A) : Eff A := fun st =>
  match m st with
  | (Ok a, st1, out1) => (Ok a, st1, out1)
  | (Throw err, st1, out1) =>
      let '(r, st2, out2) := handler err st1 in (r, st2, out1 ++ out2)
  end.

(** [await p] for a call to the chain that resolves or rejects. *)
Definition await {A} (p : result A) : Eff A := fun st => (p, st, []).

Definition emit (e : Event) : Eff unit := fun st => (Ok tt, st, [e]).

Definition getState : Eff State := fun st => (Ok st, st, []).

(** [for (const x of l) { body x }] *)
Fixpoint for_of {A} (l : list A) (body : A -> Eff unit) : Eff unit :=
  match l with
  | [] => ret tt
  | x :: l' => body x ;; for_of l' body
  end.

(** [Promise.all] over calls already issued: all the values, or a rejection
    (the first in list order; which one only shows in the logged text). *)
Fixpoint promiseAll {A} (l : list (result A)) : result (list A) :=
  match l with
  | [] => Ok []
  | Ok a :: l' =>
      match promiseAll l' with
      | Ok r => Ok (a :: r)
      | Throw err => Throw err
      end
  | Throw err :: _ => Throw err
  end.

(** [rollingData[addr].values]; reading [values] of [undefined] throws. *)
Definition getValues (addr : string) : Eff (list float) := fun st =>
  match rollingData st !! addr with
  | Some values => (Ok values, st, [])
  | None => (Throw "TypeError: Cannot read properties of undefined", st, [])
  end.

Definition setValues (addr : string) (values : list float) : Eff unit := fun st =>
  (Ok tt,
   {| positionsByAddress := positionsByAddress st;
      rollingData := <[addr := values]> (rollingData st) |},
   []).

Definition setPositions (addr : string) (pos : list Position) : Eff unit := fun st =>
  (Ok tt,
   {| positionsByAddress := <[addr := pos]> (positionsByAddress st);
      rollingData := rollingData st |},
   []).

(** The four statements every loop runs on an address's store: push, shift
    when longer than the window, sum, divide. Returns [rollingAvg]. *)
Definition updateStore (addr : string) (v : float) : Eff float :=
  let! values := getValues addr in
  let values := pushWindow values v in
  setValues addr values ;;
  ret (rollingAvg values).

(** ** The chain, as the program calls it *)

Record PositionManager : Type := {
  balanceOf : string -> result Z;
  tokenOfOwnerByIndex : string -> Z -> result Z;
  positions : Z -> result RawPosition
}.

Record Slot0 : Type := {
  sqrtPriceX96 : Z;
  tick : Z
}.

(** What the pool answers during one cycle, and the clock. *)
Record CycleEnv : Type := {
  env_slot0 : result Slot0;
  env_liquidity : result Z;
  env_now : string
}.

(** [[...Array(count).keys()]]; [Array(count)] throws unless [count] is an
    integer in [0, 2^32). [count = Number(balance)] is exact below [2^53] and
    at least [2^32] for any larger balance, so the test is on the integer. *)
Definition arrayKeys (count : Z) : result (list Z) :=
  if (0 <=? count) && (count <? 2 ^ 32) then Ok (seqZ 0 count)
  else Throw "RangeError: Invalid array length".

(** ** The program *)

Section Program.

(** The roster read from [addresses.txt] at startup. *)
Variable addresses : list string.

(** [Math.pow] and [**]: the language leaves their precision to the host. *)
Variable Math_pow : float -> float -> float.

(** [ethers.getAddress], which may reject its argument. *)
Variable ethers_getAddress : string -> result string.

Definition toChecksumAddress (address : string) : result string :=
  ethers_getAddress (JS.toLowerCase address).

Definition fetchPositionsForAddress (positionManager : PositionManager)
    (addr : string) : Eff (list Position) :=
  try_catch
    (let! balance := await (balanceOf positionManager addr) in
     (* [Number(balance)], kept as the integer: see [arrayKeys] *)
     let count := balance in
     if count =? 0 then ret []
     else
       let! keys := await (arrayKeys count) in
       let! tokenIds :=
         await (promiseAll (map (fun i => tokenOfOwnerByIndex positionManager addr i) keys)) in
       let! rawPositions :=
         await (promiseAll (map (fun id => positions positionManager id) tokenIds)) in
       ret (filterTarget (map convertPosition rawPositions)))
    (fun err =>
       emit (ConsoleError ("Error fetching positions for " +:+ addr +:+ ": " +:+ err)) ;;
       ret []).

Definition loadAllPositions (positionManager : PositionManager) : Eff unit :=
  emit (ConsoleLog "Fetching positions for all addresses...") ;;
  for_of addresses (fun addr =>
    let! pos := fetchPositionsForAddress positionManager addr in
    setPositions addr pos ;;
    setValues addr [] ;;
    emit (ConsoleLog ("Address " +:+ addr +:+ " has " +:+ pretty (length pos)
                      +:+ " target pool positions."))).

(** The first loop of [getTargetPoolAddress]; a missing key counts as [[]]. *)
Definition totalPositions (st : State) : nat :=
  fold_left
    (fun totalPositions addr =>
       (totalPositions + length (default [] (positionsByAddress st !! addr)))%nat)
    addresses 0%nat.

(** [factory.getPool(tokenA, tokenB, FEE)]: the query shows in the trace. *)
Definition getPool (factory : string -> string -> float -> result string)
    (tokenA tokenB : string) (fee : float) : Eff string :=
  emit (FactoryGetPool tokenA tokenB fee) ;;
  await (factory tokenA tokenB fee).

Definition getTargetPoolAddress (factory : string -> string -> float -> result string)
    : Eff (option string) :=
  let! st := getState in
  let totalPositions := totalPositions st in
  if (totalPositions =? 0)%nat then
    emit (ConsoleLog "No positions across all addresses; skipping pool lookup.") ;;
    ret None
  else
    let! usdc := await (toChecksumAddress USDC_ADDRESS) in
    let! other := await (toChecksumAddress OTHER_TOKEN) in
    let tokenA := if String.ltb usdc other then usdc else other in
    let tokenB := if String.ltb usdc other then other else usdc in
    let! poolAddress := getPool factory tokenA tokenB FEE in
    if String.eqb poolAddress "" || String.eqb poolAddress ZERO_ADDRESS then
      throw "Target pool not found."
    else
      emit (ConsoleLog ("Target pool address: " +:+ poolAddress)) ;;
      ret (Some poolAddress).

(** The first loop of [updateLoop]: the object [activeLiquidityByAddress],
    created empty and assigned once per roster entry. *)
Definition activeLiquidityByAddress (st : State) (currentTick : Z) : gmap string float :=
  fold_left
    (fun acc addr =>
       let positions := default [] (positionsByAddress st !! addr) in
       JS.setProperty acc addr (activeLiquidityOf positions currentTick))
    addresses ∅.

Definition updateLoop (env : CycleEnv) : Eff unit :=
  try_catch
    (let! slot0 := await (env_slot0 env) in
     let currentTick := tick slot0 in
     let sqrtPriceX96 := sqrtPriceX96 slot0 in
     let currentPrice :=
       (Math_pow (JS.Number sqrtPriceX96) 2 / Math_pow 2 192)%float in
     let! poolLiquidity := await (env_liquidity env) in
     let poolTotalLiquidity := JS.Number poolLiquidity in
     let! st := getState in
     let activeLiquidityByAddress := activeLiquidityByAddress st currentTick in
     let timestamp := env_now env in
     if JS.strictEq poolTotalLiquidity 0 then
       for_of addresses (fun addr =>
         let! rollingAvg := updateStore addr 0 in
         emit (LogAndSave
                 {| rec_timestamp := timestamp;
                    rec_address := addr;
                    rec_activeLiquidity := 0;
                    rec_percentage := 0;
                    rec_rollingAvg := rollingAvg;
                    rec_currentTick := Some currentTick;
                    rec_currentPrice := Some currentPrice |})) ;;
       emit (ConsoleLog "No active liquidity in pool at the current tick.")
     else
       for_of addresses (fun addr =>
         (* for the entry [__proto__] this reads the prototype object, which
            the division turns to NaN *)
         let activeLiquidity := JS.getProperty activeLiquidityByAddress addr in
         let percentage :=
           (JS.toNumber activeLiquidity / poolTotalLiquidity * 100)%float in
         let! rollingAvg := updateStore addr percentage in
         emit (LogAndSave
                 {| rec_timestamp := timestamp;
                    rec_address := addr;
                    rec_activeLiquidity := activeLiquidity;
                    rec_percentage := percentage;
                    rec_rollingAvg := rollingAvg;
                    rec_currentTick := Some currentTick;
                    rec_currentPrice := Some currentPrice |})))
    (fun err => emit (ConsoleError ("Error in updateLoop: " +:+ err))).

Definition updateLoopNoPool (env : CycleEnv) : Eff unit :=
  let timestamp := env_now env in
  for_of addresses (fun addr =>
    let! rollingAvg := updateStore addr 0 in
    emit (LogAndSave
            {| rec_timestamp := timestamp;
               rec_address := addr;
               rec_activeLiquidity := 0;
               rec_percentage := 0;
               rec_rollingAvg := rollingAvg;
               rec_currentTick := None;
               rec_currentPrice := None |})) ;;
  emit (ConsoleLog "Logged zeros for all addresses (no pool).").

(** [!poolAddress] for a value that is [null] or a string. *)
Definition falsy (poolAddress : option string) : bool :=
  match poolAddress with
  | None => true
  | Some a => String.eqb a ""
  end.

(** The mode [main] settles on: the pool it polls, or none. *)
Inductive Mode : Type :=
| ActiveMode (poolAddress : string)
| DegradedMode.

Definition cycle (mode : Mode) (env : CycleEnv) : Eff unit :=
  match mode with
  | ActiveMode _ => updateLoop env
  | DegradedMode => updateLoopNoPool env
  end.

(** The cycles of a run, one per firing: the first at once, the others from
    [setInterval]. A cycle that throws ends the run. *)
Definition runCycles (mode : Mode) (envs : list CycleEnv) : Eff unit :=
  for_of envs (cycle mode).

(** Startup: load the positions, resolve the pool, choose the mode. *)
Definition startup (positionManager : PositionManager)
    (factory : string -> string -> float -> result string) : Eff Mode :=
  loadAllPositions positionManager ;;
  let! poolAddress :=
    try_catch (getTargetPoolAddress factory)
      (fun err => emit (ConsoleError ("Warning: " +:+ err)) ;; ret None) in
  if falsy poolAddress then
    emit (ConsoleLog "No valid pool address found; running update loop with zeros only.") ;;
    ret DegradedMode
  else
    emit (ConsoleLog "Starting update loop (once per minute)...") ;;
    ret (ActiveMode (default "" poolAddress)).

(** [main], followed for as many cycles as [envs] has answers. The header
    line of the log file is the sink's and is left out. *)
Definition main (positionManager : PositionManager)
    (factory : string -> string -> float -> result string)
    (envs : list CycleEnv) : Eff unit :=
  let! mode := startup positionManager factory in
  runCycles mode envs.

End Program.

Definition emptyState : State :=
  {| positionsByAddress := ∅; rollingData := ∅ |}.

(** The rows of a trace, in order. *)
Definition rows (out : list Event) : list TimeSeriesRecord :=
  omap (fun e => match e with LogAndSave row => Some row | _ => None end) out.

(** ** Definitions used by the statements *)

(** Scenario A of the specification: one position over [-100, 100). *)
Definition scenarioPosition : Position :=
  {| token0 := USDC_ADDRESS; token1 := OTHER_TOKEN; fee := FEE;
     tickLower := -100; tickUpper := 100; liquidity := 500 |}.

(** Scenario D: the percentages [1, 2, ..., 73], pushed in that order. *)
Definition scenarioD : list float :=
  map (fun n => JS.Number (Z.of_nat n)) (seq 1 73).

(** Every roster address has a store, as [loadAllPositions] leaves it. *)
Definition hasStores (addresses : list string) (st : State) : Prop :=
  Forall (fun addr => is_Some (rollingData st !! addr)) addresses.

(** The stores after one pass over the roster pushing [v addr] for [addr]. *)
Definition pushEach (v : string -> float) (l : list string)
    (rd : gmap string (list float)) : gmap string (list float) :=
  fold_left
    (fun rd addr =>
       match rd !! addr with
       | Some values => <[addr := pushWindow values (v addr)]> rd
       | None => rd
       end)
    l rd.

Section RowLoopDef.

Variable mk : string -> float -> TimeSeriesRecord.
Variable v : string -> float.

(** The shape shared by the three row loops of the program. *)
Definition rowLoop (l : list string) : Eff unit :=
  for_of l (fun addr =>
    let! rollingAvg := updateStore addr (v addr) in
    emit (LogAndSave (mk addr rollingAvg))).

End RowLoopDef.

Section CycleDefs.

Variable addresses : list string.
Variable Math_pow : float -> float -> float.

(** [currentPrice] of [updateLoop]. *)
Definition priceOf (slot0 : Slot0) : float :=
  (Math_pow (JS.Number (sqrtPriceX96 slot0)) 2 / Math_pow 2 192)%float.

(** The share pushed and logged for [addr] when the pool has liquidity. *)
Definition shareOf (st : State) (currentTick poolLiquidity : Z) (addr : string) : float :=
  (JS.toNumber (JS.getProperty (activeLiquidityByAddress addresses st currentTick) addr)
   / JS.Number poolLiquidity * 100)%float.

End CycleDefs.

(** The two reads at the head of [updateLoop], in the order it awaits them:
    both answers, or the first rejection. *)
Definition sampling (env : CycleEnv) : result (Slot0 * Z) :=
  match env_slot0 env with
  | Ok slot0 =>
      match env_liquidity env with
      | Ok poolLiquidity => Ok (slot0, poolLiquidity)
      | Throw err => Throw err
      end
  | Throw err => Throw err
  end.

(** ** Concrete data for the examples *)

Definition exampleAddress : string := "0x1111111111111111111111111111111111111111".

(** The state after loading a roster of one address that holds the position
    of scenario A. *)
Definition exampleState : State :=
  {| positionsByAddress := {[ exampleAddress := [scenarioPosition] ]};
     rollingData := {[ exampleAddress := [] ]} |}.

Definition exampleSlot0 : Slot0 := {| sqrtPriceX96 := 2 ^ 96; tick := 0 |}.

Definition envSampled (poolLiquidity : Z) : CycleEnv :=
  {| env_slot0 := Ok exampleSlot0;
     env_liquidity := Ok poolLiquidity;
     env_now := "2024-01-01T00:00:00.000Z" |}.

Definition envFailed : CycleEnv :=
  {| env_slot0 := Throw "network error";
     env_liquidity := Ok 1000;
     env_now := "2024-01-01T00:01:00.000Z" |}.

(** A host [Math.pow] for the examples: repeated multiplication for a
    non-negative integer exponent. *)
Definition examplePow (x y : float) : float :=
  match JS.integerValue y with
  | Some n => Nat.iter (Z.to_nat n) (fun acc => (acc * x)%float) 1%float
  | None => nan
  end.

(** ** The reads of [fetchPositionsForAddress]

    The calls of its [try] block in order, without the conversion and the
    filter: the raw positions, or the rejection that reaches the [catch]. *)
Definition readPositions (positionManager : PositionManager) (addr : string)
    : result (list RawPosition) :=
  match balanceOf positionManager addr with
  | Throw err => Throw err
  | Ok count =>
      if count =? 0 then Ok []
      else
        match arrayKeys count with
        | Throw err => Throw err
        | Ok keys =>
            match promiseAll (map (fun i => tokenOfOwnerByIndex positionManager addr i) keys) with
            | Throw err => Throw err
            | Ok tokenIds =>
                promiseAll (map (fun id => positions positionManager id) tokenIds)
            end
        end
  end.

(** The data source rejects a call made for [addr]: the balance, the id at
    one of the indices below the balance, or the details of one of the ids. *)
Definition sourceFails (positionManager : PositionManager) (addr : string) : Prop :=
  (exists err, balanceOf positionManager addr = Throw err)
  \/ (exists count, balanceOf positionManager addr = Ok count
                    /\ 0 < count < 2 ^ 32
                    /\ ((exists i err, 0 <= i < count
                                       /\ tokenOfOwnerByIndex positionManager addr i = Throw err)
                        \/ (exists tokenIds id err,
                               promiseAll (map (fun i => tokenOfOwnerByIndex positionManager addr i)
                                             (seqZ 0 count)) = Ok tokenIds
                               /\ id ∈ tokenIds
                               /\ positions positionManager id = Throw err))).

(** A position manager whose every call is rejected. *)
Definition failingManager : PositionManager :=
  {| balanceOf := fun _ => Throw "could not detect network";
     tokenOfOwnerByIndex := fun _ _ => Throw "could not detect network";
     positions := fun _ => Throw "could not detect network" |}.

(** A position manager for which nobody owns a position. *)
Definition emptyManager : PositionManager :=
  {| balanceOf := fun _ => Ok 0;
     tokenOfOwnerByIndex := fun _ _ => Throw "execution reverted";
     positions := fun _ => Throw "execution reverted" |}.

(** A position manager for scenario A: the owner holds the position of the
    scenario (token 100) and one of another fee tier (token 101). *)
Definition scenarioManager : PositionManager :=
  {| balanceOf := fun _ => Ok 2;
     tokenOfOwnerByIndex := fun _ i => Ok (100 + i);
     positions := fun id =>
       Ok {| raw_token0 := USDC_ADDRESS;
             raw_token1 := OTHER_TOKEN;
             raw_fee := if id =? 100 then 10000 else 3000;
             raw_tickLower := -100;
             raw_tickUpper := 100;
             raw_liquidity := 500 |} |}.

(** ** Definitions about whole runs *)

(** What [loadAllPositions] stores for [addr]: the filtered positions, or
    nothing when a read was rejected. *)
Definition fetchedPositions (positionManager : PositionManager) (addr : string)
    : list Position :=
  match readPositions positionManager addr with
  | Ok rawPositions => filterTarget (map convertPosition rawPositions)
  | Throw _ => []
  end.

(** The globals after [loadAllPositions] went over the roster [l]. *)
Definition loadState (positionManager : PositionManager) (l : list string)
    (st : State) : State :=
  fold_left
    (fun st addr =>
       {| positionsByAddress :=
            <[addr := fetchedPositions positionManager addr]> (positionsByAddress st);
          rollingData := <[addr := []]> (rollingData st) |})
    l st.

Definition isQuery (e : Event) : bool :=
  match e with
  | FactoryGetPool _ _ _ => true
  | _ => false
  end.

(** Every window is what pushing some sequence of values into the empty
    window gives. *)
Definition windowsArePushes (st : State) : Prop :=
  forall addr values,
    rollingData st !! addr = Some values -> exists pushed, values = pushAll [] pushed.

(** A registry in which the target pool exists. *)
Definition examplePool : string := "0x2222222222222222222222222222222222222222".

Definition exampleFactory (tokenA tokenB : string) (fee : float) : result string :=
  Ok examplePool.

Definition exampleGetAddress (address : string) : result string := Ok address.

(** A position of the target pool, in range at tick 0, with the given
    liquidity. *)
Definition positionWithLiquidity (l : Z) : RawPosition :=
  {| raw_token0 := USDC_ADDRESS;
     raw_token1 := OTHER_TOKEN;
     raw_fee := 10000;
     raw_tickLower := -100;
     raw_tickUpper := 100;
     raw_liquidity := l |}.

(** Two positions of one address: liquidity [2^53] and liquidity [1]. Both
    values are binary64 numbers; their sum [2^53 + 1] is not. *)
Definition largePositions : list RawPosition :=
  [positionWithLiquidity (2 ^ 53); positionWithLiquidity 1].

(** The raw position of scenario A. *)
Definition scenarioRawPosition : RawPosition := positionWithLiquidity 500.

(** ** The roster file

    [fs.readFileSync(addressesFile, 'utf8').split('\n').map(line => line.trim())
    .filter(line => line !== '')], on text whose code units are below 256. *)

Module Roster.

Definition newline : ascii := "010"%char.

(** The code units [trim] strips, among those below 256: tab, line feed,
    vertical tab, form feed, carriage return, space, no-break space. *)
Definition isWhiteSpace (c : ascii) : bool :=
  let n := nat_of_ascii c in
  ((9 <=? n)%nat && (n <=? 13)%nat) || (n =? 32)%nat || (n =? 160)%nat.

(** [text.split('\n')]: never empty; the empty text gives one empty line. *)
Fixpoint split (text : string) : list string :=
  match text with
  | EmptyString => [EmptyString]
  | String c text' =>
      if Ascii.eqb c newline then EmptyString :: split text'
      else
        match split text' with
        | line :: lines => String c line :: lines
        | [] => [String c EmptyString]
        end
  end.

Fixpoint trimStart (line : string) : string :=
  match line with
  | EmptyString => EmptyString
  | String c line' => if isWhiteSpace c then trimStart line' else line
  end.

Fixpoint trimEnd (line : string) : string :=
  match line with
  | EmptyString => EmptyString
  | String c line' =>
      match trimEnd line' with
      | EmptyString => if isWhiteSpace c then EmptyString else String c EmptyString
      | rest => String c rest
      end
  end.

(** [line.trim()] *)
Definition trim (line : string) : string := trimEnd (trimStart line).

Definition parseAddresses (text : string) : list string :=
  List.filter (fun line => negb (String.eqb line "")) (map trim (split text)).

(** No line feed in [line]. *)
Fixpoint noNewline (line : string) : bool :=
  match line with
  | EmptyString => true
  | String c line' => negb (Ascii.eqb c newline) && noNewline line'
  end.

(** Only white space in [pad]. *)
Fixpoint allWhiteSpace (pad : string) : bool :=
  match pad with
  | EmptyString => true
  | String c pad' => isWhiteSpace c && allWhiteSpace pad'
  end.

(** An entry as the parser leaves it: not empty, nothing to trim, one line. *)
Definition clean (entry : string) : Prop :=
  entry <> "" /\ trim entry = entry /\ noNewline entry = true.

(** The lines of a file, joined by line feeds. *)
Definition unlines (lines : list string) : string := String.concat (String newline "") lines.

(** A line of a roster file: an entry, or nothing, between two runs of white
    space that hold no line feed. *)
Record Line : Type := {
  line_pre : string;
  line_entry : string;
  line_post : string
}.

Definition lineText (l : Line) : string :=
  line_pre l +:+ line_entry l +:+ line_post l.

Definition padding (pad : string) : Prop :=
  allWhiteSpace pad = true /\ noNewline pad = true.

Definition validLine (l : Line) : Prop :=
  padding (line_pre l) /\ padding (line_post l)
  /\ (line_entry l = "" \/ clean (line_entry l)).

(** A file with CRLF line ends, an indented entry, a blank line and no final
    line end. *)
Definition exampleRosterLines : list Line :=
  [ {| line_pre := "  "; line_entry := "0x1111111111111111111111111111111111111111";
       line_post := String "013"%char "" |};
    {| line_pre := ""; line_entry := ""; line_post := String "013"%char "" |};
    {| line_pre := ""; line_entry := "0xA0b86991C6218b36c1d19D4a2e9Eb0cE3606EB48";
       line_post := "" |} ].

End Roster.

(** ** Definitions for the further properties *)

(** The same position with its two tokens exchanged. *)
Definition swapTokens (pos : Position) : Position :=
  {| token0 := token1 pos; token1 := token0 pos; fee := fee pos;
     tickLower := tickLower pos; tickUpper := tickUpper pos;
     liquidity := liquidity pos |}.

(** The same position with its token addresses in lower case. *)
Definition lowerTokens (pos : Position) : Position :=
  {| token0 := JS.toLowerCase (token0 pos); token1 := JS.toLowerCase (token1 pos);
     fee := fee pos; tickLower := tickLower pos; tickUpper := tickUpper pos;
     liquidity := liquidity pos |}.

(** The token pair is the configured one, in either order, whatever the
    letter case. *)
Definition isTargetPair (t0 t1 : string) : Prop :=
  (JS.toLowerCase t0 = JS.toLowerCase USDC_ADDRESS
   /\ JS.toLowerCase t1 = JS.toLowerCase OTHER_TOKEN)
  \/ (JS.toLowerCase t0 = JS.toLowerCase OTHER_TOKEN
      /\ JS.toLowerCase t1 = JS.toLowerCase USDC_ADDRESS).

(** The position of scenario A as the chain may return it: tokens exchanged
    and in upper case. *)
Definition reversedRawPosition : RawPosition :=
  {| raw_token0 := "0X77E06C9ECCF2E797FD462A92B6D7642EF85B0A44";
     raw_token1 := "0XA0B86991C6218B36C1D19D4A2E9EB0CE3606EB48";
     raw_fee := 10000;
     raw_tickLower := -100;
     raw_tickUpper := 100;
     raw_liquidity := 500 |}.

(** A position manager for which everybody owns an absurd number of
    positions. *)
Definition oversizedManager : PositionManager :=
  {| balanceOf := fun _ => Ok (2 ^ 32);
     tokenOfOwnerByIndex := fun _ i => Ok i;
     positions := fun _ => Ok scenarioRawPosition |}.

Definition isRow (e : Event) : bool :=
  match e with
  | LogAndSave _ => true
  | _ => false
  end.

(** A state in which the roster's second address has no store. *)
Definition secondAddress : string := "0x3333333333333333333333333333333333333333".

(** The number of registry queries in a trace. *)
Definition queries (out : list Event) : nat :=
  length (List.filter isQuery out).

(** A registry that has no pool for the pair. *)
Definition emptyFactory (tokenA tokenB : string) (fee : float) : result string :=
  Ok ZERO_ADDRESS.

(** The rows the three loops build, as functions of the address and of the
    rolling average. *)
Definition zeroRow (Math_pow : float -> float -> float) (env : CycleEnv) (slot0 : Slot0)
    (addr : string) (rollingAvg : float) : TimeSeriesRecord :=
  {| rec_timestamp := env_now env;
     rec_address := addr;
     rec_activeLiquidity := 0;
     rec_percentage := 0;
     rec_rollingAvg := rollingAvg;
     rec_currentTick := Some (tick slot0);
     rec_currentPrice := Some (priceOf Math_pow slot0) |}.

Definition shareRow (addresses : list string) (Math_pow : float -> float -> float)
    (env : CycleEnv) (slot0 : Slot0) (poolLiquidity : Z) (st : State)
    (addr : string) (rollingAvg : float) : TimeSeriesRecord :=
  {| rec_timestamp := env_now env;
     rec_address := addr;
     rec_activeLiquidity :=
       JS.getProperty (activeLiquidityByAddress addresses st (tick slot0)) addr;
     rec_percentage := shareOf addresses st (tick slot0) poolLiquidity addr;
     rec_rollingAvg := rollingAvg;
     rec_currentTick := Some (tick slot0);
     rec_currentPrice := Some (priceOf Math_pow slot0) |}.

Definition noPoolRow (env : CycleEnv) (addr : string) (rollingAvg : float)
    : TimeSeriesRecord :=
  {| rec_timestamp := env_now env;
     rec_address := addr;
     rec_activeLiquidity := 0;
     rec_percentage := 0;
     rec_rollingAvg := rollingAvg;
     rec_currentTick := None;
     rec_currentPrice := None |}.

(** How a row agrees with the stores around its cycle: the window of its
    address has received the row's percentage, once, and the row's rolling
    average is the average of the window so obtained. *)
Definition rowAgrees (before after : State) (row : TimeSeriesRecord) : Prop :=
  exists old,
    rollingData before !! rec_address row = Some old
    /\ rollingData after !! rec_address row = Some (pushWindow old (rec_percentage row))
    /\ rec_rollingAvg row = rollingAvg (pushWindow old (rec_percentage row)).

(** A cycle that emits rows: any cycle without a pool, and a cycle with a
    pool whose two reads succeed. *)
Definition emitsRows (mode : Mode) (env : CycleEnv) : bool :=
  match mode with
  | DegradedMode => true
  | ActiveMode _ =>
      match sampling env with
      | Ok _ => true
      | Throw _ => false
      end
  end.

(** A roster of two different addresses with their stores, the first holding
    the position of scenario A. *)
Definition twoAddressState : State :=
  {| positionsByAddress :=
       {[ exampleAddress := [scenarioPosition]; secondAddress := [] ]};
     rollingData := {[ exampleAddress := []; secondAddress := [] ]} |}.


(** A roster that lists the key [__proto__] after the example address, and
    the state after loading it when each holds the position of scenario A. *)
Definition protoRoster : list string := [exampleAddress; "__proto__"].

Definition protoState : State :=
  {| positionsByAddress :=
       {[ exampleAddress := [scenarioPosition]; "__proto__" := [scenarioPosition] ]};
     rollingData := {[ exampleAddress := []; "__proto__" := [] ]} |}.

(** A cycle whose sample has the given tick and pool liquidity. *)
Definition envAt (currentTick poolLiquidity : Z) : CycleEnv :=
  {| env_slot0 := Ok {| sqrtPriceX96 := 2 ^ 96; tick := currentTick |};
     env_liquidity := Ok poolLiquidity;
     env_now := "2024-01-01T00:02:00.000Z" |}.

(** A window of at most [WINDOW_SIZE] values, all of them [0]. *)
Definition zeroWindow (values : list float) : Prop :=
  (length values <= WINDOW_SIZE)%nat /\ Forall (fun x => x = 0%float) values.

Definition zeroWindows (st : State) : Prop :=
  forall addr values, rollingData st !! addr = Some values -> zeroWindow values.

(** Three cycles: sampled, failed, sampled with an empty pool. *)
Definition exampleEnvs : list CycleEnv := [envSampled 1000; envFailed; envSampled 0].

(** The occurrences of [addr] in the roster. *)
Definition occurrences (addr : string) (l : list string) : nat :=
  length (List.filter (String.eqb addr) l).

(** A state for a roster that lists the example address twice. *)
Definition repeatedRoster : list string := [exampleAddress; secondAddress; exampleAddress].

(** ** The log file

    [main] writes the header when the file does not exist, and [logAndSave]
    appends one line per row ([fs.appendFileSync] creates a missing file).
    [None] is a file that does not exist. *)

Inductive LogLine : Type :=
| HeaderLine
| RowLine (row : TimeSeriesRecord).

(** [if (!fs.existsSync(file)) fs.writeFileSync(file, header)] *)
Definition writeHeaderIfMissing (file : option (list LogLine)) : option (list LogLine) :=
  match file with
  | None => Some [HeaderLine]
  | Some lines => Some lines
  end.

(** [fs.appendFileSync(file, dataLine + "\n")] *)
Definition appendLine (file : option (list LogLine)) (line : LogLine)
    : option (list LogLine) :=
  Some (default [] file ++ [line]).

(** What an event does to the file: only [logAndSave] writes. *)
Definition sinkStep (file : option (list LogLine)) (e : Event) : option (list LogLine) :=
  match e with
  | LogAndSave row => appendLine file (RowLine row)
  | _ => file
  end.

(** The file after a run of [main] with trace [out]. *)
Definition logFileAfterMain (file : option (list LogLine)) (out : list Event)
    : option (list LogLine) :=
  fold_left sinkStep out (writeHeaderIfMissing file).

(** Three positions whose liquidity adds up to more than [2^53], in two
    orders. *)
Definition largeFirst : list RawPosition :=
  [positionWithLiquidity (2 ^ 53); positionWithLiquidity 1; positionWithLiquidity 1].

Definition largeLast : list RawPosition :=
  [positionWithLiquidity 1; positionWithLiquidity 1; positionWithLiquidity (2 ^ 53)].


(** ** The history of a window

    The pushes an address has received are read off the log: every row of
    the address carries the percentage pushed for it. *)

(** The rows of a trace that belong to [addr], in the order they were logged. *)
Definition rowsOf (addr : string) (out : list Event) : list TimeSeriesRecord :=
  List.filter (fun row => String.eqb (rec_address row) addr) (rows out).

(** The most recent [n] of the values [pushed], oldest first. *)
Definition mostRecent (n : nat) (pushed : list float) : list float :=
  drop (length pushed - n) pushed.

(** The averages reported while the values [pushed] go, one by one, into a
    window that holds [values]. *)
Fixpoint averagesFrom (values : list float) (pushed : list float) : list float :=
  match pushed with
  | [] => []
  | v :: rest =>
      let values := pushWindow values v in
      rollingAvg values :: averagesFrom values rest
  end.

(** The trace [out] accounts for the windows of [st']: each window of [st]
    has received the percentages of its address's rows, in order, and each
    of these rows reports the average of the window as its push left it. *)
Definition tracks (st st' : State) (out : list Event) : Prop :=
  forall addr old,
    rollingData st !! addr = Some old ->
    rollingData st' !! addr
      = Some (pushAll old (map rec_percentage (rowsOf addr out)))
    /\ map rec_rollingAvg (rowsOf addr out)
       = averagesFrom old (map rec_percentage (rowsOf addr out)).

(** Seventy-three cycles for the example address, whose position holds 500:
    a pool of 500 (share 100), then pools of 1000 and 2000 in turn (shares
    50 and 25), thirty-six times. *)
Definition windowEnvs : list CycleEnv :=
  envSampled 500 :: concat (replicate 36 [envSampled 1000; envSampled 2000]).
(** * Properties *)

(** ** Tick range *)

Lemma isPositionActive_spec (position : Position) (currentTick : Z) :
  isPositionActive position currentTick = true <->
  tickLower position <= currentTick /\ currentTick < tickUpper position.
Proof.
  unfold isPositionActive.
  rewrite andb_true_iff, Z.geb_le, Z.ltb_lt. tauto.
Qed.

(** C1: a position is active exactly when
    [tickLower <= currentTick < tickUpper]; at [currentTick = tickUpper] it is
    inactive, and at [currentTick = tickLower] it is active (the range of a
    position is non-empty: [tickLower < tickUpper]). *)
Theorem isPositionActive_half_open (position : Position) (currentTick : Z) :
  (isPositionActive position currentTick = true <->
   tickLower position <= currentTick /\ currentTick < tickUpper position)
  /\ isPositionActive position (tickUpper position) = false
  /\ (tickLower position < tickUpper position ->
      isPositionActive position (tickLower position) = true).
Proof.
  split; [apply isPositionActive_spec|]. split.
  - apply not_true_is_false. rewrite isPositionActive_spec. lia.
  - intros Hlt. apply isPositionActive_spec. lia.
Qed.


Lemma isPositionActive_half_open_witness :
  isPositionActive scenarioPosition (-100) = true
  /\ isPositionActive scenarioPosition 100 = false.
Proof.
  destruct (isPositionActive_half_open scenarioPosition 0) as (_ & Hup & Hlow).
  split; [apply Hlow; simpl; lia | exact Hup].
Defined.

(** ** Rolling window *)

Lemma pushWindow_drop (values : list float) (v : float) :
  (length values <= WINDOW_SIZE)%nat ->
  pushWindow values v =
  drop (length (values ++ [v]) - WINDOW_SIZE) (values ++ [v]).
Proof.
  intros Hlen. unfold pushWindow.
  rewrite length_app. simpl.
  destruct (Nat.ltb_spec WINDOW_SIZE (length values + 1)) as [Hfull|Hroom].
  - replace (length values + 1 - WINDOW_SIZE)%nat with 1%nat by lia.
    destruct (values ++ [v]); reflexivity.
  - replace (length values + 1 - WINDOW_SIZE)%nat with 0%nat by lia.
    reflexivity.
Qed.

Lemma pushWindow_length (values : list float) (v : float) :
  (length values <= WINDOW_SIZE)%nat ->
  (length (pushWindow values v) <= WINDOW_SIZE)%nat.
Proof.
  intros Hlen. rewrite pushWindow_drop by assumption.
  rewrite length_drop, length_app. simpl. lia.
Qed.

Lemma pushWindow_last (values : list float) (v : float) :
  last (pushWindow values v) = Some v.
Proof.
  unfold pushWindow.
  destruct (Nat.ltb_spec WINDOW_SIZE (length (values ++ [v]))) as [Hfull|Hroom].
  - destruct values as [|x values]; simpl in *.
    + unfold WINDOW_SIZE in Hfull. lia.
    + apply last_snoc.
  - apply last_snoc.
Qed.

Lemma pushAll_drop (pushed values : list float) :
  (length values <= WINDOW_SIZE)%nat ->
  pushAll values pushed =
  drop (length (values ++ pushed) - WINDOW_SIZE) (values ++ pushed).
Proof.
  revert values. induction pushed as [|v pushed IH]; intros values Hlen.
  - simpl. rewrite app_nil_r.
    replace (length values - WINDOW_SIZE)%nat with 0%nat by lia. reflexivity.
  - change (pushAll values (v :: pushed)) with (pushAll (pushWindow values v) pushed).
    rewrite IH by (apply pushWindow_length; assumption).
    rewrite pushWindow_drop by assumption.
    rewrite !length_app, length_drop, length_app. simpl.
    destruct (decide (length values = WINDOW_SIZE)) as [Hfull|Hroom].
    + replace (length values + 1 - WINDOW_SIZE)%nat with 1%nat by lia.
      replace (values ++ v :: pushed) with ((values ++ [v]) ++ pushed)
        by (rewrite <- app_assoc; reflexivity).
      rewrite <- (drop_app_le (values ++ [v]) pushed 1)
        by (rewrite length_app; simpl; lia).
      rewrite drop_drop. f_equal. lia.
    + replace (length values + 1 - WINDOW_SIZE)%nat with 0%nat by lia.
      rewrite drop_0, <- app_assoc. simpl. f_equal. lia.
Qed.

Lemma pushAll_length (pushed values : list float) :
  (length values <= WINDOW_SIZE)%nat ->
  (length (pushAll values pushed) <= WINDOW_SIZE)%nat.
Proof.
  intros Hlen. rewrite pushAll_drop by assumption.
  rewrite length_drop. lia.
Qed.

(** ** Running the loops *)


Lemma updateStore_run (addr : string) (v : float) (st : State) (values : list float) :
  rollingData st !! addr = Some values ->
  updateStore addr v st =
  (Ok (rollingAvg (pushWindow values v)),
   {| positionsByAddress := positionsByAddress st;
      rollingData := <[addr := pushWindow values v]> (rollingData st) |},
   []).
Proof.
  intros Hsome. unfold updateStore, bind, getValues, setValues, ret.
  rewrite Hsome. reflexivity.
Qed.

Section RowLoop.

Variable mk : string -> float -> TimeSeriesRecord.
Variable v : string -> float.


Lemma rowLoop_run (l : list string) (st : State) :
  hasStores l st ->
  exists rws,
    rowLoop mk v l st =
    (Ok tt,
     {| positionsByAddress := positionsByAddress st;
        rollingData := pushEach v l (rollingData st) |},
     map LogAndSave rws)
    /\ Forall2 (fun addr row => exists avg, row = mk addr avg) l rws.
Proof.
  revert st. induction l as [|addr l IH]; intros st Hst.
  - exists []. split; [destruct st; reflexivity | constructor].
  - apply Forall_cons in Hst as [[values Hvalues] Hrest].
    set (st1 := {| positionsByAddress := positionsByAddress st;
                   rollingData := <[addr := pushWindow values (v addr)]> (rollingData st) |}).
    assert (hasStores l st1) as Hst1.
    { unfold hasStores in *. eapply Forall_impl; [exact Hrest|].
      intros a Ha. simpl. destruct (decide (addr = a)) as [->|Hne].
      - rewrite lookup_insert_eq. eauto.
      - rewrite lookup_insert_ne by assumption. exact Ha. }
    destruct (IH st1 Hst1) as (rws & Hrun & Hrows).
    exists (mk addr (rollingAvg (pushWindow values (v addr))) :: rws). split.
    + unfold rowLoop in *. simpl. unfold bind at 1. unfold bind at 1.
      rewrite (updateStore_run _ _ _ _ Hvalues). unfold emit at 1.
      fold st1. rewrite Hrun. simpl. rewrite Hvalues. reflexivity.
    + constructor; eauto.
Qed.

End RowLoop.

Lemma pushEach_dom (v : string -> float) (l : list string)
    (rd : gmap string (list float)) (addr : string) :
  is_Some (pushEach v l rd !! addr) <-> is_Some (rd !! addr).
Proof.
  revert rd. induction l as [|a l IH]; intros rd; [reflexivity|].
  simpl. rewrite IH. destruct (rd !! a) as [values|] eqn:Ha; [|reflexivity].
  destruct (decide (a = addr)) as [->|Hne].
  - rewrite lookup_insert_eq, Ha. split; eauto.
  - rewrite lookup_insert_ne by assumption. reflexivity.
Qed.

Lemma pushEach_not_in (v : string -> float) (l : list string)
    (rd : gmap string (list float)) (addr : string) :
  addr ∉ l -> pushEach v l rd !! addr = rd !! addr.
Proof.
  revert rd. induction l as [|a l IH]; intros rd Hnotin; [reflexivity|].
  apply not_elem_of_cons in Hnotin as [Hne Hnotin].
  simpl. rewrite IH by assumption.
  destruct (rd !! a); [|reflexivity].
  rewrite lookup_insert_ne by congruence. reflexivity.
Qed.

(** An address of the roster ends the pass with the pushed value last. *)
Lemma pushEach_last (v : string -> float) (l : list string)
    (rd : gmap string (list float)) (addr : string) :
  addr ∈ l -> is_Some (rd !! addr) ->
  exists values, pushEach v l rd !! addr = Some values /\ last values = Some (v addr).
Proof.
  revert rd. induction l as [|a l IH]; intros rd Hin Hsome.
  - inversion Hin.
  - simpl. destruct (decide (addr ∈ l)) as [Hl|Hl].
    + apply IH; [assumption|].
      destruct (rd !! a) eqn:Ha; [|assumption].
      destruct (decide (a = addr)) as [->|Hne].
      * rewrite lookup_insert_eq. eauto.
      * rewrite lookup_insert_ne by assumption. assumption.
    + apply elem_of_cons in Hin as [->|Hin]; [|contradiction].
      destruct Hsome as [values Hvalues]. rewrite Hvalues.
      rewrite pushEach_not_in by assumption.
      rewrite lookup_insert_eq. eexists. split; [reflexivity|].
      apply pushWindow_last.
Qed.

Lemma rows_LogAndSave (rws : list TimeSeriesRecord) :
  rows (map LogAndSave rws) = rws.
Proof.
  unfold rows. induction rws as [|row rws IH]; [reflexivity|].
  simpl. f_equal. exact IH.
Qed.

Lemma rows_app (out1 out2 : list Event) :
  rows (out1 ++ out2) = rows out1 ++ rows out2.
Proof. unfold rows. apply omap_app. Qed.

(** ** One cycle *)

Section Cycle.

Variable addresses : list string.
Variable Math_pow : float -> float -> float.


(** Sampling failed: nothing but the error line, and the state is untouched. *)
Lemma updateLoop_sampling_failed (env : CycleEnv) (st : State) :
  (exists err, env_slot0 env = Throw err)
  \/ (exists slot0 err, env_slot0 env = Ok slot0 /\ env_liquidity env = Throw err) ->
  exists err,
    updateLoop addresses Math_pow env st =
    (Ok tt, st, [ConsoleError ("Error in updateLoop: " +:+ err)]).
Proof.
  intros [[err Hslot]|(slot0 & err & Hslot & Hliq)]; exists err;
    unfold updateLoop, try_catch, bind, await, emit.
  - rewrite Hslot. reflexivity.
  - rewrite Hslot, Hliq. reflexivity.
Qed.

(** Sampling succeeded and the pool's liquidity reads zero. *)
Lemma updateLoop_zero_run (env : CycleEnv) (st : State) (slot0 : Slot0) (poolLiquidity : Z) :
  env_slot0 env = Ok slot0 -> env_liquidity env = Ok poolLiquidity ->
  JS.strictEq (JS.Number poolLiquidity) 0 = true ->
  hasStores addresses st ->
  exists rws,
    updateLoop addresses Math_pow env st =
    (Ok tt,
     {| positionsByAddress := positionsByAddress st;
        rollingData := pushEach (fun _ => 0%float) addresses (rollingData st) |},
     map LogAndSave rws
       ++ [ConsoleLog "No active liquidity in pool at the current tick."])
    /\ Forall2
         (fun addr row => exists avg,
            row = {| rec_timestamp := env_now env;
                     rec_address := addr;
                     rec_activeLiquidity := 0;
                     rec_percentage := 0;
                     rec_rollingAvg := avg;
                     rec_currentTick := Some (tick slot0);
                     rec_currentPrice := Some (priceOf Math_pow slot0) |})
         addresses rws.
Proof.
  intros Hslot Hliq Hzero Hst.
  destruct (rowLoop_run
              (fun addr avg =>
                 {| rec_timestamp := env_now env;
                    rec_address := addr;
                    rec_activeLiquidity := 0;
                    rec_percentage := 0;
                    rec_rollingAvg := avg;
                    rec_currentTick := Some (tick slot0);
                    rec_currentPrice := Some (priceOf Math_pow slot0) |})
              (fun _ => 0%float) addresses st Hst) as (rws & Hrun & Hrows).
  exists rws. split; [|exact Hrows].
  unfold rowLoop in Hrun.
  unfold updateLoop, try_catch, bind at 1, await at 1. rewrite Hslot.
  unfold bind at 1, await at 1. rewrite Hliq.
  unfold bind at 1, getState. rewrite Hzero.
  unfold bind at 1. unfold priceOf in Hrun. rewrite Hrun.
  unfold emit. simpl. reflexivity.
Qed.


(** Sampling succeeded and the pool's liquidity is not zero. *)
Lemma updateLoop_share_run (env : CycleEnv) (st : State) (slot0 : Slot0) (poolLiquidity : Z) :
  env_slot0 env = Ok slot0 -> env_liquidity env = Ok poolLiquidity ->
  JS.strictEq (JS.Number poolLiquidity) 0 = false ->
  hasStores addresses st ->
  exists rws,
    updateLoop addresses Math_pow env st =
    (Ok tt,
     {| positionsByAddress := positionsByAddress st;
        rollingData :=
          pushEach (shareOf addresses st (tick slot0) poolLiquidity) addresses (rollingData st) |},
     map LogAndSave rws)
    /\ Forall2
         (fun addr row => exists avg,
            row = {| rec_timestamp := env_now env;
                     rec_address := addr;
                     rec_activeLiquidity :=
                       JS.getProperty (activeLiquidityByAddress addresses st (tick slot0)) addr;
                     rec_percentage := shareOf addresses st (tick slot0) poolLiquidity addr;
                     rec_rollingAvg := avg;
                     rec_currentTick := Some (tick slot0);
                     rec_currentPrice := Some (priceOf Math_pow slot0) |})
         addresses rws.
Proof.
  intros Hslot Hliq Hzero Hst.
  destruct (rowLoop_run
              (fun addr avg =>
                 {| rec_timestamp := env_now env;
                    rec_address := addr;
                    rec_activeLiquidity :=
                      JS.getProperty (activeLiquidityByAddress addresses st (tick slot0)) addr;
                    rec_percentage := shareOf addresses st (tick slot0) poolLiquidity addr;
                    rec_rollingAvg := avg;
                    rec_currentTick := Some (tick slot0);
                    rec_currentPrice := Some (priceOf Math_pow slot0) |})
              (shareOf addresses st (tick slot0) poolLiquidity) addresses st Hst)
    as (rws & Hrun & Hrows).
  exists rws. split; [|exact Hrows].
  unfold rowLoop in Hrun.
  unfold updateLoop, try_catch, bind at 1, await at 1. rewrite Hslot.
  unfold bind at 1, await at 1. rewrite Hliq.
  unfold bind at 1, getState. rewrite Hzero.
  unfold priceOf, shareOf in Hrun. rewrite Hrun.
  reflexivity.
Qed.

(** A cycle without a pool. *)
Lemma updateLoopNoPool_run (env : CycleEnv) (st : State) :
  hasStores addresses st ->
  exists rws,
    updateLoopNoPool addresses env st =
    (Ok tt,
     {| positionsByAddress := positionsByAddress st;
        rollingData := pushEach (fun _ => 0%float) addresses (rollingData st) |},
     map LogAndSave rws ++ [ConsoleLog "Logged zeros for all addresses (no pool)."])
    /\ Forall2
         (fun addr row => exists avg,
            row = {| rec_timestamp := env_now env;
                     rec_address := addr;
                     rec_activeLiquidity := 0;
                     rec_percentage := 0;
                     rec_rollingAvg := avg;
                     rec_currentTick := None;
                     rec_currentPrice := None |})
         addresses rws.
Proof.
  intros Hst.
  destruct (rowLoop_run
              (fun addr avg =>
                 {| rec_timestamp := env_now env;
                    rec_address := addr;
                    rec_activeLiquidity := 0;
                    rec_percentage := 0;
                    rec_rollingAvg := avg;
                    rec_currentTick := None;
                    rec_currentPrice := None |})
              (fun _ => 0%float) addresses st Hst) as (rws & Hrun & Hrows).
  exists rws. split; [|exact Hrows].
  unfold rowLoop in Hrun.
  unfold updateLoopNoPool, bind at 1. rewrite Hrun.
  unfold emit. reflexivity.
Qed.

End Cycle.

(** ** What a cycle emits *)

Lemma Forall2_rows_address (R : string -> TimeSeriesRecord -> Prop)
    (l : list string) (rws : list TimeSeriesRecord) :
  (forall addr row, R addr row -> rec_address row = addr) ->
  Forall2 R l rws -> map rec_address rws = l.
Proof.
  intros HR Hall. induction Hall as [|addr row l rws Hhead _ IH]; [reflexivity|].
  simpl. rewrite IH, (HR _ _ Hhead). reflexivity.
Qed.

Lemma Forall2_rows_all (R : string -> TimeSeriesRecord -> Prop)
    (P : TimeSeriesRecord -> Prop) (l : list string) (rws : list TimeSeriesRecord) :
  (forall addr row, R addr row -> P row) ->
  Forall2 R l rws -> Forall P rws.
Proof.
  intros HR Hall. induction Hall; constructor; eauto.
Qed.

Lemma pushEach_stores_last (v : float) (l : list string) (st : State) :
  hasStores l st ->
  Forall (fun addr => exists values,
            pushEach (fun _ => v) l (rollingData st) !! addr = Some values
            /\ last values = Some v) l.
Proof.
  intros Hst. apply Forall_forall. intros addr Hin.
  apply (pushEach_last (fun _ => v)); [exact Hin|].
  unfold hasStores in Hst. rewrite Forall_forall in Hst. auto.
Qed.

Lemma strictEq_Number_zero : JS.strictEq (JS.Number 0) 0 = true.
Proof. reflexivity. Qed.

Lemma sampling_Ok (env : CycleEnv) (slot0 : Slot0) (poolLiquidity : Z) :
  sampling env = Ok (slot0, poolLiquidity) ->
  env_slot0 env = Ok slot0 /\ env_liquidity env = Ok poolLiquidity.
Proof.
  unfold sampling. destruct (env_slot0 env), (env_liquidity env); intros H;
    inversion H; subst; auto.
Qed.

Lemma sampling_Throw (env : CycleEnv) (err : string) :
  sampling env = Throw err ->
  env_slot0 env = Throw err
  \/ (exists slot0, env_slot0 env = Ok slot0 /\ env_liquidity env = Throw err).
Proof.
  unfold sampling. destruct (env_slot0 env), (env_liquidity env); intros H;
    inversion H; subst; eauto.
Qed.

(** C3: when the pool's total liquidity reads zero, the cycle pushes [0]
    into the window of every roster address and writes [0] as the percentage
    of every row; [0] is the Number zero, not NaN, and nothing throws. *)
Theorem zero_pool_liquidity_percentage_is_zero
    (addresses : list string) (Math_pow : float -> float -> float)
    (env : CycleEnv) (st : State) (slot0 : Slot0) :
  env_slot0 env = Ok slot0 ->
  env_liquidity env = Ok 0 ->
  hasStores addresses st ->
  exists st' out,
    updateLoop addresses Math_pow env st = (Ok tt, st', out)
    /\ map rec_address (rows out) = addresses
    /\ Forall (fun row => rec_percentage row = 0%float) (rows out)
    /\ Forall (fun addr => exists values,
                 rollingData st' !! addr = Some values
                 /\ last values = Some 0%float) addresses.
Proof.
  intros Hslot Hliq Hst.
  destruct (updateLoop_zero_run addresses Math_pow env st slot0 0
              Hslot Hliq strictEq_Number_zero Hst) as (rws & Hrun & Hrows).
  eexists _, _. split; [exact Hrun|].
  rewrite rows_app, rows_LogAndSave. simpl. rewrite app_nil_r.
  split; [|split].
  - eapply Forall2_rows_address; [|exact Hrows].
    intros addr row [avg ->]. reflexivity.
  - eapply Forall2_rows_all; [|exact Hrows].
    intros addr row [avg ->]. reflexivity.
  - simpl. apply pushEach_stores_last. exact Hst.
Qed.

(** Decides [hasStores] on a concrete roster and state. *)
Ltac stores_present := repeat constructor; vm_compute; eauto.

Lemma zero_pool_liquidity_percentage_is_zero_witness :
  exists st' out,
    updateLoop [exampleAddress] examplePow (envSampled 0) exampleState = (Ok tt, st', out)
    /\ map rec_address (rows out) = [exampleAddress]
    /\ Forall (fun row => rec_percentage row = 0%float) (rows out)
    /\ Forall (fun addr => exists values,
                 rollingData st' !! addr = Some values
                 /\ last values = Some 0%float) [exampleAddress].
Proof.
  apply (zero_pool_liquidity_percentage_is_zero
           [exampleAddress] examplePow (envSampled 0) exampleState exampleSlot0).
  - reflexivity.
  - reflexivity.
  - stores_present.
Defined.

(** C4, as stated, fails: in active mode a cycle whose sampling is rejected
    emits no row although the roster has an address. *)
Lemma one_record_per_address_counterexample :
  hasStores [exampleAddress] exampleState
  /\ rows (updateLoop [exampleAddress] examplePow envFailed exampleState).2 = []
  /\ map rec_address
       (rows (cycle [exampleAddress] examplePow (ActiveMode ZERO_ADDRESS)
                envFailed exampleState).2)
     <> [exampleAddress].
Proof.
  split; [stores_present|]. split; [reflexivity|].
  vm_compute. discriminate.
Qed.

(** C4 (amended): a cycle without a pool, and a cycle with a pool whose
    sampling succeeded (whether the liquidity read is zero or not), emits
    exactly one row per roster entry, in roster order, and does not throw. *)
Theorem one_record_per_address
    (addresses : list string) (Math_pow : float -> float -> float)
    (mode : Mode) (env : CycleEnv) (st : State) :
  hasStores addresses st ->
  mode = DegradedMode \/ (exists sample, sampling env = Ok sample) ->
  exists st' out,
    cycle addresses Math_pow mode env st = (Ok tt, st', out)
    /\ map rec_address (rows out) = addresses.
Proof.
  intros Hst Hmode.
  assert (forall rws tail (R : string -> TimeSeriesRecord -> Prop),
             (forall addr row, R addr row -> rec_address row = addr) ->
             Forall2 R addresses rws -> rows tail = [] ->
             map rec_address (rows (map LogAndSave rws ++ tail)) = addresses)
    as Hrows.
  { intros rws tail R HR Hall Htail.
    rewrite rows_app, rows_LogAndSave, Htail, app_nil_r.
    eapply Forall2_rows_address; eauto. }
  destruct mode as [poolAddress|].
  - destruct Hmode as [Hmode|[[slot0 poolLiquidity] Hsampling]]; [discriminate|].
    apply sampling_Ok in Hsampling as [Hslot Hliq]. simpl.
    destruct (JS.strictEq (JS.Number poolLiquidity) 0) eqn:Hzero.
    + destruct (updateLoop_zero_run addresses Math_pow env st slot0 poolLiquidity
                  Hslot Hliq Hzero Hst) as (rws & Hrun & Hall).
      eexists _, _. split; [exact Hrun|].
      eapply Hrows; [|exact Hall|reflexivity].
      intros addr row [avg ->]. reflexivity.
    + destruct (updateLoop_share_run addresses Math_pow env st slot0 poolLiquidity
                  Hslot Hliq Hzero Hst) as (rws & Hrun & Hall).
      eexists _, _. split; [exact Hrun|].
      rewrite <- (app_nil_r (map LogAndSave rws)).
      eapply Hrows; [|exact Hall|reflexivity].
      intros addr row [avg ->]. reflexivity.
  - simpl.
    destruct (updateLoopNoPool_run addresses env st Hst) as (rws & Hrun & Hall).
    eexists _, _. split; [exact Hrun|].
    eapply Hrows; [|exact Hall|reflexivity].
    intros addr row [avg ->]. reflexivity.
Qed.

Lemma one_record_per_address_witness :
  exists st' out,
    cycle [exampleAddress] examplePow (ActiveMode ZERO_ADDRESS)
      (envSampled 1000) exampleState = (Ok tt, st', out)
    /\ map rec_address (rows out) = [exampleAddress].
Proof.
  apply one_record_per_address.
  - stores_present.
  - right. exists (exampleSlot0, 1000). reflexivity.
Defined.

(** C5: in active mode, when reading the pool's state is rejected (by
    [slot0()] or by [liquidity()]), the cycle emits no row, leaves every
    window as it was, logs the error and does not throw; the cycles after it
    run from the unchanged state. *)
Theorem failed_sampling_skips_cycle
    (addresses : list string) (Math_pow : float -> float -> float)
    (env : CycleEnv) (st : State) (err : string) :
  sampling env = Throw err ->
  updateLoop addresses Math_pow env st =
    (Ok tt, st, [ConsoleError ("Error in updateLoop: " +:+ err)])
  /\ rows (updateLoop addresses Math_pow env st).2 = []
  /\ rollingData (updateLoop addresses Math_pow env st).1.2 = rollingData st
  /\ forall poolAddress rest,
       runCycles addresses Math_pow (ActiveMode poolAddress) (env :: rest) st =
       (let '(r, st', out) :=
          runCycles addresses Math_pow (ActiveMode poolAddress) rest st in
        (r, st', ConsoleError ("Error in updateLoop: " +:+ err) :: out)).
Proof.
  intros Hsampling.
  assert (updateLoop addresses Math_pow env st =
          (Ok tt, st, [ConsoleError ("Error in updateLoop: " +:+ err)])) as Hrun.
  { unfold updateLoop, try_catch, bind, await, emit.
    apply sampling_Throw in Hsampling as [Hslot|(slot0 & Hslot & Hliq)].
    - rewrite Hslot. reflexivity.
    - rewrite Hslot, Hliq. reflexivity. }
  split; [exact Hrun|]. rewrite Hrun. split; [reflexivity|]. split; [reflexivity|].
  intros poolAddress rest. unfold runCycles. simpl. unfold bind at 1.
  rewrite Hrun. reflexivity.
Qed.

Lemma failed_sampling_skips_cycle_witness :
  updateLoop [exampleAddress] examplePow envFailed exampleState =
    (Ok tt, exampleState, [ConsoleError "Error in updateLoop: network error"]).
Proof.
  apply (failed_sampling_skips_cycle [exampleAddress] examplePow envFailed
           exampleState "network error").
  reflexivity.
Defined.

(** C10: in the zero-liquidity branch every row carries [0] as its active
    liquidity, whatever the sum computed for the address at the current tick. *)
Theorem zero_branch_logs_zero_active_liquidity
    (addresses : list string) (Math_pow : float -> float -> float)
    (env : CycleEnv) (st : State) (slot0 : Slot0) :
  env_slot0 env = Ok slot0 ->
  env_liquidity env = Ok 0 ->
  hasStores addresses st ->
  exists st' out,
    updateLoop addresses Math_pow env st = (Ok tt, st', out)
    /\ map rec_address (rows out) = addresses
    /\ Forall (fun row => rec_activeLiquidity row = 0%float) (rows out).
Proof.
  intros Hslot Hliq Hst.
  destruct (updateLoop_zero_run addresses Math_pow env st slot0 0
              Hslot Hliq strictEq_Number_zero Hst) as (rws & Hrun & Hrows).
  eexists _, _. split; [exact Hrun|].
  rewrite rows_app, rows_LogAndSave. simpl. rewrite app_nil_r. split.
  - eapply Forall2_rows_address; [|exact Hrows].
    intros addr row [avg ->]. reflexivity.
  - eapply Forall2_rows_all; [|exact Hrows].
    intros addr row [avg ->]. reflexivity.
Qed.

(** The address of the example holds 500 of active liquidity at tick 0, and
    its row in a zero-liquidity cycle still says 0. *)
Lemma zero_branch_logs_zero_active_liquidity_witness :
  activeLiquidityByAddress [exampleAddress] exampleState 0 !! exampleAddress
    = Some 500%float
  /\ exists st' out,
       updateLoop [exampleAddress] examplePow (envSampled 0) exampleState
         = (Ok tt, st', out)
       /\ map rec_address (rows out) = [exampleAddress]
       /\ Forall (fun row => rec_activeLiquidity row = 0%float) (rows out).
Proof.
  split; [vm_compute; reflexivity|].
  apply (zero_branch_logs_zero_active_liquidity
           [exampleAddress] examplePow (envSampled 0) exampleState exampleSlot0).
  - reflexivity.
  - reflexivity.
  - stores_present.
Defined.

(** ** The end-to-end scenarios of the specification *)

(** Scenario A: one position over [-100, 100) with liquidity 500, tick 0,
    pool liquidity 1000: active liquidity 500, 50 percent. *)
Example scenario_A :
  rows (main [exampleAddress] examplePow exampleGetAddress scenarioManager
          exampleFactory [envSampled 1000] emptyState).2
  = [ {| rec_timestamp := "2024-01-01T00:00:00.000Z";
         rec_address := exampleAddress;
         rec_activeLiquidity := 500;
         rec_percentage := 50;
         rec_rollingAvg := 50;
         rec_currentTick := Some 0;
         rec_currentPrice := Some 1%float |} ].
Proof. vm_compute. reflexivity. Qed.

(** Scenario B: the same position at tick 100, its upper bound: inactive. *)
Example scenario_B :
  rows (main [exampleAddress] examplePow exampleGetAddress scenarioManager
          exampleFactory
          [ {| env_slot0 := Ok {| sqrtPriceX96 := 2 ^ 96; tick := 100 |};
               env_liquidity := Ok 1000;
               env_now := "2024-01-01T00:00:00.000Z" |} ]
          emptyState).2
  = [ {| rec_timestamp := "2024-01-01T00:00:00.000Z";
         rec_address := exampleAddress;
         rec_activeLiquidity := 0;
         rec_percentage := 0;
         rec_rollingAvg := 0;
         rec_currentTick := Some 100;
         rec_currentPrice := Some 1%float |} ].
Proof. vm_compute. reflexivity. Qed.

(** Scenario C: no pool in the registry: zeros and [N/A]. *)
Example scenario_C :
  rows (main [exampleAddress] examplePow exampleGetAddress scenarioManager
          (fun _ _ _ => Ok ZERO_ADDRESS) [envSampled 1000] emptyState).2
  = [ {| rec_timestamp := "2024-01-01T00:00:00.000Z";
         rec_address := exampleAddress;
         rec_activeLiquidity := 0;
         rec_percentage := 0;
         rec_rollingAvg := 0;
         rec_currentTick := None;
         rec_currentPrice := None |} ].
Proof. vm_compute. reflexivity. Qed.

(** ** Fetching and filtering positions *)

Lemma filterTarget_all (l : list Position) :
  Forall (fun pos => isTargetPosition pos = true) (filterTarget l).
Proof.
  unfold filterTarget. induction l as [|pos l IH]; simpl; [constructor|].
  destruct (isTargetPosition pos) eqn:Hpos; [constructor|]; assumption.
Qed.

Lemma filterTarget_fixed (l : list Position) :
  Forall (fun pos => isTargetPosition pos = true) l -> filterTarget l = l.
Proof.
  unfold filterTarget. induction 1 as [|pos l Hpos _ IH]; simpl; [reflexivity|].
  rewrite Hpos, IH. reflexivity.
Qed.

Lemma filterTarget_sublist (l : list Position) : sublist (filterTarget l) l.
Proof.
  unfold filterTarget. induction l as [|pos l IH]; simpl; [constructor|].
  destruct (isTargetPosition pos); constructor; assumption.
Qed.

Lemma promiseAll_In_Throw {A} (l : list (result A)) (err : string) :
  In (Throw err) l -> exists err', promiseAll l = Throw err'.
Proof.
  induction l as [|[a|e] l IH]; simpl; intros Hin.
  - contradiction.
  - destruct Hin as [Hin|Hin]; [discriminate|].
    destruct (IH Hin) as [err' ->]. eauto.
  - eauto.
Qed.

Lemma fetchPositionsForAddress_run (positionManager : PositionManager)
    (addr : string) (st : State) :
  fetchPositionsForAddress positionManager addr st =
  match readPositions positionManager addr with
  | Ok rawPositions => (Ok (filterTarget (map convertPosition rawPositions)), st, [])
  | Throw err =>
      (Ok [], st,
       [ConsoleError ("Error fetching positions for " +:+ addr +:+ ": " +:+ err)])
  end.
Proof.
  unfold fetchPositionsForAddress, readPositions, try_catch, bind, await, ret, emit.
  destruct (balanceOf positionManager addr) as [count|err]; [|reflexivity].
  destruct (count =? 0); [reflexivity|].
  destruct (arrayKeys count) as [keys|err]; [|reflexivity].
  destruct (promiseAll (map _ keys)) as [tokenIds|err]; [|reflexivity].
  destruct (promiseAll (map _ tokenIds)) as [rawPositions|err]; reflexivity.
Qed.

Lemma sourceFails_readPositions (positionManager : PositionManager) (addr : string) :
  sourceFails positionManager addr ->
  exists err, readPositions positionManager addr = Throw err.
Proof.
  unfold sourceFails, readPositions.
  intros [[err ->]|(count & -> & Hcount & Hcalls)]; [eauto|].
  destruct (Z.eqb_spec count 0) as [->|_]; [lia|].
  unfold arrayKeys.
  replace ((0 <=? count) && (count <? 2 ^ 32)) with true
    by (symmetry; apply andb_true_iff; split; [apply Z.leb_le|apply Z.ltb_lt]; lia).
  destruct Hcalls as [(i & err & Hi & Hcall)|(tokenIds & id & err & -> & Hid & Hcall)].
  - destruct (promiseAll_In_Throw
                (map (fun i => tokenOfOwnerByIndex positionManager addr i) (seqZ 0 count))
                err) as [err' ->]; [|eauto].
    rewrite <- Hcall. apply in_map. apply list_elem_of_In, elem_of_seqZ. lia.
  - apply promiseAll_In_Throw with (err := err).
    rewrite <- Hcall. apply in_map. apply list_elem_of_In. exact Hid.
Qed.

(** C7: [fetchPositionsForAddress] never throws and leaves the state alone;
    when the data source reports a balance of zero it returns the empty list,
    and when the data source rejects a call it returns the empty list and
    only logs one error line. *)
Theorem fetchPositionsForAddress_never_throws
    (positionManager : PositionManager) (addr : string) (st : State) :
  (exists fetched out, fetchPositionsForAddress positionManager addr st = (Ok fetched, st, out))
  /\ (balanceOf positionManager addr = Ok 0 ->
      fetchPositionsForAddress positionManager addr st = (Ok [], st, []))
  /\ (sourceFails positionManager addr ->
      exists msg,
        fetchPositionsForAddress positionManager addr st = (Ok [], st, [ConsoleError msg])).
Proof.
  rewrite fetchPositionsForAddress_run. split; [|split].
  - destruct (readPositions positionManager addr); eauto.
  - intros Hzero. unfold readPositions. rewrite Hzero. reflexivity.
  - intros Hfails. apply sourceFails_readPositions in Hfails as [err ->]. eauto.
Qed.

Lemma fetchPositionsForAddress_never_throws_witness :
  fetchPositionsForAddress emptyManager exampleAddress exampleState
    = (Ok [], exampleState, [])
  /\ exists msg,
       fetchPositionsForAddress failingManager exampleAddress exampleState
         = (Ok [], exampleState, [ConsoleError msg]).
Proof.
  split.
  - apply (fetchPositionsForAddress_never_throws emptyManager exampleAddress exampleState).
    reflexivity.
  - apply (fetchPositionsForAddress_never_throws failingManager exampleAddress exampleState).
    left. exists "could not detect network". reflexivity.
Defined.

(** C8: filtering by token pair and fee tier is idempotent and keeps the
    order: filtering a filtered list gives the same list, the filtered list is
    a subsequence of the original, and what [fetchPositionsForAddress] returns
    is already a fixed point of the filter. *)
Theorem filterTarget_idempotent (l : list Position) :
  filterTarget (filterTarget l) = filterTarget l
  /\ sublist (filterTarget l) l
  /\ forall positionManager addr st fetched st' out,
       fetchPositionsForAddress positionManager addr st = (Ok fetched, st', out) ->
       filterTarget fetched = fetched.
Proof.
  split; [apply filterTarget_fixed, filterTarget_all|].
  split; [apply filterTarget_sublist|].
  intros positionManager addr st fetched st' out.
  rewrite fetchPositionsForAddress_run.
  destruct (readPositions positionManager addr); intros Hrun; inversion Hrun; subst.
  - apply filterTarget_fixed, filterTarget_all.
  - reflexivity.
Qed.

Lemma filterTarget_idempotent_witness :
  (fetchPositionsForAddress scenarioManager exampleAddress exampleState).1.1
    = Ok [scenarioPosition]
  /\ filterTarget [scenarioPosition] = [scenarioPosition].
Proof.
  split; [vm_compute; reflexivity|].
  destruct (filterTarget_idempotent []) as (_ & _ & Hfetched).
  apply (Hfetched scenarioManager exampleAddress exampleState
           [scenarioPosition] exampleState []).
  vm_compute. reflexivity.
Defined.

(** ** Startup *)

Lemma loadAllPositions_run (addresses : list string)
    (positionManager : PositionManager) (st : State) :
  exists out,
    loadAllPositions addresses positionManager st =
    (Ok tt, loadState positionManager addresses st, out)
    /\ Forall (fun e => isQuery e = false) out.
Proof.
  unfold loadAllPositions, bind at 1, emit at 1.
  assert (forall l st0, exists out,
             for_of l (fun addr =>
               let! pos := fetchPositionsForAddress positionManager addr in
               setPositions addr pos ;;
               setValues addr [] ;;
               emit (ConsoleLog ("Address " +:+ addr +:+ " has " +:+ pretty (length pos)
                                 +:+ " target pool positions."))) st0
             = (Ok tt, loadState positionManager l st0, out)
             /\ Forall (fun e => isQuery e = false) out) as Hloop.
  { induction l as [|addr l IH]; intros st0.
    - exists []. split; [reflexivity|constructor].
    - change (for_of (addr :: l) ?body) with (body addr ;; for_of l body).
      unfold bind at 1. unfold bind at 1.
      rewrite fetchPositionsForAddress_run.
      change (loadState positionManager (addr :: l) st0) with
        (loadState positionManager l
           {| positionsByAddress :=
                <[addr := fetchedPositions positionManager addr]> (positionsByAddress st0);
              rollingData := <[addr := []]> (rollingData st0) |}).
      unfold fetchedPositions.
      destruct (readPositions positionManager addr) as [rawPositions|err];
        unfold bind at 1, setPositions at 1; unfold bind at 1, setValues at 1;
        unfold emit at 1; cbn [positionsByAddress rollingData];
        match goal with
        | |- context [for_of l _ ?s] => destruct (IH s) as (out & -> & Hout)
        end;
        eexists; (split; [reflexivity|]); repeat constructor; exact Hout. }
  destruct (Hloop addresses st) as (out & -> & Hout).
  eexists. split; [reflexivity|]. constructor; [reflexivity|exact Hout].
Qed.

Lemma loadState_hasStores (positionManager : PositionManager) (l : list string)
    (st : State) :
  hasStores l (loadState positionManager l st).
Proof.
  unfold hasStores. apply Forall_forall. intros addr Hin.
  revert st. induction l as [|a l IH]; intros st; [inversion Hin|].
  simpl. destruct (decide (addr ∈ l)) as [Hl|Hl]; [apply IH; exact Hl|].
  apply elem_of_cons in Hin as [->|Hin]; [|contradiction].
  assert (forall l' st', a ∉ l' ->
            rollingData (loadState positionManager l' st') !! a = rollingData st' !! a)
    as Hkeep.
  { induction l' as [|b l' IH']; intros st' Hnotin; [reflexivity|].
    apply not_elem_of_cons in Hnotin as [Hne Hnotin].
    simpl. rewrite IH' by assumption. simpl.
    rewrite lookup_insert_ne by congruence. reflexivity. }
  rewrite Hkeep by assumption. simpl. rewrite lookup_insert_eq. eauto.
Qed.

Lemma loadState_windowsArePushes (positionManager : PositionManager) (l : list string)
    (st : State) :
  windowsArePushes st -> windowsArePushes (loadState positionManager l st).
Proof.
  revert st. induction l as [|a l IH]; intros st Hst; [exact Hst|].
  simpl. apply IH. intros addr values. simpl.
  destruct (decide (a = addr)) as [->|Hne].
  - rewrite lookup_insert_eq. intros [= <-]. exists []. reflexivity.
  - rewrite lookup_insert_ne by assumption. apply Hst.
Qed.

(** Pool resolution inside the [try] of [main]: it never throws and does not
    touch the globals. *)
Lemma resolution_run (addresses : list string)
    (ethers_getAddress : string -> result string)
    (factory : string -> string -> float -> result string) (st : State) :
  exists poolAddress out,
    try_catch (getTargetPoolAddress addresses ethers_getAddress factory)
      (fun err => emit (ConsoleError ("Warning: " +:+ err)) ;; ret None) st
    = (Ok poolAddress, st, out).
Proof.
  unfold try_catch, getTargetPoolAddress, bind at 1, getState.
  destruct (totalPositions addresses st =? 0)%nat; [eexists _, _; reflexivity|].
  unfold getPool. unfold bind, await, emit, throw, ret.
  destruct (toChecksumAddress ethers_getAddress USDC_ADDRESS); [|eexists _, _; reflexivity].
  destruct (toChecksumAddress ethers_getAddress OTHER_TOKEN); [|eexists _, _; reflexivity].
  destruct (factory _ _ FEE) as [poolAddress|err]; [|eexists _, _; reflexivity].
  destruct (String.eqb poolAddress "" || String.eqb poolAddress ZERO_ADDRESS);
    eexists _, _; reflexivity.
Qed.

Lemma startup_run (addresses : list string)
    (ethers_getAddress : string -> result string)
    (positionManager : PositionManager)
    (factory : string -> string -> float -> result string) (st : State) :
  exists mode out,
    startup addresses ethers_getAddress positionManager factory st
    = (Ok mode, loadState positionManager addresses st, out).
Proof.
  unfold startup, bind at 1.
  destruct (loadAllPositions_run addresses positionManager st) as (out1 & -> & _).
  unfold bind at 1.
  destruct (resolution_run addresses ethers_getAddress factory
              (loadState positionManager addresses st)) as (poolAddress & out2 & ->).
  destruct (falsy poolAddress); unfold bind, emit, ret; eexists _, _; reflexivity.
Qed.

(** C9: when loading leaves no position for any roster address, pool
    resolution answers [null] without a single query to the registry, whatever
    the registry would have said, and every cycle of the run is a no-pool
    cycle. *)
Theorem no_positions_skips_pool_lookup
    (addresses : list string) (ethers_getAddress : string -> result string)
    (positionManager : PositionManager)
    (factory : string -> string -> float -> result string) (st0 : State) :
  totalPositions addresses (loadAllPositions addresses positionManager st0).1.2 = 0%nat ->
  exists st1 out,
    startup addresses ethers_getAddress positionManager factory st0
      = (Ok DegradedMode, st1, out)
    /\ Forall (fun e => isQuery e = false) out
    /\ forall Math_pow envs,
         main addresses Math_pow ethers_getAddress positionManager factory envs st0 =
         (let '(r, st2, out2) := for_of envs (updateLoopNoPool addresses) st1 in
          (r, st2, out ++ out2)).
Proof.
  destruct (loadAllPositions_run addresses positionManager st0) as (out1 & Hload & Hout1).
  rewrite Hload. simpl. intros Htotal.
  assert (startup addresses ethers_getAddress positionManager factory st0 =
          (Ok DegradedMode, loadState positionManager addresses st0,
           out1 ++ [ConsoleLog "No positions across all addresses; skipping pool lookup."]
                ++ [ConsoleLog "No valid pool address found; running update loop with zeros only."]))
    as Hstartup.
  { unfold startup, bind at 1. rewrite Hload.
    unfold bind at 1, try_catch, getTargetPoolAddress, bind at 1, getState.
    rewrite Htotal. reflexivity. }
  eexists _, _. split; [exact Hstartup|]. split.
  - apply Forall_app. split; [exact Hout1|]. repeat constructor.
  - intros Math_pow envs. unfold main, bind. rewrite Hstartup. reflexivity.
Qed.

Lemma no_positions_skips_pool_lookup_witness :
  exists st1 out,
    startup [exampleAddress] exampleGetAddress emptyManager exampleFactory emptyState
      = (Ok DegradedMode, st1, out)
    /\ Forall (fun e => isQuery e = false) out
    /\ forall Math_pow envs,
         main [exampleAddress] Math_pow exampleGetAddress emptyManager exampleFactory
           envs emptyState =
         (let '(r, st2, out2) := for_of envs (updateLoopNoPool [exampleAddress]) st1 in
          (r, st2, out ++ out2)).
Proof.
  apply (no_positions_skips_pool_lookup [exampleAddress] exampleGetAddress
           emptyManager exampleFactory emptyState).
  vm_compute. reflexivity.
Defined.

(** ** Whole runs *)

Lemma pushEach_windowsArePushes (v : string -> float) (l : list string) (st : State) :
  windowsArePushes st ->
  windowsArePushes {| positionsByAddress := positionsByAddress st;
                    rollingData := pushEach v l (rollingData st) |}.
Proof.
  unfold windowsArePushes. simpl. generalize (rollingData st). clear st.
  induction l as [|a l IH]; intros rd Hrd; [exact Hrd|].
  simpl. apply IH. destruct (rd !! a) as [values|] eqn:Ha; [|exact Hrd].
  intros addr values'. destruct (decide (a = addr)) as [->|Hne].
  - rewrite lookup_insert_eq. intros [= <-].
    destruct (Hrd _ _ Ha) as [pushed ->].
    exists (pushed ++ [v addr]). unfold pushAll. rewrite fold_left_app. reflexivity.
  - rewrite lookup_insert_ne by assumption. apply Hrd.
Qed.

Lemma pushEach_hasStores (v : string -> float) (l addresses : list string) (st : State) :
  hasStores addresses st ->
  hasStores addresses {| positionsByAddress := positionsByAddress st;
                         rollingData := pushEach v l (rollingData st) |}.
Proof.
  unfold hasStores. intros Hst. eapply Forall_impl; [exact Hst|].
  intros addr Hsome. simpl. apply pushEach_dom. exact Hsome.
Qed.

(** A cycle from a state with all the stores never throws and keeps both
    invariants. *)
Lemma cycle_run (addresses : list string) (Math_pow : float -> float -> float)
    (mode : Mode) (env : CycleEnv) (st : State) :
  hasStores addresses st -> windowsArePushes st ->
  exists st' out,
    cycle addresses Math_pow mode env st = (Ok tt, st', out)
    /\ hasStores addresses st' /\ windowsArePushes st'.
Proof.
  intros Hst Hbound. destruct mode as [poolAddress|]; simpl.
  - destruct (sampling env) as [[slot0 poolLiquidity]|err] eqn:Hsampling.
    + apply sampling_Ok in Hsampling as [Hslot Hliq].
      destruct (JS.strictEq (JS.Number poolLiquidity) 0) eqn:Hzero.
      * destruct (updateLoop_zero_run addresses Math_pow env st slot0 poolLiquidity
                    Hslot Hliq Hzero Hst) as (rws & -> & _).
        eexists _, _. split; [reflexivity|].
        split; [apply pushEach_hasStores|apply pushEach_windowsArePushes]; assumption.
      * destruct (updateLoop_share_run addresses Math_pow env st slot0 poolLiquidity
                    Hslot Hliq Hzero Hst) as (rws & -> & _).
        eexists _, _. split; [reflexivity|].
        split; [apply pushEach_hasStores|apply pushEach_windowsArePushes]; assumption.
    + destruct (updateLoop_sampling_failed addresses Math_pow env st) as [err' ->].
      { apply sampling_Throw in Hsampling as [Hslot|(slot0 & Hslot & Hliq)]; eauto. }
      eauto.
  - destruct (updateLoopNoPool_run addresses env st Hst) as (rws & -> & _).
    eexists _, _. split; [reflexivity|].
    split; [apply pushEach_hasStores|apply pushEach_windowsArePushes]; assumption.
Qed.

Lemma runCycles_run (addresses : list string) (Math_pow : float -> float -> float)
    (mode : Mode) (envs : list CycleEnv) (st : State) :
  hasStores addresses st -> windowsArePushes st ->
  exists st' out,
    runCycles addresses Math_pow mode envs st = (Ok tt, st', out)
    /\ hasStores addresses st' /\ windowsArePushes st'.
Proof.
  unfold runCycles. revert st. induction envs as [|env envs IH]; intros st Hst Hbound.
  - eexists _, _. split; [reflexivity|]. auto.
  - change (for_of (env :: envs) ?body) with (body env ;; for_of envs body).
    unfold bind.
    destruct (cycle_run addresses Math_pow mode env st Hst Hbound)
      as (st1 & out1 & -> & Hst1 & Hbound1).
    destruct (IH st1 Hst1 Hbound1) as (st2 & out2 & -> & Hst2 & Hbound2).
    eexists _, _. split; [reflexivity|]. auto.
Qed.

(** A run of [main] from the empty globals never throws, whatever the chain
    answers, and ends with a store for every roster address, each the result
    of pushes into the empty window. *)
Lemma main_run (addresses : list string) (Math_pow : float -> float -> float)
    (ethers_getAddress : string -> result string)
    (positionManager : PositionManager)
    (factory : string -> string -> float -> result string)
    (envs : list CycleEnv) :
  exists st out,
    main addresses Math_pow ethers_getAddress positionManager factory envs emptyState
      = (Ok tt, st, out)
    /\ hasStores addresses st /\ windowsArePushes st.
Proof.
  unfold main, bind.
  destruct (startup_run addresses ethers_getAddress positionManager factory emptyState)
    as (mode & out1 & ->).
  destruct (runCycles_run addresses Math_pow mode envs
              (loadState positionManager addresses emptyState))
    as (st2 & out2 & -> & Hst2 & Hbound2).
  - apply loadState_hasStores.
  - apply loadState_windowsArePushes. intros addr values Hlookup.
    simpl in Hlookup. rewrite lookup_empty in Hlookup. discriminate.
  - eexists _, _. split; [reflexivity|]. auto.
Qed.

(** ** Integers in binary64

    Integers below [2^53] are stored and added without rounding. The proofs
    go through the format's specification ([SpecFloat]), to which the
    primitive operations are tied by [FloatAxioms]. *)

Lemma digits2_pos_size (p : positive) : digits2_pos p = Pos.size p.
Proof. induction p; simpl; congruence. Qed.

Lemma digits2_pos_bounds (p : positive) :
  2 ^ (Z.pos (digits2_pos p) - 1) <= Z.pos p < 2 ^ Z.pos (digits2_pos p).
Proof.
  rewrite digits2_pos_size. split.
  - pose proof (Pos.size_le p) as Hle.
    apply Pos2Z.pos_le_pos in Hle. rewrite Pos2Z.inj_pow in Hle.
    change (Z.pos p~0) with (2 * Z.pos p) in Hle.
    replace (Z.pos (Pos.size p)) with (Z.succ (Z.pos (Pos.size p) - 1)) in Hle by lia.
    rewrite Z.pow_succ_r in Hle by lia. lia.
  - pose proof (Pos.size_gt p) as Hgt.
    apply Pos2Z.pos_lt_pos in Hgt. rewrite Pos2Z.inj_pow in Hgt. exact Hgt.
Qed.

Lemma digits2_pos_unique (p : positive) (n : Z) :
  2 ^ (n - 1) <= Z.pos p < 2 ^ n -> Z.pos (digits2_pos p) = n.
Proof.
  intros [Hlow Hhigh]. pose proof (digits2_pos_bounds p) as [Hlow' Hhigh'].
  assert (0 < n).
  { destruct (Z_lt_le_dec 0 n) as [|Hle]; [assumption|].
    destruct (Z.eq_dec n 0) as [->|]; [simpl in Hhigh; lia|].
    rewrite Z.pow_neg_r in Hhigh by lia. lia. }
  assert (n - 1 < Z.pos (digits2_pos p)).
  { apply (Z.pow_lt_mono_r_iff 2); lia. }
  assert (Z.pos (digits2_pos p) - 1 < n).
  { apply (Z.pow_lt_mono_r_iff 2); lia. }
  lia.
Qed.

Lemma shift_pos_Z (k m : positive) : Z.pos (shift_pos k m) = Z.pos m * 2 ^ Z.pos k.
Proof.
  rewrite shift_pos_correct, Z.mul_comm. reflexivity.
Qed.

Lemma iter_pos_shr_1_exact (k m : positive) :
  SpecFloat.iter_pos shr_1 k {| shr_m := Z.pos (shift_pos k m); shr_r := false; shr_s := false |}
  = {| shr_m := Z.pos m; shr_r := false; shr_s := false |}.
Proof.
  unfold shift_pos. revert m. induction k as [k IH|k IH|]; intros m; simpl.
  - rewrite IH, IH. reflexivity.
  - rewrite IH, IH. reflexivity.
  - reflexivity.
Qed.

Lemma digits2_pos_shift_pos (k m : positive) :
  2 ^ 52 <= Z.pos m < 2 ^ 53 ->
  Z.pos (digits2_pos (shift_pos k m)) = 53 + Z.pos k.
Proof.
  intros Hm. apply digits2_pos_unique. rewrite shift_pos_Z.
  replace (53 + Z.pos k - 1) with (52 + Z.pos k) by lia.
  rewrite !Z.pow_add_r by lia.
  assert (0 < 2 ^ Z.pos k) by (apply Z.pow_pos_nonneg; lia). nia.
Qed.

Lemma shr_fexp_canonical (m : positive) (e : Z) :
  2 ^ 52 <= Z.pos m < 2 ^ 53 -> -1074 <= e ->
  shr_fexp prec emax (Z.pos m) e loc_Exact
  = ({| shr_m := Z.pos m; shr_r := false; shr_s := false |}, e).
Proof.
  intros Hm He.
  unfold shr_fexp, fexp, Zdigits2, SpecFloat.emin, prec, emax.
  rewrite (digits2_pos_unique m 53 Hm).
  replace (Z.max (53 + e - 53) (3 - 1024 - 53) - e) with 0 by lia.
  reflexivity.
Qed.

Lemma shr_fexp_shifted (k m : positive) (e : Z) :
  2 ^ 52 <= Z.pos m < 2 ^ 53 -> -1074 <= e ->
  shr_fexp prec emax (Z.pos (shift_pos k m)) (e - Z.pos k) loc_Exact
  = ({| shr_m := Z.pos m; shr_r := false; shr_s := false |}, e).
Proof.
  intros Hm He.
  unfold shr_fexp, fexp, Zdigits2, SpecFloat.emin, prec, emax.
  rewrite (digits2_pos_shift_pos k m Hm).
  replace (Z.max (53 + Z.pos k + (e - Z.pos k) - 53) (3 - 1024 - 53) - (e - Z.pos k))
    with (Z.pos k) by lia.
  unfold shr_record_of_loc, shr. rewrite iter_pos_shr_1_exact.
  f_equal. lia.
Qed.

(** A mantissa of 53 bits with an exponent in range is left as it is. *)
Lemma binary_round_aux_canonical (m : positive) (e : Z) :
  2 ^ 52 <= Z.pos m < 2 ^ 53 -> -1074 <= e <= 971 ->
  binary_round_aux prec emax false (Z.pos m) e loc_Exact = S754_finite false m e.
Proof.
  intros Hm He. unfold binary_round_aux.
  rewrite shr_fexp_canonical by (assumption || lia).
  simpl shr_m. simpl loc_of_shr_record. simpl round_nearest_even.
  rewrite shr_fexp_canonical by (assumption || lia).
  simpl shr_m. unfold prec, emax.
  destruct (Z.leb_spec e (1024 - 53)); [reflexivity|lia].
Qed.

(** Trailing zero bits are shifted out without rounding. *)
Lemma binary_round_aux_shifted (k m : positive) (e : Z) :
  2 ^ 52 <= Z.pos m < 2 ^ 53 -> -1074 <= e <= 971 ->
  binary_round_aux prec emax false (Z.pos (shift_pos k m)) (e - Z.pos k) loc_Exact
  = S754_finite false m e.
Proof.
  intros Hm He.
  rewrite <- (binary_round_aux_canonical m e Hm He). unfold binary_round_aux.
  rewrite shr_fexp_shifted, shr_fexp_canonical by (assumption || lia).
  reflexivity.
Qed.

(** Rounding [M * 2^E] when its value has an exact 53-bit form [m * 2^e]. *)
Lemma binary_round_exact (M : positive) (E : Z) (m : positive) (e : Z) :
  2 ^ 52 <= Z.pos m < 2 ^ 53 -> -1074 <= e <= 971 ->
  (E <= e /\ Z.pos M = Z.pos m * 2 ^ (e - E))
  \/ (e <= E /\ Z.pos m = Z.pos M * 2 ^ (E - e)) ->
  binary_round prec emax false M E = S754_finite false m e.
Proof.
  intros Hm He Hvalue.
  assert (Z.pos (digits2_pos m) = 53) as Hdigits by (apply digits2_pos_unique; exact Hm).
  unfold binary_round.
  destruct (Z.eq_dec E e) as [->|Hne].
  - assert (M = m) as ->.
    { destruct Hvalue as [[_ H]|[_ H]]; rewrite Z.sub_diag in H; simpl in H; lia. }
    unfold shl_align, fexp, SpecFloat.emin, prec, emax. rewrite Hdigits.
    replace (Z.max (53 + e - 53) (3 - 1024 - 53) - e) with 0 by lia.
    apply binary_round_aux_canonical; assumption.
  - destruct Hvalue as [[Hle HM]|[Hle Hm']].
    + destruct (e - E) as [|k|k] eqn:Hk; try lia.
      assert (M = shift_pos k m) as ->.
      { apply Pos2Z.inj. rewrite shift_pos_Z. exact HM. }
      pose proof (digits2_pos_shift_pos k m Hm) as Hshifted.
      unfold shl_align, fexp, SpecFloat.emin, prec, emax. rewrite Hshifted.
      replace (Z.max (53 + Z.pos k + E - 53) (3 - 1024 - 53) - E) with (Z.pos k) by lia.
      replace E with (e - Z.pos k) by lia.
      apply binary_round_aux_shifted; assumption.
    + destruct (E - e) as [|k|k] eqn:Hk; try lia.
      assert (m = shift_pos k M) as Hshift.
      { apply Pos2Z.inj. rewrite shift_pos_Z. exact Hm'. }
      assert (Z.pos (digits2_pos M) = 53 - Z.pos k) as HdM.
      { apply digits2_pos_unique.
        assert (0 < 2 ^ Z.pos k) by (apply Z.pow_pos_nonneg; lia).
        assert (Z.pos k <= 52).
        { destruct (Z_le_gt_dec (Z.pos k) 52) as [|Hgt]; [assumption|].
          assert (2 ^ 53 <= 2 ^ Z.pos k) by (apply Z.pow_le_mono_r; lia). nia. }
        replace (2 ^ 52) with (2 ^ (53 - Z.pos k - 1) * 2 ^ Z.pos k) in Hm
          by (rewrite <- Z.pow_add_r by lia; f_equal; lia).
        replace (2 ^ 53) with (2 ^ (53 - Z.pos k) * 2 ^ Z.pos k) in Hm
          by (rewrite <- Z.pow_add_r by lia; f_equal; lia).
        rewrite Hm' in Hm. nia. }
      unfold shl_align, fexp, SpecFloat.emin, prec, emax. rewrite HdM.
      replace (Z.max (53 - Z.pos k + E - 53) (3 - 1024 - 53) - E) with (Z.neg k) by lia.
      fold (shift_pos k M). rewrite <- Hshift.
      replace (Z.max (53 - Z.pos k + E - 53) (3 - 1024 - 53)) with e by lia.
      apply binary_round_aux_canonical; assumption.
Qed.

(** A positive integer below [2^53] is stored exactly: the mantissa is the
    integer shifted left by [k] places and the exponent is [-k]. *)
Lemma ofInteger_exact (z : Z) :
  0 < z < 2 ^ 53 ->
  exists m k,
    JS.ofInteger z = S754_finite false m (- k)
    /\ 0 <= k <= 52 /\ Z.pos m = z * 2 ^ k /\ 2 ^ 52 <= Z.pos m < 2 ^ 53.
Proof.
  intros Hz. destruct z as [|p|p]; try lia.
  pose proof (digits2_pos_bounds p) as Hd.
  set (d := Z.pos (digits2_pos p)) in *.
  assert (d <= 53).
  { destruct (Z_le_gt_dec d 53) as [|Hgt]; [assumption|].
    assert (2 ^ 53 <= 2 ^ (d - 1)) by (apply Z.pow_le_mono_r; lia). lia. }
  assert (1 <= d) by (unfold d; lia).
  set (k := 53 - d).
  assert (2 ^ 52 = 2 ^ (d - 1) * 2 ^ k) as H52
    by (rewrite <- Z.pow_add_r by lia; f_equal; lia).
  assert (2 ^ 53 = 2 ^ d * 2 ^ k) as H53
    by (rewrite <- Z.pow_add_r by lia; f_equal; lia).
  assert (0 < 2 ^ k) by (apply Z.pow_pos_nonneg; lia).
  assert (2 ^ 52 <= Z.pos p * 2 ^ k < 2 ^ 53) as Hm by (rewrite H52, H53; nia).
  exists (Z.to_pos (Z.pos p * 2 ^ k)), k.
  assert (Z.pos (Z.to_pos (Z.pos p * 2 ^ k)) = Z.pos p * 2 ^ k) as Hpos
    by (apply Z2Pos.id; lia).
  split; [|split; [lia|split; [exact Hpos|rewrite Hpos; exact Hm]]].
  unfold JS.ofInteger, binary_normalize.
  apply binary_round_exact.
  - rewrite Hpos. exact Hm.
  - lia.
  - right. split; [lia|]. rewrite Hpos. f_equal. f_equal. lia.
Qed.

Lemma ofInteger_valid (z : Z) :
  0 <= z < 2 ^ 53 -> valid_binary (JS.ofInteger z) = true.
Proof.
  intros Hz. destruct (Z.eq_dec z 0) as [->|Hne]; [reflexivity|].
  destruct (ofInteger_exact z) as (m & k & -> & Hk & _ & Hm); [lia|].
  unfold SpecFloat.valid_binary, bounded, canonical_mantissa, fexp, SpecFloat.emin, prec, emax.
  rewrite (digits2_pos_unique m 53 Hm).
  apply andb_true_iff. split; [apply Z.eqb_eq|apply Z.leb_le]; lia.
Qed.

Lemma Prim2SF_Number (z : Z) :
  0 <= z < 2 ^ 53 -> Prim2SF (JS.Number z) = JS.ofInteger z.
Proof.
  intros Hz. unfold JS.Number. apply Prim2SF_SF2Prim, ofInteger_valid, Hz.
Qed.

Lemma shl_align_fst (mx : positive) (ex ex' : Z) :
  ex' <= ex -> Z.pos (fst (shl_align mx ex ex')) = Z.pos mx * 2 ^ (ex - ex').
Proof.
  intros Hle. unfold shl_align.
  destruct (ex' - ex) as [|d|d] eqn:Hd; try lia.
  - replace (ex - ex') with 0 by lia. simpl. lia.
  - simpl. fold (shift_pos d mx). rewrite shift_pos_Z. f_equal. f_equal. lia.
Qed.

(** Adding two stored integers whose sum stays below [2^53] stores the sum. *)
Lemma SFadd_ofInteger (a b : Z) :
  0 <= a -> 0 <= b -> a + b < 2 ^ 53 ->
  SFadd prec emax (JS.ofInteger a) (JS.ofInteger b) = JS.ofInteger (a + b).
Proof.
  intros Ha Hb Hsum.
  destruct (Z.eq_dec a 0) as [->|Hane].
  { rewrite Z.add_0_l. destruct (Z.eq_dec b 0) as [->|Hbne]; [reflexivity|].
    destruct (ofInteger_exact b) as (m & k & -> & _); [lia|]. reflexivity. }
  destruct (Z.eq_dec b 0) as [->|Hbne].
  { rewrite Z.add_0_r.
    destruct (ofInteger_exact a) as (m & k & -> & _); [lia|]. reflexivity. }
  destruct (ofInteger_exact a) as (ma & ka & -> & Hka & Hma & Hma'); [lia|].
  destruct (ofInteger_exact b) as (mb & kb & -> & Hkb & Hmb & Hmb'); [lia|].
  destruct (ofInteger_exact (a + b)) as (ms & ks & -> & Hks & Hms & Hms'); [lia|].
  unfold SFadd, cond_Zopp.
  set (ez := Z.min (- ka) (- kb)).
  set (K := - ez).
  assert (0 <= K <= 52) by (unfold K, ez; lia).
  assert (ka <= K /\ kb <= K) as [HkaK HkbK] by (unfold K, ez; lia).
  assert (Z.pos (fst (shl_align ma (- ka) ez)) = a * 2 ^ K) as HA.
  { rewrite shl_align_fst by (unfold ez; lia). rewrite Hma.
    rewrite <- Z.mul_assoc, <- Z.pow_add_r by lia. f_equal. f_equal. unfold K. lia. }
  assert (Z.pos (fst (shl_align mb (- kb) ez)) = b * 2 ^ K) as HB.
  { rewrite shl_align_fst by (unfold ez; lia). rewrite Hmb.
    rewrite <- Z.mul_assoc, <- Z.pow_add_r by lia. f_equal. f_equal. unfold K. lia. }
  set (A := fst (shl_align ma (- ka) ez)) in *.
  set (B := fst (shl_align mb (- kb) ez)) in *.
  change (Z.pos A + Z.pos B) with (Z.pos (A + B)).
  unfold binary_normalize.
  assert (0 < 2 ^ K) by (apply Z.pow_pos_nonneg; lia).
  assert (ks <= K) as HksK.
  { destruct (Z_le_gt_dec ks K) as [|Hgt]; [assumption|exfalso].
    assert (2 ^ ks = 2 ^ K * 2 ^ (ks - K)) as Hsplit
      by (rewrite <- Z.pow_add_r by lia; f_equal; lia).
    assert (2 <= 2 ^ (ks - K))
      by (change 2 with (2 ^ 1) at 1; apply Z.pow_le_mono_r; lia).
    assert (2 ^ ka <= 2 ^ K) by (apply Z.pow_le_mono_r; lia).
    assert (2 ^ 52 <= a * 2 ^ K) by nia.
    assert (2 ^ 52 <= (a + b) * 2 ^ K) by nia.
    rewrite Hms, Hsplit in Hms'. nia. }
  apply binary_round_exact; [exact Hms'|lia|].
  left. split; [unfold K in HksK; lia|].
  rewrite Pos2Z.inj_add, HA, HB, Hms.
  replace (- ks - ez) with (K - ks) by (unfold K; lia).
  rewrite <- Z.mul_assoc, <- Z.pow_add_r by lia.
  replace (ks + (K - ks)) with K by lia.
  lia.
Qed.

Lemma Number_add_exact (a b : Z) :
  0 <= a -> 0 <= b -> a + b < 2 ^ 53 ->
  (JS.Number a + JS.Number b)%float = JS.Number (a + b).
Proof.
  intros Ha Hb Hsum. apply Prim2SF_inj.
  rewrite add_spec, !Prim2SF_Number by lia.
  apply SFadd_ofInteger; assumption.
Qed.

Lemma integerValue_Number (z : Z) :
  0 <= z < 2 ^ 53 -> JS.integerValue (JS.Number z) = Some z.
Proof.
  intros Hz. unfold JS.integerValue. rewrite Prim2SF_Number by assumption.
  destruct (Z.eq_dec z 0) as [->|Hne]; [reflexivity|].
  destruct (ofInteger_exact z) as (m & k & -> & Hk & Hm & _); [lia|].
  assert (0 < 2 ^ k) by (apply Z.pow_pos_nonneg; lia).
  destruct (Z.leb_spec 0 (- k)) as [Hzero|Hneg].
  - replace k with 0 in * by lia. simpl in *. f_equal. lia.
  - rewrite Z.opp_involutive, Hm, Z_mod_mult, Z_div_mult by lia.
    reflexivity.
Qed.

Lemma isPositionActive_convertPosition (pos : RawPosition) (currentTick : Z) :
  isPositionActive (convertPosition pos) currentTick
  = (raw_tickLower pos <=? currentTick) && (currentTick <? raw_tickUpper pos).
Proof. unfold isPositionActive. simpl. rewrite Z.geb_leb. reflexivity. Qed.

Lemma exactActiveLiquidity_cons (pos : RawPosition) (rawPositions : list RawPosition)
    (currentTick : Z) :
  exactActiveLiquidity (pos :: rawPositions) currentTick
  = (if (raw_tickLower pos <=? currentTick) && (currentTick <? raw_tickUpper pos)
     then raw_liquidity pos else 0)
    + exactActiveLiquidity rawPositions currentTick.
Proof.
  unfold exactActiveLiquidity. simpl.
  destruct ((raw_tickLower pos <=? currentTick) && (currentTick <? raw_tickUpper pos));
    reflexivity.
Qed.

Lemma exactActiveLiquidity_nonneg (rawPositions : list RawPosition) (currentTick : Z) :
  Forall (fun pos => 0 <= raw_liquidity pos) rawPositions ->
  0 <= exactActiveLiquidity rawPositions currentTick.
Proof.
  induction 1 as [|pos rawPositions Hpos _ IH]; [reflexivity|].
  rewrite exactActiveLiquidity_cons.
  destruct ((raw_tickLower pos <=? currentTick) && (currentTick <? raw_tickUpper pos)); lia.
Qed.

(** The loop of [updateLoop] over converted positions, started from a stored
    integer: no addition rounds while the exact total stays below [2^53]. *)
Lemma activeLiquidity_fold_exact (rawPositions : list RawPosition) (currentTick z : Z) :
  Forall (fun pos => 0 <= raw_liquidity pos) rawPositions ->
  0 <= z ->
  z + exactActiveLiquidity rawPositions currentTick < 2 ^ 53 ->
  fold_left
    (fun activeLiquidity pos =>
       if isPositionActive pos currentTick
       then (activeLiquidity + liquidity pos)%float
       else activeLiquidity)
    (map convertPosition rawPositions) (JS.Number z)
  = JS.Number (z + exactActiveLiquidity rawPositions currentTick).
Proof.
  intros Hnonneg. revert z.
  induction Hnonneg as [|pos rawPositions Hpos Hrest IH]; intros z Hz Hsum.
  - simpl. rewrite Z.add_0_r. reflexivity.
  - pose proof (exactActiveLiquidity_nonneg rawPositions currentTick Hrest) as Htail.
    rewrite exactActiveLiquidity_cons in *.
    cbn [map fold_left]. rewrite isPositionActive_convertPosition.
    destruct ((raw_tickLower pos <=? currentTick) && (currentTick <? raw_tickUpper pos)).
    + cbn [liquidity convertPosition].
      rewrite Number_add_exact by lia.
      rewrite IH by lia. f_equal. lia.
    + rewrite IH by lia. f_equal.
Qed.

(** The object never owns a property [__proto__]: the assignment is dropped. *)
Lemma activeLiquidityByAddress_proto (addresses : list string) (st : State)
    (currentTick : Z) :
  activeLiquidityByAddress addresses st currentTick !! "__proto__" = None.
Proof.
  unfold activeLiquidityByAddress.
  assert (forall acc : gmap string float,
             acc !! "__proto__" = None ->
             fold_left
               (fun acc addr =>
                  JS.setProperty acc addr
                    (activeLiquidityOf (default [] (positionsByAddress st !! addr))
                       currentTick))
               addresses acc !! "__proto__" = None) as Hloop.
  { induction addresses as [|a l IH]; intros acc Hacc; [exact Hacc|].
    simpl. apply IH. unfold JS.setProperty.
    destruct (String.eqb_spec a "__proto__") as [->|Hne]; [exact Hacc|].
    rewrite lookup_insert_ne by exact Hne. exact Hacc. }
  apply Hloop. apply lookup_empty.
Qed.

(** Under every other roster entry it owns the sum of that entry. *)
Lemma activeLiquidityByAddress_lookup (addresses : list string) (st : State)
    (currentTick : Z) (addr : string) :
  addr ∈ addresses -> addr <> "__proto__" ->
  activeLiquidityByAddress addresses st currentTick !! addr
  = Some (activeLiquidityOf (default [] (positionsByAddress st !! addr)) currentTick).
Proof.
  intros Hin Hproto. revert Hin.
  unfold activeLiquidityByAddress. generalize (∅ : gmap string float).
  induction addresses as [|a l IH]; intros acc Hin; [inversion Hin|].
  simpl. destruct (decide (addr ∈ l)) as [Hl|Hl]; [apply IH; exact Hl|].
  apply elem_of_cons in Hin as [->|Hin]; [|contradiction].
  unfold JS.setProperty at 2.
  destruct (String.eqb_spec a "__proto__") as [Heq|_]; [contradiction|].
  clear IH. revert acc. induction l as [|b l IH]; intros acc.
  - simpl. apply lookup_insert_eq.
  - apply not_elem_of_cons in Hl as [Hne Hl]. simpl.
    unfold JS.setProperty at 2.
    destruct (String.eqb b "__proto__"); [apply IH; exact Hl|].
    rewrite insert_insert_ne by congruence. apply IH. exact Hl.
Qed.

(** What the second loop reads for a roster entry. *)
Lemma getProperty_activeLiquidityByAddress (addresses : list string) (st : State)
    (currentTick : Z) (addr : string) :
  addr ∈ addresses ->
  JS.getProperty (activeLiquidityByAddress addresses st currentTick) addr
  = if String.eqb addr "__proto__" then JS.VInherited "__proto__"
    else JS.VNumber
           (activeLiquidityOf (default [] (positionsByAddress st !! addr)) currentTick).
Proof.
  intros Hin. unfold JS.getProperty.
  destruct (String.eqb_spec addr "__proto__") as [->|Hne].
  - rewrite activeLiquidityByAddress_proto. reflexivity.
  - rewrite activeLiquidityByAddress_lookup by assumption. reflexivity.
Qed.

(** ** Active liquidity and precision *)

Lemma activeLiquidityOf_filter (positions : list Position) (currentTick : Z) :
  activeLiquidityOf positions currentTick
  = fold_left (fun acc x => (acc + x)%float)
      (map liquidity (List.filter (fun pos => isPositionActive pos currentTick) positions))
      0%float.
Proof.
  unfold activeLiquidityOf. generalize 0%float.
  induction positions as [|pos positions IH]; intros acc; [reflexivity|].
  simpl. destruct (isPositionActive pos currentTick); simpl; apply IH.
Qed.

(** C6, as stated, fails: liquidity is held and added as binary64 Numbers.
    An address with two active positions of liquidity [2^53] and [1] (both
    far below [2^64], both stored without rounding) gets [2^53], not
    [2^53 + 1]; and a single liquidity of [2^53 + 1] is already stored as
    [2^53]. *)
Lemma active_liquidity_exact_counterexample :
  Forall (fun pos => 0 <= raw_liquidity pos < 2 ^ 64) largePositions
  /\ map (fun pos => JS.integerValue (liquidity (convertPosition pos))) largePositions
     = [Some (2 ^ 53); Some 1]
  /\ exactActiveLiquidity largePositions 0 = 2 ^ 53 + 1
  /\ JS.integerValue (activeLiquidityOf (map convertPosition largePositions) 0)
     = Some (2 ^ 53)
  /\ JS.integerValue (activeLiquidityOf (map convertPosition largePositions) 0)
     <> Some (exactActiveLiquidity largePositions 0)
  /\ JS.integerValue (liquidity (convertPosition (positionWithLiquidity (2 ^ 53 + 1))))
     = Some (2 ^ 53).
Proof.
  assert (JS.integerValue (activeLiquidityOf (map convertPosition largePositions) 0)
          = Some (2 ^ 53)) as Hvalue by (vm_compute; reflexivity).
  split; [repeat constructor; vm_compute; discriminate|].
  split; [vm_compute; reflexivity|].
  split; [vm_compute; reflexivity|].
  split; [exact Hvalue|].
  split; [rewrite Hvalue; vm_compute; discriminate|].
  vm_compute. reflexivity.
Qed.

(** C6 (amended): the active liquidity of an address is the sum, accumulated
    in binary64 from [0] in list order, of the [Number]-converted liquidity of
    its active positions; it is the exact integer sum whenever that sum is
    below [2^53] (the liquidity fields being unsigned), and that is the value
    [updateLoop] holds and reads back for the address, for every roster entry
    but one: under the key [__proto__] the object holds no Number, and the
    read gives the prototype object. *)
Theorem active_liquidity_exact_below_2_53
    (rawPositions : list RawPosition) (currentTick : Z) :
  Forall (fun pos => 0 <= raw_liquidity pos) rawPositions ->
  exactActiveLiquidity rawPositions currentTick < 2 ^ 53 ->
  activeLiquidityOf (map convertPosition rawPositions) currentTick
    = fold_left (fun acc x => (acc + x)%float)
        (map liquidity
           (List.filter (fun pos => isPositionActive pos currentTick)
              (map convertPosition rawPositions)))
        0%float
  /\ JS.integerValue (activeLiquidityOf (map convertPosition rawPositions) currentTick)
     = Some (exactActiveLiquidity rawPositions currentTick)
  /\ forall (addresses : list string) (st : State) (addr : string),
       addr ∈ addresses ->
       positionsByAddress st !! addr = Some (map convertPosition rawPositions) ->
       (addr <> "__proto__" ->
        exists activeLiquidity,
          activeLiquidityByAddress addresses st currentTick !! addr = Some activeLiquidity
          /\ JS.getProperty (activeLiquidityByAddress addresses st currentTick) addr
             = JS.VNumber activeLiquidity
          /\ JS.integerValue activeLiquidity
             = Some (exactActiveLiquidity rawPositions currentTick))
       /\ (addr = "__proto__" ->
           activeLiquidityByAddress addresses st currentTick !! addr = None
           /\ JS.getProperty (activeLiquidityByAddress addresses st currentTick) addr
              = JS.VInherited "__proto__").
Proof.
  intros Hnonneg Hsum.
  pose proof (exactActiveLiquidity_nonneg rawPositions currentTick Hnonneg) as Hpos.
  assert (JS.integerValue (activeLiquidityOf (map convertPosition rawPositions) currentTick)
          = Some (exactActiveLiquidity rawPositions currentTick)) as Hexact.
  { unfold activeLiquidityOf. change 0%float with (JS.Number 0).
    rewrite (activeLiquidity_fold_exact rawPositions currentTick 0 Hnonneg) by lia.
    apply integerValue_Number. lia. }
  split; [apply activeLiquidityOf_filter|]. split; [exact Hexact|].
  intros addresses st addr Hin Hcached. split.
  - intros Hne. unfold JS.getProperty.
    rewrite (activeLiquidityByAddress_lookup addresses st currentTick addr Hin Hne), Hcached.
    eexists. split; [reflexivity|]. split; [reflexivity|exact Hexact].
  - intros ->. unfold JS.getProperty.
    rewrite activeLiquidityByAddress_proto. split; reflexivity.
Qed.

Lemma active_liquidity_exact_below_2_53_witness :
  JS.integerValue (activeLiquidityOf (map convertPosition [scenarioRawPosition]) 0)
  = Some 500.
Proof.
  apply (active_liquidity_exact_below_2_53 [scenarioRawPosition] 0).
  - repeat constructor. vm_compute. discriminate.
  - vm_compute. reflexivity.
Defined.


(** * Further properties of the program *)

(** ** Reading the roster *)

Lemma split_nonempty (text : string) : Roster.split text <> [].
Proof.
  destruct text as [|c text]; simpl; [discriminate|].
  destruct (Ascii.eqb c Roster.newline); [discriminate|].
  destruct (Roster.split text); discriminate.
Qed.

Lemma split_noNewline (text : string) :
  Forall (fun line => Roster.noNewline line = true) (Roster.split text).
Proof.
  induction text as [|c text IH]; simpl; [repeat constructor|].
  destruct (Ascii.eqb c Roster.newline) eqn:Hc; [constructor; [reflexivity|exact IH]|].
  destruct (Roster.split text) as [|line lines]; [repeat constructor; simpl; rewrite Hc; reflexivity|].
  inversion IH; subst. constructor; [simpl; rewrite Hc; assumption|assumption].
Qed.

Lemma split_line (line : string) :
  Roster.noNewline line = true -> Roster.split line = [line].
Proof.
  induction line as [|c line IH]; simpl; [reflexivity|].
  intros [Hc Hline]%andb_true_iff. apply negb_true_iff in Hc.
  rewrite Hc, IH by assumption. reflexivity.
Qed.

Lemma split_line_rest (line rest : string) :
  Roster.noNewline line = true ->
  Roster.split (line +:+ String Roster.newline rest) = line :: Roster.split rest.
Proof.
  induction line as [|c line IH].
  - intros _. reflexivity.
  - intros [Hc Hline]%andb_true_iff. apply negb_true_iff in Hc.
    change (String c line +:+ String Roster.newline rest)
      with (String c (line +:+ String Roster.newline rest)).
    cbn [Roster.split]. rewrite Hc, IH by assumption. reflexivity.
Qed.

Lemma split_unlines (lines : list string) :
  lines <> [] ->
  Forall (fun line => Roster.noNewline line = true) lines ->
  Roster.split (Roster.unlines lines) = lines.
Proof.
  intros Hne Hall. induction Hall as [|line lines Hline Hrest IH]; [contradiction|].
  destruct lines as [|line' lines].
  - simpl. apply split_line. exact Hline.
  - change (Roster.unlines (line :: line' :: lines))
      with (line +:+ String Roster.newline (Roster.unlines (line' :: lines))).
    rewrite split_line_rest by assumption. rewrite IH by discriminate. reflexivity.
Qed.

Lemma trimStart_length (line : string) :
  (String.length (Roster.trimStart line) <= String.length line)%nat.
Proof.
  induction line as [|c line IH]; simpl; [lia|].
  destruct (Roster.isWhiteSpace c); simpl; lia.
Qed.

Lemma trimEnd_length (line : string) :
  (String.length (Roster.trimEnd line) <= String.length line)%nat.
Proof.
  induction line as [|c line IH]; simpl; [lia|].
  destruct (Roster.trimEnd line); [destruct (Roster.isWhiteSpace c)|]; simpl in *; lia.
Qed.

Lemma trimEnd_idempotent (line : string) :
  Roster.trimEnd (Roster.trimEnd line) = Roster.trimEnd line.
Proof.
  induction line as [|c line IH]; simpl; [reflexivity|].
  destruct (Roster.trimEnd line) as [|c' rest] eqn:Hrest.
  - destruct (Roster.isWhiteSpace c) eqn:Hc; simpl; [reflexivity|]. rewrite Hc. reflexivity.
  - cbn [Roster.trimEnd] in *. rewrite IH. reflexivity.
Qed.

Lemma trimEnd_head (c : ascii) (line : string) :
  Roster.isWhiteSpace c = false ->
  exists rest, Roster.trimEnd (String c line) = String c rest.
Proof.
  intros Hc. simpl. destruct (Roster.trimEnd line); [rewrite Hc|]; eauto.
Qed.

Lemma trimStart_head (line : string) :
  match Roster.trimStart line with
  | EmptyString => True
  | String c _ => Roster.isWhiteSpace c = false
  end.
Proof.
  induction line as [|c line IH]; simpl; [exact I|].
  destruct (Roster.isWhiteSpace c) eqn:Hc; [exact IH|exact Hc].
Qed.

Lemma trim_idempotent (line : string) :
  Roster.trim (Roster.trim line) = Roster.trim line.
Proof.
  unfold Roster.trim. pose proof (trimStart_head line) as Hhead.
  destruct (Roster.trimStart line) as [|c rest]; [reflexivity|].
  destruct (trimEnd_head c rest Hhead) as [rest' Hrest']. rewrite Hrest'.
  cbn [Roster.trimStart]. rewrite Hhead, <- Hrest'. apply trimEnd_idempotent.
Qed.

(** A trimmed, non-empty entry starts with a code unit that is not white
    space and has nothing to trim at its end. *)
Lemma trimmed_entry (entry : string) :
  Roster.trim entry = entry -> entry <> "" ->
  Roster.trimStart entry = entry /\ Roster.trimEnd entry = entry.
Proof.
  intros Htrim Hne. destruct entry as [|c entry]; [contradiction|].
  unfold Roster.trim in Htrim.
  destruct (Roster.isWhiteSpace c) eqn:Hc.
  - exfalso. cbn [Roster.trimStart] in Htrim. rewrite Hc in Htrim.
    pose proof (trimEnd_length (Roster.trimStart entry)) as H1.
    pose proof (trimStart_length entry) as H2.
    rewrite Htrim in H1. simpl in H1. lia.
  - cbn [Roster.trimStart] in *. rewrite Hc in *. auto.
Qed.

Lemma trimStart_noNewline (line : string) :
  Roster.noNewline line = true -> Roster.noNewline (Roster.trimStart line) = true.
Proof.
  induction line as [|c line IH]; simpl; [reflexivity|].
  intros [Hc Hline]%andb_true_iff.
  destruct (Roster.isWhiteSpace c); [auto|]. simpl. rewrite Hc, Hline. reflexivity.
Qed.

Lemma trimEnd_noNewline (line : string) :
  Roster.noNewline line = true -> Roster.noNewline (Roster.trimEnd line) = true.
Proof.
  induction line as [|c line IH]; simpl; [reflexivity|].
  intros [Hc Hline]%andb_true_iff. specialize (IH Hline).
  destruct (Roster.trimEnd line).
  - destruct (Roster.isWhiteSpace c); [reflexivity|]. simpl. rewrite Hc. reflexivity.
  - cbn [Roster.noNewline] in *. rewrite Hc, IH. reflexivity.
Qed.

Lemma trimStart_pad (pad line : string) :
  Roster.allWhiteSpace pad = true ->
  Roster.trimStart (pad +:+ line) = Roster.trimStart line.
Proof.
  induction pad as [|c pad IH]; [reflexivity|].
  intros [Hc Hpad]%andb_true_iff.
  change (String c pad +:+ line) with (String c (pad +:+ line)).
  cbn [Roster.trimStart]. rewrite Hc. auto.
Qed.

Lemma trimEnd_allWhiteSpace (pad : string) :
  Roster.allWhiteSpace pad = true -> Roster.trimEnd pad = "".
Proof.
  induction pad as [|c pad IH]; [reflexivity|].
  intros [Hc Hpad]%andb_true_iff. cbn [Roster.trimEnd].
  rewrite IH, Hc by assumption. reflexivity.
Qed.

Lemma trimEnd_pad (line pad : string) :
  Roster.allWhiteSpace pad = true ->
  Roster.trimEnd (line +:+ pad) = Roster.trimEnd line.
Proof.
  intros Hpad. induction line as [|c line IH].
  - apply trimEnd_allWhiteSpace. exact Hpad.
  - change (String c line +:+ pad) with (String c (line +:+ pad)).
    cbn [Roster.trimEnd]. rewrite IH. reflexivity.
Qed.

(** White space around an entry is trimmed away, and a line of white space
    only trims to the empty line. *)
Lemma trim_padded (pre entry post : string) :
  Roster.allWhiteSpace pre = true -> Roster.allWhiteSpace post = true ->
  entry = "" \/ Roster.clean entry ->
  Roster.trim (pre +:+ entry +:+ post) = entry.
Proof.
  intros Hpre Hpost Hentry. unfold Roster.trim. rewrite trimStart_pad by assumption.
  destruct Hentry as [->|(Hne & Htrim & _)].
  - change ("" +:+ post) with post.
    pose proof (trimStart_length post) as Hlen.
    assert (Roster.allWhiteSpace (Roster.trimStart post) = true) as Hws.
    { clear -Hpost. induction post as [|c post IH]; [reflexivity|].
      apply andb_true_iff in Hpost as [Hc Hpost]. simpl. rewrite Hc. auto. }
    apply trimEnd_allWhiteSpace. exact Hws.
  - destruct (trimmed_entry entry Htrim Hne) as [Hstart Hend].
    destruct entry as [|c entry]; [contradiction|].
    cbn [Roster.trimStart] in Hstart.
    change (String c entry +:+ post) with (String c (entry +:+ post)).
    cbn [Roster.trimStart].
    destruct (Roster.isWhiteSpace c) eqn:Hc.
    + exfalso. pose proof (trimStart_length entry) as Hlen.
      rewrite Hstart in Hlen. simpl in Hlen. lia.
    + change (String c (entry +:+ post)) with (String c entry +:+ post).
      rewrite trimEnd_pad by assumption. exact Hend.
Qed.

Lemma noNewline_app (a b : string) :
  Roster.noNewline (a +:+ b) = Roster.noNewline a && Roster.noNewline b.
Proof.
  induction a as [|c a IH]; [reflexivity|].
  change (String c a +:+ b) with (String c (a +:+ b)).
  cbn [Roster.noNewline]. rewrite IH, andb_assoc. reflexivity.
Qed.

(** X1: every entry of the parsed roster is non-empty, has no white space
    left at either end and holds no line feed. *)
Theorem parseAddresses_entries_clean (text : string) :
  Forall Roster.clean (Roster.parseAddresses text).
Proof.
  unfold Roster.parseAddresses.
  pose proof (split_noNewline text) as Hlines.
  induction Hlines as [|line lines Hline _ IH]; simpl; [constructor|].
  destruct (String.eqb_spec (Roster.trim line) "") as [Hempty|Hne]; simpl; [exact IH|].
  constructor; [|exact IH]. split; [exact Hne|]. split; [apply trim_idempotent|].
  unfold Roster.trim. apply trimEnd_noNewline, trimStart_noNewline, Hline.
Qed.

(** X2: a file of one entry per line reads back as the list of its entries:
    white space around an entry (such as the carriage return of a CRLF line
    end) and lines without an entry are ignored; in particular a roster of
    clean entries joined by line feeds parses to itself. *)
Theorem parseAddresses_unlines :
  (forall lines : list Roster.Line,
     Forall Roster.validLine lines ->
     Roster.parseAddresses (Roster.unlines (map Roster.lineText lines))
     = List.filter (fun entry => negb (String.eqb entry ""))
         (map Roster.line_entry lines))
  /\ (forall roster : list string,
        Forall Roster.clean roster ->
        Roster.parseAddresses (Roster.unlines roster) = roster).
Proof.
  assert (forall lines : list Roster.Line,
             Forall Roster.validLine lines ->
             Roster.parseAddresses (Roster.unlines (map Roster.lineText lines))
             = List.filter (fun entry => negb (String.eqb entry ""))
                 (map Roster.line_entry lines)) as Hgeneral.
  { intros lines Hlines. unfold Roster.parseAddresses.
    destruct lines as [|l lines]; [reflexivity|].
    rewrite split_unlines.
    - f_equal. rewrite map_map. apply map_ext_Forall.
      eapply Forall_impl; [exact Hlines|].
      intros [pre entry post] ([Hpre _] & [Hpost _] & Hentry). simpl in *.
      apply trim_padded; assumption.
    - discriminate.
    - apply Forall_map. eapply Forall_impl; [exact Hlines|].
      intros [pre entry post] ([_ Hpre] & [_ Hpost] & Hentry).
      unfold Roster.lineText. simpl in *.
      rewrite !noNewline_app, Hpre, Hpost.
      destruct Hentry as [->|(_ & _ & ->)]; reflexivity. }
  split; [exact Hgeneral|].
  intros roster Hclean.
  pose (lines := map (fun entry => {| Roster.line_pre := ""; Roster.line_entry := entry;
                                      Roster.line_post := "" |}) roster).
  assert (map Roster.lineText lines = roster) as Htext.
  { unfold lines. rewrite map_map. rewrite <- (map_id roster) at 2.
    apply map_ext. intros entry. unfold Roster.lineText. simpl.
    induction entry as [|c entry IH]; [reflexivity|].
    change ("" +:+ String c entry +:+ "") with (String c ("" +:+ entry +:+ "")).
    rewrite IH. reflexivity. }
  assert (map Roster.line_entry lines = roster) as Hentries.
  { unfold lines. rewrite map_map. apply map_id. }
  rewrite <- Htext at 1. rewrite Hgeneral.
  - rewrite Hentries. clear -Hclean.
    induction Hclean as [|entry roster (Hne & _) _ IH]; [reflexivity|].
    simpl. destruct (String.eqb_spec entry ""); [contradiction|]. simpl. rewrite IH. reflexivity.
  - unfold lines. apply Forall_map. eapply Forall_impl; [exact Hclean|].
    intros entry Hentry. repeat split; simpl; auto.
Qed.

Lemma parseAddresses_unlines_witness :
  Roster.parseAddresses (Roster.unlines (map Roster.lineText Roster.exampleRosterLines))
  = ["0x1111111111111111111111111111111111111111";
     "0xA0b86991C6218b36c1d19D4a2e9Eb0cE3606EB48"].
Proof.
  destruct parseAddresses_unlines as [Hlines _].
  apply (Hlines Roster.exampleRosterLines).
  repeat constructor; simpl; try reflexivity; try discriminate;
    right; repeat split; try reflexivity; discriminate.
Defined.

(** ** Numbers of any size *)

Lemma shr_1_m (mrs : shr_record) :
  0 <= shr_m mrs -> shr_m (shr_1 mrs) = shr_m mrs / 2.
Proof.
  destruct mrs as [m r s]. simpl. intros Hm.
  destruct m as [|[p|p|]|p]; try lia; cbn [shr_m]; try reflexivity.
  - apply Z.div_unique with (r := 1); lia.
  - apply Z.div_unique with (r := 0); lia.
Qed.

Lemma iter_pos_shr_1_m (k : positive) (mrs : shr_record) :
  0 <= shr_m mrs ->
  shr_m (SpecFloat.iter_pos shr_1 k mrs) = shr_m mrs / 2 ^ Z.pos k.
Proof.
  revert mrs. induction k as [k IH|k IH|]; intros mrs Hm.
  - replace (Z.pos k~1) with (1 + Z.pos k + Z.pos k) by lia.
    cbn [SpecFloat.iter_pos].
    assert (0 <= shr_m (shr_1 mrs)) as H1
      by (rewrite shr_1_m by assumption; apply Z.div_pos; lia).
    assert (0 <= shr_m (SpecFloat.iter_pos shr_1 k (shr_1 mrs))) as H2
      by (rewrite IH by assumption; apply Z.div_pos; [|apply Z.pow_pos_nonneg]; lia).
    rewrite IH, IH, shr_1_m by assumption.
    rewrite !Z.div_div by (try apply Z.pow_pos_nonneg; lia).
    f_equal. rewrite !Z.pow_add_r by lia. change (2 ^ 1) with 2. ring.
  - replace (Z.pos k~0) with (Z.pos k + Z.pos k) by lia.
    cbn [SpecFloat.iter_pos].
    assert (0 <= shr_m (SpecFloat.iter_pos shr_1 k mrs)) as H2
      by (rewrite IH by assumption; apply Z.div_pos; [|apply Z.pow_pos_nonneg]; lia).
    rewrite IH, IH by assumption.
    rewrite !Z.div_div by (try apply Z.pow_pos_nonneg; lia).
    f_equal. rewrite !Z.pow_add_r by lia. ring.
  - cbn [SpecFloat.iter_pos]. rewrite shr_1_m by assumption. reflexivity.
Qed.

Lemma round_nearest_even_bounds (q : Z) (l : location) :
  q <= round_nearest_even q l <= q + 1.
Proof.
  destruct l as [|[| |]]; simpl; try lia. destruct (Z.even q); lia.
Qed.

(** An integer of [2^53] or more is stored as a positive normal number, or
    as [+Infinity] when it is too large for the format. *)
Lemma ofInteger_large (z : Z) :
  2 ^ 53 <= z ->
  JS.ofInteger z = S754_infinity false
  \/ exists m e, JS.ofInteger z = S754_finite false m e
                 /\ 2 ^ 52 <= Z.pos m < 2 ^ 53 /\ 1 <= e <= 971.
Proof.
  intros Hz. destruct z as [|p|p]; try lia.
  pose proof (digits2_pos_bounds p) as Hd.
  set (d := Z.pos (digits2_pos p)) in *.
  assert (53 < d).
  { destruct (Z_lt_le_dec 53 d) as [|Hle]; [assumption|].
    assert (2 ^ d <= 2 ^ 53) by (apply Z.pow_le_mono_r; lia). lia. }
  destruct (d - 53) as [|k|k] eqn:Hk; try lia.
  assert (d = 53 + Z.pos k) as Hdk by lia.
  assert (fexp prec emax (Z.pos (digits2_pos p) + 0) = Z.pos k) as Hfexp.
  { unfold fexp, SpecFloat.emin, prec, emax. fold d. lia. }
  assert (JS.ofInteger (Z.pos p)
          = binary_round_aux prec emax false (Z.pos p) 0 loc_Exact) as ->.
  { unfold JS.ofInteger, binary_normalize, binary_round, shl_align.
    rewrite Hfexp, Z.sub_0_r. reflexivity. }
  unfold binary_round_aux.
  assert (shr_fexp prec emax (Z.pos p) 0 loc_Exact
          = (SpecFloat.iter_pos shr_1 k {| shr_m := Z.pos p; shr_r := false; shr_s := false |},
             Z.pos k)) as Hshr.
  { unfold shr_fexp. cbn [Zdigits2]. rewrite Hfexp. reflexivity. }
  rewrite Hshr.
  set (mrs := SpecFloat.iter_pos shr_1 k {| shr_m := Z.pos p; shr_r := false; shr_s := false |}).
  assert (shr_m mrs = Z.pos p / 2 ^ Z.pos k) as Hq
    by (unfold mrs; rewrite iter_pos_shr_1_m; simpl; [reflexivity|lia]).
  assert (0 < 2 ^ Z.pos k) by (apply Z.pow_pos_nonneg; lia).
  assert (2 ^ 52 <= shr_m mrs < 2 ^ 53) as Hqb.
  { rewrite Hq. split.
    - apply Z.div_le_lower_bound; [lia|].
      replace (2 ^ Z.pos k * 2 ^ 52) with (2 ^ (d - 1))
        by (rewrite <- Z.pow_add_r by lia; f_equal; lia). lia.
    - apply Z.div_lt_upper_bound; [lia|].
      replace (2 ^ Z.pos k * 2 ^ 53) with (2 ^ d)
        by (rewrite <- Z.pow_add_r by lia; f_equal; lia). lia. }
  pose proof (round_nearest_even_bounds (shr_m mrs) (loc_of_shr_record mrs)) as Hround.
  set (m1 := round_nearest_even (shr_m mrs) (loc_of_shr_record mrs)) in *.
  destruct (Z.eq_dec m1 (2 ^ 53)) as [Hm1|Hm1].
  - rewrite Hm1.
    assert (shr_fexp prec emax (2 ^ 53) (Z.pos k) loc_Exact
            = ({| shr_m := 2 ^ 52; shr_r := false; shr_s := false |}, Z.pos k + 1)) as ->.
    { unfold shr_fexp, fexp, SpecFloat.emin, prec, emax.
      change (Zdigits2 (2 ^ 53)) with 54.
      replace (Z.max (54 + Z.pos k - 53) (3 - 1024 - 53) - Z.pos k) with 1 by lia.
      reflexivity. }
    cbn [shr_m]. change (2 ^ 52) with (Z.pos (2 ^ 52)%positive). cbv iota.
    destruct (Z.leb_spec (Z.pos k + 1) (emax - prec)) as [Hle|Hgt]; [right|left; reflexivity].
    eexists _, _. split; [reflexivity|]. unfold emax, prec in Hle.
    split; [vm_compute; split; [discriminate|reflexivity]|lia].
  - destruct m1 as [|pm|pm] eqn:Hpm; try lia.
    rewrite shr_fexp_canonical by lia. cbn [shr_m].
    destruct (Z.leb_spec (Z.pos k) (emax - prec)) as [Hle|Hgt]; [right|left; reflexivity].
    eexists _, _. split; [reflexivity|]. unfold emax, prec in Hle. lia.
Qed.

Lemma ofInteger_positive (z : Z) :
  0 < z ->
  valid_binary (JS.ofInteger z) = true
  /\ (JS.ofInteger z = S754_infinity false
      \/ exists m e, JS.ofInteger z = S754_finite false m e).
Proof.
  intros Hz. destruct (Z_lt_le_dec z (2 ^ 53)) as [Hsmall|Hlarge].
  - split; [apply ofInteger_valid; lia|].
    destruct (ofInteger_exact z) as (m & k & -> & _); [lia|]. eauto.
  - destruct (ofInteger_large z Hlarge) as [->|(m & e & -> & Hm & He)].
    + split; [reflexivity|auto].
    + split; [|eauto].
      unfold SpecFloat.valid_binary, bounded, canonical_mantissa, fexp,
        SpecFloat.emin, prec, emax.
      rewrite (digits2_pos_unique m 53 Hm).
      apply andb_true_iff. split; [apply Z.eqb_eq|apply Z.leb_le]; lia.
Qed.

Lemma Prim2SF_Number_positive (z : Z) :
  0 < z ->
  Prim2SF (JS.Number z) = S754_infinity false
  \/ exists m e, Prim2SF (JS.Number z) = S754_finite false m e.
Proof.
  intros Hz. destruct (ofInteger_positive z Hz) as [Hvalid Hshape].
  unfold JS.Number. rewrite Prim2SF_SF2Prim by exact Hvalid.
  destruct Hshape as [->|(m & e & ->)]; eauto.
Qed.

(** [Number(b) === 0] holds for the integer zero only. *)
Lemma strictEq_Number_zero_iff (z : Z) :
  0 <= z -> (JS.strictEq (JS.Number z) 0 = true <-> z = 0).
Proof.
  intros Hz. split; [|intros ->; reflexivity].
  destruct (Z.eq_dec z 0) as [|Hne]; [auto|].
  unfold JS.strictEq. rewrite FloatAxioms.eqb_spec.
  destruct (Prim2SF_Number_positive z) as [->|(m & e & ->)]; [lia| |]; discriminate.
Qed.

(** Zero divided by the Number of a positive integer, times 100, is zero. *)
Lemma zero_share (z : Z) :
  0 < z -> (0 / JS.Number z * 100)%float = 0%float.
Proof.
  intros Hz.
  assert ((0 / JS.Number z)%float = 0%float) as ->; [|reflexivity].
  apply Prim2SF_inj. rewrite div_spec.
  destruct (Prim2SF_Number_positive z Hz) as [->|(m & e & ->)]; reflexivity.
Qed.

(** Below [2^53], [===] on converted integers is equality of the integers. *)
Lemma strictEq_Number_iff (a b : Z) :
  0 <= a < 2 ^ 53 -> 0 <= b < 2 ^ 53 ->
  (JS.strictEq (JS.Number a) (JS.Number b) = true <-> a = b).
Proof.
  intros Ha Hb. unfold JS.strictEq. rewrite FloatAxioms.eqb_spec, !Prim2SF_Number by assumption.
  split.
  - destruct (Z.eq_dec a 0) as [->|Hane], (Z.eq_dec b 0) as [->|Hbne]; [reflexivity| | |].
    + destruct (ofInteger_exact b) as (m & k & -> & _); [lia|]. discriminate.
    + destruct (ofInteger_exact a) as (m & k & -> & _); [lia|]. discriminate.
    + destruct (ofInteger_exact a) as (ma & ka & -> & Hka & Hma & _); [lia|].
      destruct (ofInteger_exact b) as (mb & kb & -> & Hkb & Hmb & _); [lia|].
      unfold SFeqb, SFcompare.
      destruct (Z.compare_spec (- ka) (- kb)) as [Hk|Hk|Hk]; try discriminate.
      change (Pos.compare_cont Eq ma mb) with (Pos.compare ma mb).
      destruct (Pos.compare_spec ma mb) as [Hm|Hm|Hm]; try discriminate.
      intros _. subst mb. assert (ka = kb) as -> by lia.
      assert (0 < 2 ^ kb) by (apply Z.pow_pos_nonneg; lia). nia.
  - intros ->. destruct (Z.eq_dec b 0) as [->|Hbne]; [reflexivity|].
    destruct (ofInteger_exact b) as (m & k & -> & _); [lia|].
    unfold SFeqb, SFcompare. rewrite Z.compare_refl.
    change (Pos.compare_cont Eq m m) with (Pos.compare m m).
    rewrite Pos.compare_refl. reflexivity.
Qed.

(** ** The filter of [fetchPositionsForAddress] *)

Lemma lowerAscii_idempotent (c : ascii) :
  JS.lowerAscii (JS.lowerAscii c) = JS.lowerAscii c.
Proof. destruct c as [[] [] [] [] [] [] [] []]; reflexivity. Qed.

Lemma toLowerCase_idempotent (s : string) :
  JS.toLowerCase (JS.toLowerCase s) = JS.toLowerCase s.
Proof.
  induction s as [|c s IH]; simpl; [reflexivity|].
  rewrite lowerAscii_idempotent, IH. reflexivity.
Qed.

Lemma FEE_Number : FEE = JS.Number 10000.
Proof. reflexivity. Qed.

(** X3: on a position as the chain returns it (the fee a uint24), the filter
    keeps the position exactly when its fee is the integer 10000 and its
    token pair is the configured one, in either order and whatever the letter
    case: the conversion of the fee to a Number confuses no two fee tiers. *)
Theorem isTargetPosition_convertPosition (pos : RawPosition) :
  0 <= raw_fee pos < 2 ^ 24 ->
  (isTargetPosition (convertPosition pos) = true
   <-> raw_fee pos = 10000 /\ isTargetPair (raw_token0 pos) (raw_token1 pos)).
Proof.
  intros Hfee. unfold isTargetPosition, isTargetPair. cbn [token0 token1 fee convertPosition].
  rewrite orb_true_iff, !andb_true_iff, !String.eqb_eq, FEE_Number.
  rewrite strictEq_Number_iff by (split; try lia; vm_compute; reflexivity || discriminate).
  tauto.
Qed.

Lemma isTargetPosition_convertPosition_witness :
  isTargetPosition (convertPosition reversedRawPosition) = true.
Proof.
  apply (isTargetPosition_convertPosition reversedRawPosition).
  - vm_compute. split; [discriminate|reflexivity].
  - split; [reflexivity|]. right. split; reflexivity.
Defined.

(** X4: the filter does not depend on the order of the two tokens of a
    position, nor on the letter case of their addresses. *)
Theorem isTargetPosition_symmetric (pos : Position) :
  isTargetPosition (swapTokens pos) = isTargetPosition pos
  /\ isTargetPosition (lowerTokens pos) = isTargetPosition pos.
Proof.
  unfold isTargetPosition. cbn [token0 token1 fee swapTokens lowerTokens]. split.
  - destruct (String.eqb (JS.toLowerCase (token0 pos)) (JS.toLowerCase USDC_ADDRESS)),
      (String.eqb (JS.toLowerCase (token1 pos)) (JS.toLowerCase OTHER_TOKEN)),
      (String.eqb (JS.toLowerCase (token0 pos)) (JS.toLowerCase OTHER_TOKEN)),
      (String.eqb (JS.toLowerCase (token1 pos)) (JS.toLowerCase USDC_ADDRESS)),
      (JS.strictEq (fee pos) FEE); reflexivity.
  - rewrite !toLowerCase_idempotent. reflexivity.
Qed.

(** ** Fetching *)

Lemma promiseAll_map_Ok {A B} (f : A -> result B) (g : A -> B) (l : list A) :
  Forall (fun x => f x = Ok (g x)) l -> promiseAll (map f l) = Ok (map g l).
Proof.
  induction 1 as [|x l Hx _ IH]; [reflexivity|].
  simpl. rewrite Hx, IH. reflexivity.
Qed.

(** X5: when the data source answers every call, [fetchPositionsForAddress]
    returns the converted positions of the indices [0 .. balance - 1], in
    index order, filtered; it logs nothing and needs no answer for any other
    index. A balance of [2^32] or more cannot be enumerated: the function
    returns the empty list and logs one error. *)
Theorem fetchPositionsForAddress_in_index_order
    (positionManager : PositionManager) (addr : string) (st : State) (count : Z) :
  balanceOf positionManager addr = Ok count ->
  (forall (idOf : Z -> Z) (rawOf : Z -> RawPosition),
     0 < count < 2 ^ 32 ->
     (forall i, 0 <= i < count ->
                tokenOfOwnerByIndex positionManager addr i = Ok (idOf i)
                /\ positions positionManager (idOf i) = Ok (rawOf i)) ->
     fetchPositionsForAddress positionManager addr st
     = (Ok (filterTarget (map (fun i => convertPosition (rawOf i)) (seqZ 0 count))), st, []))
  /\ (2 ^ 32 <= count ->
      fetchPositionsForAddress positionManager addr st
      = (Ok [], st,
         [ConsoleError ("Error fetching positions for " +:+ addr
                        +:+ ": RangeError: Invalid array length")])).
Proof.
  intros Hbalance. rewrite fetchPositionsForAddress_run. unfold readPositions.
  rewrite Hbalance. split.
  - intros idOf rawOf Hcount Hcalls.
    destruct (Z.eqb_spec count 0) as [|_]; [lia|].
    unfold arrayKeys.
    replace ((0 <=? count) && (count <? 2 ^ 32)) with true
      by (symmetry; apply andb_true_iff; split; [apply Z.leb_le|apply Z.ltb_lt]; lia).
    rewrite (promiseAll_map_Ok _ idOf).
    + rewrite map_map. rewrite (promiseAll_map_Ok _ rawOf).
      * rewrite map_map. reflexivity.
      * apply Forall_forall. intros i Hi%elem_of_seqZ. apply Hcalls. lia.
    + apply Forall_forall. intros i Hi%elem_of_seqZ. apply Hcalls. lia.
  - intros Hcount.
    destruct (Z.eqb_spec count 0) as [|_]; [lia|].
    unfold arrayKeys.
    replace ((0 <=? count) && (count <? 2 ^ 32)) with false; [reflexivity|].
    symmetry. apply andb_false_iff. right. apply Z.ltb_ge. exact Hcount.
Qed.

Lemma fetchPositionsForAddress_in_index_order_witness :
  fetchPositionsForAddress scenarioManager exampleAddress exampleState
    = (Ok [scenarioPosition], exampleState, [])
  /\ (fetchPositionsForAddress oversizedManager exampleAddress exampleState).1.1 = Ok [].
Proof.
  split.
  - destruct (fetchPositionsForAddress_in_index_order scenarioManager exampleAddress
                exampleState 2) as [Hok _]; [reflexivity|].
    rewrite (Hok (fun i => 100 + i)
               (fun i => {| raw_token0 := USDC_ADDRESS; raw_token1 := OTHER_TOKEN;
                            raw_fee := if 100 + i =? 100 then 10000 else 3000;
                            raw_tickLower := -100; raw_tickUpper := 100;
                            raw_liquidity := 500 |})).
    + vm_compute. reflexivity.
    + vm_compute. split; reflexivity.
    + intros i Hi. split; reflexivity.
  - destruct (fetchPositionsForAddress_in_index_order oversizedManager exampleAddress
                exampleState (2 ^ 32)) as [_ Hbig]; [reflexivity|].
    rewrite Hbig; [reflexivity|]. lia.
Defined.

(** ** A cycle in any state *)

Section RowLoopOutcome.

Variable mk : string -> float -> TimeSeriesRecord.
Variable v : string -> float.

(** A row loop stops at the first address without a store: the rows of the
    addresses before it are out, their windows are pushed, and the read of
    [values] throws. *)
Lemma rowLoop_missing (pre rest : list string) (a : string) (st : State) :
  hasStores pre st -> rollingData st !! a = None ->
  exists err rws,
    rowLoop mk v (pre ++ a :: rest) st =
    (Throw err,
     {| positionsByAddress := positionsByAddress st;
        rollingData := pushEach v pre (rollingData st) |},
     map LogAndSave rws)
    /\ Forall2 (fun addr row => exists avg, row = mk addr avg) pre rws.
Proof.
  revert st. induction pre as [|addr pre IH]; intros st Hst Hnone.
  - exists "TypeError: Cannot read properties of undefined", []. split; [|constructor].
    unfold rowLoop. simpl. unfold bind at 1. unfold bind at 1.
    unfold updateStore, bind at 1, getValues. rewrite Hnone. destruct st; reflexivity.
  - apply Forall_cons in Hst as [[values Hvalues] Hrest].
    set (st1 := {| positionsByAddress := positionsByAddress st;
                   rollingData := <[addr := pushWindow values (v addr)]> (rollingData st) |}).
    assert (hasStores pre st1) as Hst1.
    { unfold hasStores in *. eapply Forall_impl; [exact Hrest|].
      intros b Hb. simpl. destruct (decide (addr = b)) as [->|Hne].
      - rewrite lookup_insert_eq. eauto.
      - rewrite lookup_insert_ne by assumption. exact Hb. }
    assert (rollingData st1 !! a = None) as Hnone1.
    { simpl. rewrite lookup_insert_ne; [exact Hnone|]. intros ->. congruence. }
    destruct (IH st1 Hst1 Hnone1) as (err & rws & Hrun & Hrows).
    exists err, (mk addr (rollingAvg (pushWindow values (v addr))) :: rws). split.
    + unfold rowLoop in *. simpl. unfold bind at 1. unfold bind at 1.
      rewrite (updateStore_run _ _ _ _ Hvalues). unfold emit at 1.
      fold st1. rewrite Hrun. simpl. rewrite Hvalues. reflexivity.
    + constructor; eauto.
Qed.

End RowLoopOutcome.

(** A roster either has all its stores or splits at its first address
    without one. *)
Lemma hasStores_or_missing (l : list string) (st : State) :
  hasStores l st
  \/ exists pre a rest, l = pre ++ a :: rest /\ hasStores pre st
                        /\ rollingData st !! a = None.
Proof.
  induction l as [|a l IH]; [left; constructor|].
  destruct (rollingData st !! a) as [values|] eqn:Ha.
  - destruct IH as [Hall|(pre & b & rest & -> & Hpre & Hb)].
    + left. constructor; [rewrite Ha; eauto|exact Hall].
    + right. exists (a :: pre), b, rest. split; [reflexivity|].
      split; [constructor; [rewrite Ha; eauto|exact Hpre]|exact Hb].
  - right. exists [], a, l. split; [reflexivity|]. split; [constructor|exact Ha].
Qed.

Lemma pushEach_incl_not_in (v : string -> float) (pre l : list string)
    (rd : gmap string (list float)) (addr : string) :
  (forall a, a ∈ pre -> a ∈ l) -> addr ∉ l ->
  pushEach v pre rd !! addr = rd !! addr.
Proof. intros Hincl Hnotin. apply pushEach_not_in. intros Hin. auto. Qed.

Lemma noQuery_rows (rws : list TimeSeriesRecord) :
  Forall (fun e => isQuery e = false) (map LogAndSave rws).
Proof. apply Forall_map. apply Forall_forall. reflexivity. Qed.

Section CycleOutcome.

Variable addresses : list string.
Variable Math_pow : float -> float -> float.

(** A sampled cycle that meets an address without a store: the rows of the
    addresses before it are out, then the [catch] logs the error. *)
Lemma updateLoop_missing (env : CycleEnv) (st : State) (slot0 : Slot0) (poolLiquidity : Z)
    (pre rest : list string) (a : string) :
  env_slot0 env = Ok slot0 -> env_liquidity env = Ok poolLiquidity ->
  addresses = pre ++ a :: rest ->
  hasStores pre st -> rollingData st !! a = None ->
  exists v err rws,
    updateLoop addresses Math_pow env st =
    (Ok tt,
     {| positionsByAddress := positionsByAddress st;
        rollingData := pushEach v pre (rollingData st) |},
     map LogAndSave rws ++ [ConsoleError ("Error in updateLoop: " +:+ err)])
    /\ map rec_address rws = pre.
Proof.
  intros Hslot Hliq Haddresses Hpre Hnone.
  destruct (JS.strictEq (JS.Number poolLiquidity) 0) eqn:Hzero.
  - destruct (rowLoop_missing
                (fun addr avg =>
                   {| rec_timestamp := env_now env;
                      rec_address := addr;
                      rec_activeLiquidity := 0;
                      rec_percentage := 0;
                      rec_rollingAvg := avg;
                      rec_currentTick := Some (tick slot0);
                      rec_currentPrice := Some (priceOf Math_pow slot0) |})
                (fun _ => 0%float) pre rest a st Hpre Hnone) as (err & rws & Hrun & Hrows).
    exists (fun _ => 0%float), err, rws. split.
    + unfold rowLoop in Hrun. rewrite <- Haddresses in Hrun.
      unfold updateLoop, try_catch, bind at 1, await at 1. rewrite Hslot.
      unfold bind at 1, await at 1. rewrite Hliq.
      unfold bind at 1, getState. rewrite Hzero.
      unfold bind at 1. unfold priceOf in Hrun. rewrite Hrun.
      unfold emit. simpl. reflexivity.
    + eapply Forall2_rows_address; [|exact Hrows]. intros addr row [avg ->]. reflexivity.
  - destruct (rowLoop_missing
                (fun addr avg =>
                   {| rec_timestamp := env_now env;
                      rec_address := addr;
                      rec_activeLiquidity :=
                        JS.getProperty (activeLiquidityByAddress addresses st (tick slot0)) addr;
                      rec_percentage := shareOf addresses st (tick slot0) poolLiquidity addr;
                      rec_rollingAvg := avg;
                      rec_currentTick := Some (tick slot0);
                      rec_currentPrice := Some (priceOf Math_pow slot0) |})
                (shareOf addresses st (tick slot0) poolLiquidity) pre rest a st Hpre Hnone)
      as (err & rws & Hrun & Hrows).
    exists (shareOf addresses st (tick slot0) poolLiquidity), err, rws. split.
    + unfold rowLoop in Hrun. rewrite <- Haddresses in Hrun.
      unfold updateLoop, try_catch, bind at 1, await at 1. rewrite Hslot.
      unfold bind at 1, await at 1. rewrite Hliq.
      unfold bind at 1, getState. rewrite Hzero.
      unfold priceOf, shareOf in Hrun. rewrite Hrun.
      unfold emit. simpl. reflexivity.
    + eapply Forall2_rows_address; [|exact Hrows]. intros addr row [avg ->]. reflexivity.
Qed.


(** [updateLoop] in any state and for any answers: it returns normally, and
    the state it leaves is the one it found with some addresses of the roster
    pushed once more. *)
Lemma updateLoop_outcome (env : CycleEnv) (st : State) :
  exists v l out,
    updateLoop addresses Math_pow env st =
    (Ok tt,
     {| positionsByAddress := positionsByAddress st;
        rollingData := pushEach v l (rollingData st) |},
     out)
    /\ (forall a, a ∈ l -> a ∈ addresses)
    /\ map rec_address (rows out) = l
    /\ Forall (fun e => isQuery e = false) out.
Proof.
  destruct (sampling env) as [[slot0 poolLiquidity]|err] eqn:Hsampling.
  - apply sampling_Ok in Hsampling as [Hslot Hliq].
    destruct (hasStores_or_missing addresses st)
      as [Hst|(pre & a & rest & Haddresses & Hpre & Hnone)].
    + destruct (JS.strictEq (JS.Number poolLiquidity) 0) eqn:Hzero.
      * destruct (updateLoop_zero_run addresses Math_pow env st slot0 poolLiquidity
                    Hslot Hliq Hzero Hst) as (rws & Hrun & Hrows).
        eexists _, addresses, _. split; [exact Hrun|]. split; [auto|]. split.
        -- rewrite rows_app, rows_LogAndSave. simpl. rewrite app_nil_r.
           eapply Forall2_rows_address; [|exact Hrows]. intros addr row [avg ->]. reflexivity.
        -- apply Forall_app. split; [apply noQuery_rows|repeat constructor].
      * destruct (updateLoop_share_run addresses Math_pow env st slot0 poolLiquidity
                    Hslot Hliq Hzero Hst) as (rws & Hrun & Hrows).
        eexists _, addresses, _. split; [exact Hrun|]. split; [auto|]. split.
        -- rewrite rows_LogAndSave.
           eapply Forall2_rows_address; [|exact Hrows]. intros addr row [avg ->]. reflexivity.
        -- apply noQuery_rows.
    + destruct (updateLoop_missing env st slot0 poolLiquidity pre rest a
                  Hslot Hliq Haddresses Hpre Hnone) as (v & err & rws & Hrun & Hrows).
      exists v, pre, (map LogAndSave rws ++ [ConsoleError ("Error in updateLoop: " +:+ err)]).
      split; [exact Hrun|]. split.
      { intros b Hb. rewrite Haddresses. apply elem_of_app. auto. }
      split.
      * rewrite rows_app, rows_LogAndSave. simpl. rewrite app_nil_r. exact Hrows.
      * apply Forall_app. split; [apply noQuery_rows|repeat constructor].
  - destruct (updateLoop_sampling_failed addresses Math_pow env st) as [err' Hrun].
    { apply sampling_Throw in Hsampling as [Hslot|(slot0 & Hslot & Hliq)]; eauto. }
    exists (fun _ => 0%float), [], [ConsoleError ("Error in updateLoop: " +:+ err')].
    split; [rewrite Hrun; destruct st; reflexivity|].
    split; [intros a Ha; inversion Ha|]. split; [reflexivity|repeat constructor].
Qed.

End CycleOutcome.

(** X6: [updateLoop] never throws, in any state and whatever the pool
    answers; it never changes the cached positions, never creates or removes
    a store, leaves the windows of addresses outside the roster alone and
    sends no query to the registry. *)
Theorem updateLoop_never_throws
    (addresses : list string) (Math_pow : float -> float -> float)
    (env : CycleEnv) (st : State) :
  exists st' out,
    updateLoop addresses Math_pow env st = (Ok tt, st', out)
    /\ positionsByAddress st' = positionsByAddress st
    /\ (forall addr, is_Some (rollingData st' !! addr) <-> is_Some (rollingData st !! addr))
    /\ (forall addr, addr ∉ addresses -> rollingData st' !! addr = rollingData st !! addr)
    /\ Forall (fun e => isQuery e = false) out.
Proof.
  destruct (updateLoop_outcome addresses Math_pow env st)
    as (v & l & out & Hrun & Hincl & _ & Hquery).
  eexists _, out. split; [exact Hrun|]. split; [reflexivity|]. split; [|split].
  - intros addr. simpl. apply pushEach_dom.
  - intros addr Hnotin. simpl. apply (pushEach_incl_not_in v l addresses); assumption.
  - exact Hquery.
Qed.

Lemma updateLoop_never_throws_witness :
  exists st' out,
    updateLoop [exampleAddress] examplePow envFailed twoAddressState = (Ok tt, st', out)
    /\ rollingData st' !! secondAddress = rollingData twoAddressState !! secondAddress.
Proof.
  destruct (updateLoop_never_throws [exampleAddress] examplePow envFailed twoAddressState)
    as (st' & out & Hrun & _ & _ & Hother & _).
  exists st', out. split; [exact Hrun|]. apply Hother.
  apply (bool_decide_unpack _). vm_compute. exact I.
Defined.

(** ** Startup *)

Lemma loadState_lookup_not_in (positionManager : PositionManager) (l : list string)
    (st : State) (addr : string) :
  addr ∉ l ->
  positionsByAddress (loadState positionManager l st) !! addr = positionsByAddress st !! addr
  /\ rollingData (loadState positionManager l st) !! addr = rollingData st !! addr.
Proof.
  revert st. induction l as [|b l IH]; intros st Hnotin; [auto|].
  apply not_elem_of_cons in Hnotin as [Hne Hnotin].
  change (loadState positionManager (b :: l) st) with
    (loadState positionManager l
       {| positionsByAddress :=
            <[b := fetchedPositions positionManager b]> (positionsByAddress st);
          rollingData := <[b := []]> (rollingData st) |}).
  edestruct IH as [-> ->]; [exact Hnotin|]. simpl.
  rewrite !lookup_insert_ne by congruence. auto.
Qed.

Lemma loadState_lookup_in (positionManager : PositionManager) (l : list string)
    (st : State) (addr : string) :
  addr ∈ l ->
  positionsByAddress (loadState positionManager l st) !! addr
    = Some (fetchedPositions positionManager addr)
  /\ rollingData (loadState positionManager l st) !! addr = Some [].
Proof.
  revert st. induction l as [|a l IH]; intros st Hin; [inversion Hin|].
  change (loadState positionManager (a :: l) st) with
    (loadState positionManager l
       {| positionsByAddress :=
            <[a := fetchedPositions positionManager a]> (positionsByAddress st);
          rollingData := <[a := []]> (rollingData st) |}).
  destruct (decide (addr ∈ l)) as [Hl|Hl]; [apply IH; exact Hl|].
  apply elem_of_cons in Hin as [->|Hin]; [|contradiction].
  edestruct loadState_lookup_not_in as [-> ->]; [exact Hl|]. simpl.
  rewrite !lookup_insert_eq. auto.
Qed.

(** X8: [loadAllPositions] never throws. For every roster address it caches
    exactly the list [fetchPositionsForAddress] returns for it (every cached
    position passes the filter) and resets the window to empty, whatever the
    state held before; entries of other addresses are untouched, and the
    registry is not queried. *)
Theorem loadAllPositions_caches_fetched
    (addresses : list string) (positionManager : PositionManager) (st : State) :
  exists st' out,
    loadAllPositions addresses positionManager st = (Ok tt, st', out)
    /\ (forall addr, addr ∈ addresses ->
          rollingData st' !! addr = Some []
          /\ exists cached,
               positionsByAddress st' !! addr = Some cached
               /\ Forall (fun pos => isTargetPosition pos = true) cached
               /\ forall s, exists log,
                    fetchPositionsForAddress positionManager addr s = (Ok cached, s, log))
    /\ (forall addr, addr ∉ addresses ->
          rollingData st' !! addr = rollingData st !! addr
          /\ positionsByAddress st' !! addr = positionsByAddress st !! addr)
    /\ Forall (fun e => isQuery e = false) out.
Proof.
  destruct (loadAllPositions_run addresses positionManager st) as (out & Hrun & Hout).
  eexists _, out. split; [exact Hrun|]. split; [|split; [|exact Hout]].
  - intros addr Hin.
    destruct (loadState_lookup_in positionManager addresses st addr Hin) as [Hpos Hwin].
    split; [exact Hwin|]. exists (fetchedPositions positionManager addr).
    split; [exact Hpos|]. unfold fetchedPositions. split.
    + destruct (readPositions positionManager addr); [apply filterTarget_all|constructor].
    + intros s. rewrite fetchPositionsForAddress_run.
      destruct (readPositions positionManager addr); eauto.
  - intros addr Hnotin.
    destruct (loadState_lookup_not_in positionManager addresses st addr Hnotin) as [Hpos Hwin].
    auto.
Qed.

Lemma loadAllPositions_caches_fetched_witness :
  exists st' out,
    loadAllPositions [exampleAddress] scenarioManager twoAddressState = (Ok tt, st', out)
    /\ rollingData st' !! exampleAddress = Some []
    /\ rollingData st' !! secondAddress = rollingData twoAddressState !! secondAddress.
Proof.
  destruct (loadAllPositions_caches_fetched [exampleAddress] scenarioManager twoAddressState)
    as (st' & out & Hrun & Hin & Hout & _).
  exists st', out. split; [exact Hrun|]. split.
  - apply Hin. apply (bool_decide_unpack _). vm_compute. exact I.
  - apply Hout. apply (bool_decide_unpack _). vm_compute. exact I.
Defined.

Lemma string_order (usdc other : string) :
  String.leb (if String.ltb usdc other then usdc else other)
             (if String.ltb usdc other then other else usdc) = true.
Proof.
  unfold String.ltb, String.leb.
  destruct (String.compare usdc other) eqn:Hcmp; try reflexivity.
  - rewrite String.compare_antisym, Hcmp. reflexivity.
  - rewrite Hcmp. reflexivity.
  - rewrite String.compare_antisym, Hcmp. reflexivity.
Qed.

(** X9: when some position is cached and both addresses pass the checksum,
    pool resolution sends exactly one query, for the two checksummed token
    addresses in ascending string order and the configured fee, and does not
    touch the state. It returns the answer when that is a non-empty address
    other than the zero address, throws [Target pool not found.] when it is
    not, and passes on a rejection of the query. *)
Theorem getTargetPoolAddress_query
    (addresses : list string) (ethers_getAddress : string -> result string)
    (factory : string -> string -> float -> result string) (st : State)
    (usdc other : string) :
  totalPositions addresses st <> 0%nat ->
  toChecksumAddress ethers_getAddress USDC_ADDRESS = Ok usdc ->
  toChecksumAddress ethers_getAddress OTHER_TOKEN = Ok other ->
  exists tokenA tokenB tail,
    getTargetPoolAddress addresses ethers_getAddress factory st
    = (match factory tokenA tokenB FEE with
       | Ok poolAddress =>
           if String.eqb poolAddress "" || String.eqb poolAddress ZERO_ADDRESS
           then Throw "Target pool not found."
           else Ok (Some poolAddress)
       | Throw err => Throw err
       end,
       st, FactoryGetPool tokenA tokenB FEE :: tail)
    /\ ((tokenA = usdc /\ tokenB = other) \/ (tokenA = other /\ tokenB = usdc))
    /\ String.leb tokenA tokenB = true
    /\ Forall (fun e => isQuery e = false) tail.
Proof.
  intros Htotal Husdc Hother.
  exists (if String.ltb usdc other then usdc else other),
         (if String.ltb usdc other then other else usdc).
  unfold getTargetPoolAddress, bind at 1, getState.
  destruct (Nat.eqb_spec (totalPositions addresses st) 0) as [|_]; [contradiction|].
  unfold getPool. unfold bind, await, emit, throw, ret. rewrite Husdc, Hother.
  destruct (factory _ _ FEE) as [poolAddress|err].
  - destruct (String.eqb poolAddress "" || String.eqb poolAddress ZERO_ADDRESS);
      eexists; (split; [reflexivity|]);
      (split; [destruct (String.ltb usdc other); auto|]);
      (split; [apply string_order|repeat constructor]).
  - eexists. split; [reflexivity|].
    split; [destruct (String.ltb usdc other); auto|].
    split; [apply string_order|repeat constructor].
Qed.

Lemma getTargetPoolAddress_query_witness :
  exists tokenA tokenB tail,
    getTargetPoolAddress [exampleAddress] exampleGetAddress exampleFactory exampleState
    = (Ok (Some examplePool), exampleState, FactoryGetPool tokenA tokenB FEE :: tail)
    /\ String.leb tokenA tokenB = true.
Proof.
  destruct (getTargetPoolAddress_query [exampleAddress] exampleGetAddress exampleFactory
              exampleState (JS.toLowerCase USDC_ADDRESS) (JS.toLowerCase OTHER_TOKEN))
    as (tokenA & tokenB & tail & Hrun & _ & Horder & _).
  - vm_compute. discriminate.
  - reflexivity.
  - reflexivity.
  - exists tokenA, tokenB, tail. split; [exact Hrun|exact Horder].
Defined.

Lemma queries_app (out1 out2 : list Event) :
  queries (out1 ++ out2) = (queries out1 + queries out2)%nat.
Proof. unfold queries. rewrite List.filter_app, length_app. reflexivity. Qed.

Lemma queries_none (out : list Event) :
  Forall (fun e => isQuery e = false) out -> queries out = 0%nat.
Proof.
  unfold queries. induction 1 as [|e out He _ IH]; [reflexivity|].
  simpl. rewrite He. exact IH.
Qed.

(** Pool resolution inside the [try] of [main], with what it leaves in the
    trace. *)
Lemma resolution_outcome (addresses : list string)
    (ethers_getAddress : string -> result string)
    (factory : string -> string -> float -> result string) (st : State) :
  exists poolAddress out,
    try_catch (getTargetPoolAddress addresses ethers_getAddress factory)
      (fun err => emit (ConsoleError ("Warning: " +:+ err)) ;; ret None) st
    = (Ok poolAddress, st, out)
    /\ (queries out <= 1)%nat
    /\ (forall a, poolAddress = Some a ->
          a <> "" /\ a <> ZERO_ADDRESS
          /\ exists tokenA tokenB,
               In (FactoryGetPool tokenA tokenB FEE) out
               /\ factory tokenA tokenB FEE = Ok a).
Proof.
  unfold try_catch, getTargetPoolAddress, bind at 1, getState.
  destruct (totalPositions addresses st =? 0)%nat.
  { eexists _, _. split; [reflexivity|]. split; [vm_compute; lia|]. discriminate. }
  unfold getPool. unfold bind, await, emit, throw, ret.
  destruct (toChecksumAddress ethers_getAddress USDC_ADDRESS) as [usdc|].
  2: { eexists _, _. split; [reflexivity|]. split; [vm_compute; lia|]. discriminate. }
  destruct (toChecksumAddress ethers_getAddress OTHER_TOKEN) as [other|].
  2: { eexists _, _. split; [reflexivity|]. split; [vm_compute; lia|]. discriminate. }
  destruct (factory _ _ FEE) as [poolAddress|err] eqn:Hfactory.
  2: { eexists _, _. split; [reflexivity|]. split; [vm_compute; lia|]. discriminate. }
  destruct (String.eqb_spec poolAddress "") as [Hempty|Hempty]; simpl.
  { eexists _, _. split; [reflexivity|]. split; [vm_compute; lia|]. discriminate. }
  destruct (String.eqb_spec poolAddress ZERO_ADDRESS) as [Hzero|Hzero].
  { eexists _, _. split; [reflexivity|]. split; [vm_compute; lia|]. discriminate. }
  eexists _, _. split; [reflexivity|]. split; [vm_compute; lia|].
  intros a [= <-]. split; [exact Hempty|]. split; [exact Hzero|].
  eexists _, _. split; [left; reflexivity|exact Hfactory].
Qed.

(** X10: startup is never fatal. Whatever the position manager, the
    checksum function and the registry answer, [startup] returns a mode and
    queries the registry at most once. The mode is active only for an
    address the registry answered, non-empty and other than the zero address;
    in every other case (no positions, a rejected checksum, a rejected query,
    no pool) it is the degraded mode. *)
Theorem startup_never_fatal
    (addresses : list string) (ethers_getAddress : string -> result string)
    (positionManager : PositionManager)
    (factory : string -> string -> float -> result string) (st : State) :
  exists mode out,
    startup addresses ethers_getAddress positionManager factory st
    = (Ok mode, (loadAllPositions addresses positionManager st).1.2, out)
    /\ (queries out <= 1)%nat
    /\ (forall poolAddress, mode = ActiveMode poolAddress ->
          poolAddress <> "" /\ poolAddress <> ZERO_ADDRESS
          /\ exists tokenA tokenB,
               In (FactoryGetPool tokenA tokenB FEE) out
               /\ factory tokenA tokenB FEE = Ok poolAddress)
    /\ (mode = DegradedMode ->
        last out = Some (ConsoleLog
          "No valid pool address found; running update loop with zeros only.")).
Proof.
  destruct (loadAllPositions_run addresses positionManager st) as (out1 & Hload & Hout1).
  destruct (resolution_outcome addresses ethers_getAddress factory
              (loadState positionManager addresses st))
    as (poolAddress & out2 & Hresolve & Hqueries & Hpool).
  unfold startup, bind at 1. rewrite Hload. unfold bind at 1. rewrite Hresolve.
  cbn [fst snd].
  destruct poolAddress as [a|].
  - destruct (Hpool a eq_refl) as (Hempty & Hzero & tokenA & tokenB & Hin & Hfactory).
    unfold falsy. destruct (String.eqb_spec a "") as [|_]; [contradiction|].
    unfold bind, emit, ret. eexists _, _. split; [reflexivity|]. split; [|split].
    + rewrite !queries_app, (queries_none out1 Hout1). simpl. unfold queries at 2. simpl. lia.
    + intros p [= <-]. split; [exact Hempty|]. split; [exact Hzero|].
      exists tokenA, tokenB. split; [|exact Hfactory].
      apply in_or_app. right. apply in_or_app. left. exact Hin.
    + discriminate.
  - unfold falsy, bind, emit, ret. eexists _, _. split; [reflexivity|]. split; [|split].
    + rewrite !queries_app, (queries_none out1 Hout1). simpl. unfold queries at 2. simpl. lia.
    + discriminate.
    + intros _. rewrite app_assoc. apply last_snoc.
Qed.

Lemma startup_never_fatal_witness :
  exists out,
    startup [exampleAddress] exampleGetAddress scenarioManager emptyFactory emptyState
    = (Ok DegradedMode,
       (loadAllPositions [exampleAddress] scenarioManager emptyState).1.2, out)
    /\ (queries out <= 1)%nat
    /\ last out = Some (ConsoleLog
          "No valid pool address found; running update loop with zeros only.").
Proof.
  destruct (startup_never_fatal [exampleAddress] exampleGetAddress scenarioManager
              emptyFactory emptyState) as (mode & out & Hstartup & Hqueries & _ & Hdegraded).
  assert (mode = DegradedMode) as ->.
  { assert ((startup [exampleAddress] exampleGetAddress scenarioManager emptyFactory
               emptyState).1.1 = Ok DegradedMode) as Hmode by (vm_compute; reflexivity).
    rewrite Hstartup in Hmode. simpl in Hmode. congruence. }
  exists out. split; [exact Hstartup|]. split; [exact Hqueries|]. apply Hdegraded. reflexivity.
Defined.

(** ** The window during warm-up *)

(** X11: while at most 72 values have been pushed the window holds all of
    them, in order; in general it holds [min n 72] values after [n] pushes;
    and a push never leaves a window empty, so the rolling average never
    divides by a count of zero. *)
Theorem window_warm_up (pushed : list float) :
  ((length pushed <= 72)%nat -> pushAll [] pushed = pushed)
  /\ length (pushAll [] pushed) = Nat.min (length pushed) 72
  /\ forall values v, pushWindow values v <> [].
Proof.
  split; [|split].
  - intros Hlen. rewrite pushAll_drop by (simpl; lia). simpl.
    replace (length pushed - WINDOW_SIZE)%nat with 0%nat by (unfold WINDOW_SIZE; lia).
    reflexivity.
  - rewrite pushAll_drop by (simpl; lia). simpl. rewrite length_drop.
    unfold WINDOW_SIZE. lia.
  - intros values v Hempty. pose proof (pushWindow_last values v) as Hlast.
    rewrite Hempty in Hlast. discriminate.
Qed.

Lemma window_warm_up_witness :
  pushAll [] (take 72 scenarioD) = take 72 scenarioD.
Proof.
  apply (window_warm_up (take 72 scenarioD)). vm_compute. lia.
Defined.

(** ** Rows and windows *)

Section RowLoopExact.

Variable mk : string -> float -> TimeSeriesRecord.
Variable v : string -> float.

(** On a roster without repetition every address is pushed once, from the
    window the cycle found. *)
Lemma rowLoop_run_NoDup (l : list string) (st : State) :
  NoDup l -> hasStores l st ->
  rowLoop mk v l st =
  (Ok tt,
   {| positionsByAddress := positionsByAddress st;
      rollingData := pushEach v l (rollingData st) |},
   map LogAndSave
     (map (fun addr =>
             mk addr (rollingAvg (pushWindow (default [] (rollingData st !! addr)) (v addr))))
        l))
  /\ forall addr, addr ∈ l ->
       pushEach v l (rollingData st) !! addr
       = Some (pushWindow (default [] (rollingData st !! addr)) (v addr)).
Proof.
  intros Hnodup. revert st. induction Hnodup as [|addr l Hnotin _ IH]; intros st Hst.
  - split; [destruct st; reflexivity|]. intros addr Hin. inversion Hin.
  - apply Forall_cons in Hst as [[values Hvalues] Hrest].
    set (st1 := {| positionsByAddress := positionsByAddress st;
                   rollingData := <[addr := pushWindow values (v addr)]> (rollingData st) |}).
    assert (forall a, a ∈ l -> rollingData st1 !! a = rollingData st !! a) as Hsame.
    { intros a Ha. simpl. apply lookup_insert_ne. intros ->. contradiction. }
    assert (hasStores l st1) as Hst1.
    { unfold hasStores in *. apply Forall_forall. intros a Ha.
      rewrite Hsame by assumption. rewrite Forall_forall in Hrest. auto. }
    destruct (IH st1 Hst1) as [Hrun Hlookup]. split.
    + unfold rowLoop in *. simpl. unfold bind at 1. unfold bind at 1.
      rewrite (updateStore_run _ _ _ _ Hvalues). unfold emit at 1.
      fold st1. rewrite Hrun. simpl. rewrite Hvalues. simpl.
      do 3 f_equal. apply map_ext_Forall, Forall_forall. intros a Ha.
      rewrite <- Hsame by assumption. reflexivity.
    + intros a Ha. simpl. rewrite Hvalues. fold (pushEach v l (rollingData st1)).
      apply elem_of_cons in Ha as [->|Ha].
      * rewrite pushEach_not_in by assumption. simpl. rewrite Hvalues. simpl.
        apply lookup_insert_eq.
      * change (<[addr:=pushWindow values (v addr)]> (rollingData st)) with (rollingData st1).
        rewrite Hlookup, Hsame by assumption. reflexivity.
Qed.

End RowLoopExact.

Section CycleAsRowLoop.

Variable addresses : list string.
Variable Math_pow : float -> float -> float.

(** A sampled cycle is one of the two row loops, followed by the console
    line of the zero branch or by the error line of the [catch]. *)
Lemma updateLoop_sampled_eq (env : CycleEnv) (st : State) (slot0 : Slot0)
    (poolLiquidity : Z) :
  env_slot0 env = Ok slot0 -> env_liquidity env = Ok poolLiquidity ->
  updateLoop addresses Math_pow env st =
  if JS.strictEq (JS.Number poolLiquidity) 0 then
    match rowLoop (zeroRow Math_pow env slot0) (fun _ => 0%float) addresses st with
    | (Ok _, st', out) =>
        (Ok tt, st', out ++ [ConsoleLog "No active liquidity in pool at the current tick."])
    | (Throw err, st', out) =>
        (Ok tt, st', out ++ [ConsoleError ("Error in updateLoop: " +:+ err)])
    end
  else
    match rowLoop (shareRow addresses Math_pow env slot0 poolLiquidity st)
            (shareOf addresses st (tick slot0) poolLiquidity) addresses st with
    | (Ok _, st', out) => (Ok tt, st', out)
    | (Throw err, st', out) =>
        (Ok tt, st', out ++ [ConsoleError ("Error in updateLoop: " +:+ err)])
    end.
Proof.
  intros Hslot Hliq.
  unfold updateLoop, try_catch, bind at 1, await at 1. rewrite Hslot.
  unfold bind at 1, await at 1. rewrite Hliq.
  unfold bind at 1, getState.
  destruct (JS.strictEq (JS.Number poolLiquidity) 0).
  - unfold bind at 1.
    change (for_of addresses _) with
      (rowLoop (zeroRow Math_pow env slot0) (fun _ => 0%float) addresses).
    destruct (rowLoop _ _ addresses st) as [[[[]|err] st'] out]; unfold emit; simpl;
      rewrite ?app_nil_r; reflexivity.
  - change (for_of addresses _) with
      (rowLoop (shareRow addresses Math_pow env slot0 poolLiquidity st)
         (shareOf addresses st (tick slot0) poolLiquidity) addresses).
    destruct (rowLoop _ _ addresses st) as [[[[]|err] st'] out]; unfold emit; simpl;
      rewrite ?app_nil_r; reflexivity.
Qed.

Lemma updateLoopNoPool_eq (env : CycleEnv) (st : State) :
  updateLoopNoPool addresses env st =
  match rowLoop (noPoolRow env) (fun _ => 0%float) addresses st with
  | (Ok _, st', out) =>
      (Ok tt, st', out ++ [ConsoleLog "Logged zeros for all addresses (no pool)."])
  | (Throw err, st', out) => (Throw err, st', out)
  end.
Proof.
  unfold updateLoopNoPool, bind at 1.
  change (for_of addresses _) with (rowLoop (noPoolRow env) (fun _ => 0%float) addresses).
  destruct (rowLoop _ _ addresses st) as [[[[]|err] st'] out]; unfold emit; reflexivity.
Qed.

End CycleAsRowLoop.

(** ** A cycle that meets an address without a store *)

Lemma pushEach_occurrences (v : string -> float) (l : list string)
    (rd : gmap string (list float)) (addr : string) :
  hasStores l {| positionsByAddress := ∅; rollingData := rd |} ->
  pushEach v l rd !! addr
  = (fun values => pushAll values (replicate (occurrences addr l) (v addr))) <$> rd !! addr.
Proof.
  unfold hasStores. simpl. revert rd. induction l as [|a l IH]; intros rd Hst.
  - simpl. destruct (rd !! addr); reflexivity.
  - apply Forall_cons in Hst as [[values Hvalues] Hrest].
    simpl. rewrite Hvalues. rewrite IH.
    + unfold occurrences. simpl.
      destruct (String.eqb_spec addr a) as [->|Hne].
      * rewrite lookup_insert_eq, Hvalues. reflexivity.
      * rewrite lookup_insert_ne by congruence. reflexivity.
    + eapply Forall_impl; [exact Hrest|]. intros b Hb.
      destruct (decide (a = b)) as [->|Hne].
      * rewrite lookup_insert_eq. eauto.
      * rewrite lookup_insert_ne by assumption. exact Hb.
Qed.

Section MissingStore.

Variable addresses : list string.
Variable Math_pow : float -> float -> float.




End MissingStore.





Section RowLoopShape.

Variable mk : string -> float -> TimeSeriesRecord.
Variable v : string -> float.

(** In any state a row loop emits rows only, each built by [mk]. *)
Lemma rowLoop_rows_shape (l : list string) (st : State) :
  exists r st' rws,
    rowLoop mk v l st = (r, st', map LogAndSave rws)
    /\ Forall (fun row => exists addr avg, row = mk addr avg) rws.
Proof.
  destruct (hasStores_or_missing l st) as [Hst|(pre & a & rest & -> & Hpre & Hnone)].
  - destruct (rowLoop_run mk v l st Hst) as (rws & Hrun & Hrows).
    eexists _, _, rws. split; [exact Hrun|].
    eapply Forall2_rows_all; [|exact Hrows]. intros addr row [avg ->]. eauto.
  - destruct (rowLoop_missing mk v pre rest a st Hpre Hnone) as (err & rws & Hrun & Hrows).
    eexists _, _, rws. split; [exact Hrun|].
    eapply Forall2_rows_all; [|exact Hrows]. intros addr row [avg ->]. eauto.
Qed.

Hypothesis mk_address : forall addr avg, rec_address (mk addr avg) = addr.
Hypothesis mk_percentage : forall addr avg, rec_percentage (mk addr avg) = v addr.
Hypothesis mk_rollingAvg : forall addr avg, rec_rollingAvg (mk addr avg) = avg.

Lemma rowLoop_agrees (l : list string) (st : State) :
  NoDup l -> hasStores l st ->
  exists st' rws,
    rowLoop mk v l st = (Ok tt, st', map LogAndSave rws)
    /\ map rec_address rws = l
    /\ Forall (rowAgrees st st') rws.
Proof.
  intros Hnodup Hst.
  destruct (rowLoop_run_NoDup mk v l st Hnodup Hst) as [Hrun Hlookup].
  eexists _, _. split; [exact Hrun|]. split.
  - rewrite map_map. transitivity (map (fun addr : string => addr) l); [|apply map_id].
    apply map_ext. intros addr. apply mk_address.
  - apply Forall_map, Forall_forall. intros addr Hin.
    unfold hasStores in Hst. rewrite Forall_forall in Hst.
    destruct (Hst addr Hin) as [old Hold].
    exists old. rewrite mk_address, mk_percentage, mk_rollingAvg. simpl.
    rewrite (Hlookup addr Hin), Hold. auto.
Qed.

End RowLoopShape.

(** X12: on a roster without repeated addresses, a cycle that emits rows
    pushes exactly one value into the window of each address, the percentage
    of that address's row, and the rolling average of the row is the average
    of the window as stored after the cycle. *)
Theorem rows_agree_with_windows
    (addresses : list string) (Math_pow : float -> float -> float)
    (mode : Mode) (env : CycleEnv) (st : State) :
  NoDup addresses -> hasStores addresses st -> emitsRows mode env = true ->
  exists st' out,
    cycle addresses Math_pow mode env st = (Ok tt, st', out)
    /\ map rec_address (rows out) = addresses
    /\ Forall (rowAgrees st st') (rows out).
Proof.
  intros Hnodup Hst Hemits. destruct mode as [poolAddress|]; simpl in *.
  - destruct (sampling env) as [[slot0 poolLiquidity]|] eqn:Hsampling; [|discriminate].
    apply sampling_Ok in Hsampling as [Hslot Hliq].
    rewrite (updateLoop_sampled_eq addresses Math_pow env st slot0 poolLiquidity Hslot Hliq).
    destruct (JS.strictEq (JS.Number poolLiquidity) 0).
    + destruct (rowLoop_agrees (zeroRow Math_pow env slot0) (fun _ => 0%float))
        with (l := addresses) (st := st) as (st' & rws & -> & Haddr & Hagree); auto.
      eexists _, _. split; [reflexivity|].
      rewrite rows_app, rows_LogAndSave. simpl. rewrite app_nil_r. auto.
    + destruct (rowLoop_agrees (shareRow addresses Math_pow env slot0 poolLiquidity st)
                  (shareOf addresses st (tick slot0) poolLiquidity))
        with (l := addresses) (st := st) as (st' & rws & -> & Haddr & Hagree); auto.
      eexists _, _. split; [reflexivity|]. rewrite rows_LogAndSave. auto.
  - rewrite updateLoopNoPool_eq.
    destruct (rowLoop_agrees (noPoolRow env) (fun _ => 0%float))
      with (l := addresses) (st := st) as (st' & rws & -> & Haddr & Hagree); auto.
    eexists _, _. split; [reflexivity|].
    rewrite rows_app, rows_LogAndSave. simpl. rewrite app_nil_r. auto.
Qed.

Lemma rows_agree_with_windows_witness :
  exists st' out,
    cycle [exampleAddress; secondAddress] examplePow (ActiveMode examplePool)
      (envSampled 1000) twoAddressState = (Ok tt, st', out)
    /\ map rec_address (rows out) = [exampleAddress; secondAddress]
    /\ Forall (rowAgrees twoAddressState st') (rows out).
Proof.
  apply rows_agree_with_windows.
  - apply (bool_decide_unpack _). vm_compute. exact I.
  - stores_present.
  - reflexivity.
Defined.

(** X13: every row of a cycle carries the cycle's one timestamp; the rows of
    a cycle with a pool all carry the tick and the price of the one sample,
    and the rows of a cycle without a pool carry [N/A] for both. This holds
    in every state, also for the rows emitted before an error. *)
Theorem rows_share_the_sample
    (addresses : list string) (Math_pow : float -> float -> float)
    (mode : Mode) (env : CycleEnv) (st : State) :
  Forall
    (fun row =>
       rec_timestamp row = env_now env
       /\ match mode with
          | ActiveMode _ =>
              exists slot0, env_slot0 env = Ok slot0
                            /\ rec_currentTick row = Some (tick slot0)
                            /\ rec_currentPrice row = Some (priceOf Math_pow slot0)
          | DegradedMode => rec_currentTick row = None /\ rec_currentPrice row = None
          end)
    (rows (cycle addresses Math_pow mode env st).2).
Proof.
  destruct mode as [poolAddress|]; simpl.
  - destruct (sampling env) as [[slot0 poolLiquidity]|err] eqn:Hsampling.
    + apply sampling_Ok in Hsampling as [Hslot Hliq].
      rewrite (updateLoop_sampled_eq addresses Math_pow env st slot0 poolLiquidity Hslot Hliq).
      destruct (JS.strictEq (JS.Number poolLiquidity) 0).
      * destruct (rowLoop_rows_shape (zeroRow Math_pow env slot0) (fun _ => 0%float)
                    addresses st) as (r & st' & rws & -> & Hshape).
        assert (Forall (fun row => rec_timestamp row = env_now env
                  /\ exists s, env_slot0 env = Ok s /\ rec_currentTick row = Some (tick s)
                               /\ rec_currentPrice row = Some (priceOf Math_pow s)) rws) as Hrows.
        { eapply Forall_impl; [exact Hshape|]. intros row (addr & avg & ->). simpl. eauto. }
        destruct r; simpl; rewrite rows_app, rows_LogAndSave, app_nil_r; exact Hrows.
      * destruct (rowLoop_rows_shape (shareRow addresses Math_pow env slot0 poolLiquidity st)
                    (shareOf addresses st (tick slot0) poolLiquidity) addresses st)
          as (r & st' & rws & -> & Hshape).
        assert (Forall (fun row => rec_timestamp row = env_now env
                  /\ exists s, env_slot0 env = Ok s /\ rec_currentTick row = Some (tick s)
                               /\ rec_currentPrice row = Some (priceOf Math_pow s)) rws) as Hrows.
        { eapply Forall_impl; [exact Hshape|]. intros row (addr & avg & ->). simpl. eauto. }
        destruct r; simpl; rewrite ?rows_app, rows_LogAndSave, ?app_nil_r; exact Hrows.
    + destruct (updateLoop_sampling_failed addresses Math_pow env st) as [err' ->].
      { apply sampling_Throw in Hsampling as [Hslot|(slot0 & Hslot & Hliq)]; eauto. }
      constructor.
  - rewrite updateLoopNoPool_eq.
    destruct (rowLoop_rows_shape (noPoolRow env) (fun _ => 0%float) addresses st)
      as (r & st' & rws & -> & Hshape).
    assert (Forall (fun row => rec_timestamp row = env_now env
              /\ rec_currentTick row = None /\ rec_currentPrice row = None) rws) as Hrows.
    { eapply Forall_impl; [exact Hshape|]. intros row (addr & avg & ->). simpl. auto. }
    destruct r; simpl; rewrite ?rows_app, rows_LogAndSave, ?app_nil_r; exact Hrows.
Qed.

(** ** The share branch *)

Lemma Forall2_elem_of {A B} (R : A -> B -> Prop) (l : list A) (k : list B) :
  Forall2 R l k -> Forall2 (fun x y => x ∈ l /\ R x y) l k.
Proof.
  induction 1 as [|x y l k Hxy _ IH]; constructor.
  - split; [left|exact Hxy].
  - eapply Forall2_impl; [exact IH|]. intros a b [Ha Hab]. split; [right; exact Ha|exact Hab].
Qed.

Lemma activeLiquidityOf_inactive (positions : list Position) (currentTick : Z) :
  Forall (fun pos => isPositionActive pos currentTick = false) positions ->
  activeLiquidityOf positions currentTick = 0%float.
Proof.
  unfold activeLiquidityOf. induction 1 as [|pos positions Hpos _ IH]; [reflexivity|].
  simpl. rewrite Hpos. exact IH.
Qed.

(** A value that is not a Number makes the share NaN. *)
Lemma nan_share (y : float) : (nan / y * 100)%float = nan.
Proof.
  assert ((nan / y)%float = nan) as ->.
  { apply Prim2SF_inj. rewrite div_spec.
    change (Prim2SF nan) with S754_nan. reflexivity. }
  reflexivity.
Qed.

(** The row of the share branch for a roster entry. *)
Lemma shareRow_fields (addresses : list string) (Math_pow : float -> float -> float)
    (env : CycleEnv) (slot0 : Slot0) (poolLiquidity : Z) (st : State)
    (addr : string) (avg : float) :
  addr ∈ addresses ->
  let row := shareRow addresses Math_pow env slot0 poolLiquidity st addr avg in
  let sum := activeLiquidityOf (default [] (positionsByAddress st !! addr)) (tick slot0) in
  (addr <> "__proto__" ->
   rec_activeLiquidity row = JS.VNumber sum
   /\ rec_percentage row = (sum / JS.Number poolLiquidity * 100)%float)
  /\ (addr = "__proto__" ->
      rec_activeLiquidity row = JS.VInherited "__proto__"
      /\ rec_percentage row = nan).
Proof.
  intros Hin. cbn zeta. unfold shareOf. cbn [shareRow rec_activeLiquidity rec_percentage].
  unfold shareOf.
  rewrite (getProperty_activeLiquidityByAddress addresses st (tick slot0) addr Hin).
  split.
  - intros Hne. destruct (String.eqb_spec addr "__proto__") as [Heq|_]; [contradiction|].
    split; reflexivity.
  - intros ->. simpl. split; [reflexivity|apply nan_share].
Qed.

(** X14: for every positive pool liquidity, of any size, a sampled cycle
    takes the share branch: it logs no console line, and the row of each
    roster entry carries the sum of its cached active liquidity at the tick
    and, as percentage, that sum divided by the Number of the pool's
    liquidity, times 100. One entry is the exception: for the key
    [__proto__] the object [activeLiquidityByAddress] cannot hold the sum,
    the row carries the prototype object read back in its place, and the
    percentage is NaN. *)
Theorem positive_liquidity_share_rows
    (addresses : list string) (Math_pow : float -> float -> float)
    (env : CycleEnv) (st : State) (slot0 : Slot0) (poolLiquidity : Z) :
  env_slot0 env = Ok slot0 -> env_liquidity env = Ok poolLiquidity ->
  0 < poolLiquidity -> hasStores addresses st ->
  exists st' rws,
    updateLoop addresses Math_pow env st = (Ok tt, st', map LogAndSave rws)
    /\ Forall2
         (fun addr row =>
            rec_address row = addr
            /\ (addr <> "__proto__" ->
                rec_activeLiquidity row
                  = JS.VNumber
                      (activeLiquidityOf (default [] (positionsByAddress st !! addr))
                         (tick slot0))
                /\ rec_percentage row
                   = (activeLiquidityOf (default [] (positionsByAddress st !! addr))
                        (tick slot0)
                      / JS.Number poolLiquidity * 100)%float)
            /\ (addr = "__proto__" ->
                rec_activeLiquidity row = JS.VInherited "__proto__"
                /\ rec_percentage row = nan))
         addresses rws.
Proof.
  intros Hslot Hliq Hpositive Hst.
  assert (JS.strictEq (JS.Number poolLiquidity) 0 = false) as Hzero.
  { apply not_true_is_false. rewrite strictEq_Number_zero_iff by lia. lia. }
  destruct (updateLoop_share_run addresses Math_pow env st slot0 poolLiquidity
              Hslot Hliq Hzero Hst) as (rws & Hrun & Hrows).
  eexists _, rws. split; [exact Hrun|].
  apply Forall2_elem_of in Hrows. eapply Forall2_impl; [exact Hrows|].
  intros addr row [Hin [avg ->]]. split; [reflexivity|].
  exact (shareRow_fields addresses Math_pow env slot0 poolLiquidity st addr avg Hin).
Qed.

Lemma positive_liquidity_share_rows_witness :
  exists st' rws,
    updateLoop protoRoster examplePow (envAt 0 1000) protoState
      = (Ok tt, st', map LogAndSave rws)
    /\ Forall2
         (fun addr row =>
            rec_address row = addr
            /\ (addr <> "__proto__" ->
                rec_activeLiquidity row
                  = JS.VNumber
                      (activeLiquidityOf (default [] (positionsByAddress protoState !! addr)) 0)
                /\ rec_percentage row
                   = (activeLiquidityOf (default [] (positionsByAddress protoState !! addr)) 0
                      / JS.Number 1000 * 100)%float)
            /\ (addr = "__proto__" ->
                rec_activeLiquidity row = JS.VInherited "__proto__"
                /\ rec_percentage row = nan))
         protoRoster rws.
Proof.
  apply (positive_liquidity_share_rows protoRoster examplePow (envAt 0 1000)
           protoState {| sqrtPriceX96 := 2 ^ 96; tick := 0 |} 1000).
  - reflexivity.
  - reflexivity.
  - lia.
  - stores_present.
Defined.

(** X15: in a sampled cycle with positive pool liquidity, a roster entry
    none of whose cached positions is in range at the tick (in particular an
    entry without positions) gets a row with active liquidity 0 and
    percentage exactly 0, whatever the size of the pool's liquidity. The key
    [__proto__] is the exception: its row carries the prototype object and
    NaN, with or without positions in range. *)
Theorem inactive_address_logs_zero
    (addresses : list string) (Math_pow : float -> float -> float)
    (env : CycleEnv) (st : State) (slot0 : Slot0) (poolLiquidity : Z) :
  env_slot0 env = Ok slot0 -> env_liquidity env = Ok poolLiquidity ->
  0 < poolLiquidity -> hasStores addresses st ->
  exists st' rws,
    updateLoop addresses Math_pow env st = (Ok tt, st', map LogAndSave rws)
    /\ Forall2
         (fun addr row =>
            rec_address row = addr
            /\ (addr <> "__proto__" ->
                Forall (fun pos => isPositionActive pos (tick slot0) = false)
                  (default [] (positionsByAddress st !! addr)) ->
                rec_activeLiquidity row = 0%float /\ rec_percentage row = 0%float)
            /\ (addr = "__proto__" ->
                rec_activeLiquidity row = JS.VInherited "__proto__"
                /\ rec_percentage row = nan))
         addresses rws.
Proof.
  intros Hslot Hliq Hpositive Hst.
  assert (JS.strictEq (JS.Number poolLiquidity) 0 = false) as Hzero.
  { apply not_true_is_false. rewrite strictEq_Number_zero_iff by lia. lia. }
  destruct (updateLoop_share_run addresses Math_pow env st slot0 poolLiquidity
              Hslot Hliq Hzero Hst) as (rws & Hrun & Hrows).
  eexists _, rws. split; [exact Hrun|].
  apply Forall2_elem_of in Hrows. eapply Forall2_impl; [exact Hrows|].
  intros addr row [Hin [avg ->]]. split; [reflexivity|].
  destruct (shareRow_fields addresses Math_pow env slot0 poolLiquidity st addr avg Hin)
    as [Hnumber Hproto].
  split; [|exact Hproto].
  intros Hne Hinactive. destruct (Hnumber Hne) as [Hsum Hshare].
  rewrite (activeLiquidityOf_inactive _ _ Hinactive) in Hsum, Hshare.
  split; [exact Hsum|].
  etransitivity; [exact Hshare|]. apply zero_share. exact Hpositive.
Qed.

Lemma inactive_address_logs_zero_witness :
  exists st' rws,
    updateLoop protoRoster examplePow (envAt 100 (2 ^ 100)) protoState
      = (Ok tt, st', map LogAndSave rws)
    /\ Forall2
         (fun addr row =>
            rec_address row = addr
            /\ (addr <> "__proto__" ->
                Forall (fun pos => isPositionActive pos 100 = false)
                  (default [] (positionsByAddress protoState !! addr)) ->
                rec_activeLiquidity row = 0%float /\ rec_percentage row = 0%float)
            /\ (addr = "__proto__" ->
                rec_activeLiquidity row = JS.VInherited "__proto__"
                /\ rec_percentage row = nan))
         protoRoster rws.
Proof.
  apply (inactive_address_logs_zero protoRoster examplePow (envAt 100 (2 ^ 100))
           protoState {| sqrtPriceX96 := 2 ^ 96; tick := 100 |} (2 ^ 100)).
  - reflexivity.
  - reflexivity.
  - lia.
  - stores_present.
Defined.

(** ** Whole runs *)

Lemma cycle_summary (addresses : list string) (Math_pow : float -> float -> float)
    (mode : Mode) (env : CycleEnv) (st : State) :
  hasStores addresses st ->
  exists st' out,
    cycle addresses Math_pow mode env st = (Ok tt, st', out)
    /\ hasStores addresses st'
    /\ positionsByAddress st' = positionsByAddress st
    /\ queries out = 0%nat
    /\ map rec_address (rows out) = if emitsRows mode env then addresses else [].
Proof.
  intros Hst.
  assert (forall rws tail, Forall (fun e => isQuery e = false) tail ->
            queries (map LogAndSave rws ++ tail) = 0%nat) as Hqueries.
  { intros rws tail Htail. rewrite queries_app, (queries_none _ (noQuery_rows rws)).
    apply queries_none. exact Htail. }
  assert (forall rws tail (R : string -> TimeSeriesRecord -> Prop),
             (forall addr row, R addr row -> rec_address row = addr) ->
             Forall2 R addresses rws -> rows tail = [] ->
             map rec_address (rows (map LogAndSave rws ++ tail)) = addresses)
    as Hrows.
  { intros rws tail R HR Hall Htail.
    rewrite rows_app, rows_LogAndSave, Htail, app_nil_r.
    eapply Forall2_rows_address; eauto. }
  destruct mode as [poolAddress|]; simpl.
  - destruct (sampling env) as [[slot0 poolLiquidity]|err] eqn:Hsampling.
    + apply sampling_Ok in Hsampling as [Hslot Hliq].
      destruct (JS.strictEq (JS.Number poolLiquidity) 0) eqn:Hzero.
      * destruct (updateLoop_zero_run addresses Math_pow env st slot0 poolLiquidity
                    Hslot Hliq Hzero Hst) as (rws & -> & Hall).
        eexists _, _. split; [reflexivity|].
        split; [apply pushEach_hasStores; exact Hst|]. split; [reflexivity|].
        split; [apply Hqueries; repeat constructor|].
        eapply Hrows; [|exact Hall|reflexivity]. intros addr row [avg ->]. reflexivity.
      * destruct (updateLoop_share_run addresses Math_pow env st slot0 poolLiquidity
                    Hslot Hliq Hzero Hst) as (rws & -> & Hall).
        eexists _, _. split; [reflexivity|].
        split; [apply pushEach_hasStores; exact Hst|]. split; [reflexivity|].
        split; [apply queries_none, noQuery_rows|].
        rewrite rows_LogAndSave.
        eapply Forall2_rows_address; [|exact Hall]. intros addr row [avg ->]. reflexivity.
    + destruct (updateLoop_sampling_failed addresses Math_pow env st) as [err' ->].
      { apply sampling_Throw in Hsampling as [Hslot|(slot0 & Hslot & Hliq)]; eauto. }
      eexists _, _. split; [reflexivity|]. auto.
  - destruct (updateLoopNoPool_run addresses env st Hst) as (rws & -> & Hall).
    eexists _, _. split; [reflexivity|].
    split; [apply pushEach_hasStores; exact Hst|]. split; [reflexivity|].
    split; [apply Hqueries; repeat constructor|].
    eapply Hrows; [|exact Hall|reflexivity]. intros addr row [avg ->]. reflexivity.
Qed.

Lemma runCycles_summary
    (addresses : list string) (Math_pow : float -> float -> float)
    (mode : Mode) (envs : list CycleEnv) (st : State) :
  hasStores addresses st ->
  exists st' out,
    runCycles addresses Math_pow mode envs st = (Ok tt, st', out)
    /\ map rec_address (rows out)
       = concat (map (fun _ => addresses) (List.filter (emitsRows mode) envs))
    /\ positionsByAddress st' = positionsByAddress st
    /\ hasStores addresses st'
    /\ queries out = 0%nat.
Proof.
  unfold runCycles. revert st. induction envs as [|env envs IH]; intros st Hst.
  - eexists _, _. split; [reflexivity|]. auto.
  - change (for_of (env :: envs) ?body) with (body env ;; for_of envs body).
    unfold bind.
    destruct (cycle_summary addresses Math_pow mode env st Hst)
      as (st1 & out1 & -> & Hst1 & Hpos1 & Hq1 & Hrows1).
    destruct (IH st1 Hst1) as (st2 & out2 & -> & Hrows2 & Hpos2 & Hst2 & Hq2).
    eexists _, _. split; [reflexivity|]. split; [|split; [congruence|split; [exact Hst2|]]].
    + rewrite rows_app, map_app, Hrows1, Hrows2. simpl.
      destruct (emitsRows mode env); reflexivity.
    + rewrite queries_app. lia.
Qed.

(** X16: from a state with every store, the cycles of a run never throw.
    The rows come cycle by cycle, one per roster entry in roster order for
    each cycle that emits (every cycle without a pool, every sampled cycle
    with one) and none for a cycle whose sampling failed, so their number is
    the size of the roster times the number of emitting cycles; the cached
    positions stay as they were and no cycle queries the registry. *)
Theorem runCycles_rows_by_cycle
    (addresses : list string) (Math_pow : float -> float -> float)
    (mode : Mode) (envs : list CycleEnv) (st : State) :
  hasStores addresses st ->
  exists st' out,
    runCycles addresses Math_pow mode envs st = (Ok tt, st', out)
    /\ map rec_address (rows out)
       = concat (map (fun _ => addresses) (List.filter (emitsRows mode) envs))
    /\ length (rows out)
       = (length addresses * length (List.filter (emitsRows mode) envs))%nat
    /\ positionsByAddress st' = positionsByAddress st
    /\ hasStores addresses st'
    /\ queries out = 0%nat.
Proof.
  intros Hst.
  destruct (runCycles_summary addresses Math_pow mode envs st Hst)
    as (st' & out & Hrun & Hrows & Hpos & Hst' & Hqueries).
  exists st', out. split; [exact Hrun|]. split; [exact Hrows|].
  split; [|split; [exact Hpos|split; [exact Hst'|exact Hqueries]]].
  rewrite <- (length_map rec_address), Hrows.
  generalize (List.filter (emitsRows mode) envs). intros emitting.
  induction emitting as [|env emitting IH]; simpl; [lia|].
  rewrite length_app, IH. lia.
Qed.

Lemma runCycles_rows_by_cycle_witness :
  exists st' out,
    runCycles [exampleAddress] examplePow (ActiveMode examplePool) exampleEnvs exampleState
      = (Ok tt, st', out)
    /\ map rec_address (rows out) = [exampleAddress; exampleAddress]
    /\ length (rows out) = 2%nat
    /\ positionsByAddress st' = positionsByAddress exampleState
    /\ hasStores [exampleAddress] st'
    /\ queries out = 0%nat.
Proof.
  apply (runCycles_rows_by_cycle [exampleAddress] examplePow (ActiveMode examplePool)
           exampleEnvs exampleState).
  stores_present.
Defined.

Lemma rollingAvg_zeros (n : nat) :
  (1 <= n <= 72)%nat -> rollingAvg (replicate n 0%float) = 0%float.
Proof.
  intros Hn.
  assert (forallb (fun k => PrimFloat.Leibniz.eqb (rollingAvg (replicate k 0%float)) 0%float)
            (seq 1 72) = true) as Htable by (vm_compute; reflexivity).
  rewrite forallb_forall in Htable.
  apply FloatAxioms.Leibniz.eqb_spec, Htable, in_seq. lia.
Qed.

Lemma zeroWindow_replicate (values : list float) :
  Forall (fun x => x = 0%float) values -> values = replicate (length values) 0%float.
Proof. induction 1 as [|x values -> _ IH]; simpl; [reflexivity|]. f_equal. exact IH. Qed.

Lemma rollingAvg_zeroWindow (values : list float) :
  zeroWindow values -> values <> [] -> rollingAvg values = 0%float.
Proof.
  intros [Hlen Hzero] Hne. rewrite (zeroWindow_replicate values Hzero).
  apply rollingAvg_zeros. unfold WINDOW_SIZE in Hlen.
  destruct values; [contradiction|]. simpl in *. lia.
Qed.

Lemma pushWindow_zeroWindow (values : list float) :
  zeroWindow values -> zeroWindow (pushWindow values 0%float).
Proof.
  intros [Hlen Hzero]. split; [apply pushWindow_length; exact Hlen|].
  unfold pushWindow.
  assert (Forall (fun x => x = 0%float) (values ++ [0%float])) as Hall
    by (apply Forall_app; split; [exact Hzero|repeat constructor]).
  destruct (WINDOW_SIZE <? length (values ++ [0%float]))%nat; [|exact Hall].
  destruct (values ++ [0%float]); [constructor|]. inversion Hall; assumption.
Qed.

Section RowLoopInvariant.

Variable mk : string -> float -> TimeSeriesRecord.
Variable v : string -> float.
Variable I : list float -> Prop.
Hypothesis I_push : forall values addr, I values -> I (pushWindow values (v addr)).

(** A row loop over windows that all satisfy [I], an invariant of the push. *)
Lemma rowLoop_run_invariant (l : list string) (st : State) :
  hasStores l st ->
  (forall addr values, rollingData st !! addr = Some values -> I values) ->
  exists rws,
    rowLoop mk v l st =
    (Ok tt,
     {| positionsByAddress := positionsByAddress st;
        rollingData := pushEach v l (rollingData st) |},
     map LogAndSave rws)
    /\ Forall2 (fun addr row => exists values,
                  I values /\ row = mk addr (rollingAvg (pushWindow values (v addr))))
         l rws
    /\ (forall addr values,
          pushEach v l (rollingData st) !! addr = Some values -> I values).
Proof.
  revert st. induction l as [|addr l IH]; intros st Hst HI.
  - exists []. split; [destruct st; reflexivity|]. split; [constructor|exact HI].
  - apply Forall_cons in Hst as [[values Hvalues] Hrest].
    set (st1 := {| positionsByAddress := positionsByAddress st;
                   rollingData := <[addr := pushWindow values (v addr)]> (rollingData st) |}).
    assert (hasStores l st1) as Hst1.
    { unfold hasStores in *. eapply Forall_impl; [exact Hrest|].
      intros a Ha. simpl. destruct (decide (addr = a)) as [->|Hne].
      - rewrite lookup_insert_eq. eauto.
      - rewrite lookup_insert_ne by assumption. exact Ha. }
    assert (forall a w, rollingData st1 !! a = Some w -> I w) as HI1.
    { intros a w. simpl. destruct (decide (addr = a)) as [->|Hne].
      - rewrite lookup_insert_eq. intros [= <-]. apply I_push. eauto.
      - rewrite lookup_insert_ne by assumption. apply HI. }
    destruct (IH st1 Hst1 HI1) as (rws & Hrun & Hrows & Hafter).
    exists (mk addr (rollingAvg (pushWindow values (v addr))) :: rws). split; [|split].
    + unfold rowLoop in *. simpl. unfold bind at 1. unfold bind at 1.
      rewrite (updateStore_run _ _ _ _ Hvalues). unfold emit at 1.
      fold st1. rewrite Hrun. simpl. rewrite Hvalues. reflexivity.
    + constructor; [|exact Hrows]. exists values. split; [eauto|reflexivity].
    + intros a w. simpl. rewrite Hvalues. apply Hafter.
Qed.

End RowLoopInvariant.

(** A cycle without a pool over windows of zeros: every row is the zero row
    of its address, with a rolling average of [0]. *)
Lemma updateLoopNoPool_zero_rows (addresses : list string) (env : CycleEnv) (st : State) :
  hasStores addresses st -> zeroWindows st ->
  exists st' out,
    updateLoopNoPool addresses env st = (Ok tt, st', out)
    /\ rows out = map (fun addr => noPoolRow env addr 0%float) addresses
    /\ hasStores addresses st' /\ zeroWindows st'.
Proof.
  intros Hst Hzero.
  destruct (rowLoop_run_invariant (noPoolRow env) (fun _ => 0%float) zeroWindow
              (fun values _ => pushWindow_zeroWindow values) addresses st Hst Hzero)
    as (rws & Hrun & Hrows & Hafter).
  rewrite updateLoopNoPool_eq, Hrun.
  eexists _, _. split; [reflexivity|].
  rewrite rows_app, rows_LogAndSave. simpl. rewrite app_nil_r.
  split; [|split; [apply pushEach_hasStores; exact Hst|exact Hafter]].
  clear Hrun Hafter Hst. induction Hrows as [|addr row l rws (values & Hvalues & ->) _ IH];
    [reflexivity|].
  simpl. rewrite IH. f_equal. f_equal.
  apply rollingAvg_zeroWindow; [apply pushWindow_zeroWindow; exact Hvalues|].
  intros Hempty. pose proof (pushWindow_last values 0%float) as Hlast.
  rewrite Hempty in Hlast. discriminate.
Qed.

Lemma runCycles_degraded_zero_rows (addresses : list string)
    (Math_pow : float -> float -> float) (envs : list CycleEnv) (st : State) :
  hasStores addresses st -> zeroWindows st ->
  exists st' out,
    runCycles addresses Math_pow DegradedMode envs st = (Ok tt, st', out)
    /\ rows out
       = concat (map (fun env => map (fun addr => noPoolRow env addr 0%float) addresses) envs).
Proof.
  unfold runCycles. revert st. induction envs as [|env envs IH]; intros st Hst Hzero.
  - eexists _, _. split; reflexivity.
  - change (for_of (env :: envs) ?body) with (body env ;; for_of envs body).
    unfold bind. cbn [cycle].
    destruct (updateLoopNoPool_zero_rows addresses env st Hst Hzero)
      as (st1 & out1 & -> & Hrows1 & Hst1 & Hzero1).
    destruct (IH st1 Hst1 Hzero1) as (st2 & out2 & Hrun2 & Hrows2).
    cbn [cycle] in Hrun2. rewrite Hrun2.
    eexists _, _. split; [reflexivity|].
    rewrite rows_app, Hrows1, Hrows2. reflexivity.
Qed.

Lemma rows_none (out : list Event) :
  Forall (fun e => isRow e = false) out -> rows out = [].
Proof.
  unfold rows. induction 1 as [|e out He _ IH]; [reflexivity|].
  destruct e; simpl in *; try discriminate; exact IH.
Qed.

Lemma loadAllPositions_no_rows (addresses : list string)
    (positionManager : PositionManager) (st : State) :
  exists out,
    loadAllPositions addresses positionManager st =
    (Ok tt, loadState positionManager addresses st, out)
    /\ Forall (fun e => isRow e = false) out.
Proof.
  unfold loadAllPositions, bind at 1, emit at 1.
  assert (forall l st0, exists out,
             for_of l (fun addr =>
               let! pos := fetchPositionsForAddress positionManager addr in
               setPositions addr pos ;;
               setValues addr [] ;;
               emit (ConsoleLog ("Address " +:+ addr +:+ " has " +:+ pretty (length pos)
                                 +:+ " target pool positions."))) st0
             = (Ok tt, loadState positionManager l st0, out)
             /\ Forall (fun e => isRow e = false) out) as Hloop.
  { induction l as [|addr l IH]; intros st0.
    - exists []. split; [reflexivity|constructor].
    - change (for_of (addr :: l) ?body) with (body addr ;; for_of l body).
      unfold bind at 1. unfold bind at 1.
      rewrite fetchPositionsForAddress_run.
      change (loadState positionManager (addr :: l) st0) with
        (loadState positionManager l
           {| positionsByAddress :=
                <[addr := fetchedPositions positionManager addr]> (positionsByAddress st0);
              rollingData := <[addr := []]> (rollingData st0) |}).
      unfold fetchedPositions.
      destruct (readPositions positionManager addr) as [rawPositions|err];
        unfold bind at 1, setPositions at 1; unfold bind at 1, setValues at 1;
        unfold emit at 1; cbn [positionsByAddress rollingData];
        match goal with
        | |- context [for_of l _ ?s] => destruct (IH s) as (out & -> & Hout)
        end;
        eexists; (split; [reflexivity|]); repeat constructor; exact Hout. }
  destruct (Hloop addresses st) as (out & -> & Hout).
  eexists. split; [reflexivity|]. constructor; [reflexivity|exact Hout].
Qed.

Lemma resolution_no_rows (addresses : list string)
    (ethers_getAddress : string -> result string)
    (factory : string -> string -> float -> result string) (st : State) :
  Forall (fun e => isRow e = false)
    (try_catch (getTargetPoolAddress addresses ethers_getAddress factory)
       (fun err => emit (ConsoleError ("Warning: " +:+ err)) ;; ret None) st).2.
Proof.
  unfold try_catch, getTargetPoolAddress, bind at 1, getState.
  destruct (totalPositions addresses st =? 0)%nat; [repeat constructor|].
  unfold getPool. unfold bind, await, emit, throw, ret.
  destruct (toChecksumAddress ethers_getAddress USDC_ADDRESS); [|repeat constructor].
  destruct (toChecksumAddress ethers_getAddress OTHER_TOKEN); [|repeat constructor].
  destruct (factory _ _ FEE) as [poolAddress|err]; [|repeat constructor].
  destruct (String.eqb poolAddress "" || String.eqb poolAddress ZERO_ADDRESS);
    repeat constructor.
Qed.

Lemma startup_no_rows (addresses : list string)
    (ethers_getAddress : string -> result string)
    (positionManager : PositionManager)
    (factory : string -> string -> float -> result string) (st : State) :
  rows (startup addresses ethers_getAddress positionManager factory st).2 = [].
Proof.
  apply rows_none.
  destruct (loadAllPositions_no_rows addresses positionManager st) as (out1 & Hload & Hout1).
  pose proof (resolution_no_rows addresses ethers_getAddress factory
                (loadState positionManager addresses st)) as Hout2.
  destruct (resolution_run addresses ethers_getAddress factory
              (loadState positionManager addresses st)) as (poolAddress & out2 & Hresolve).
  rewrite Hresolve in Hout2. simpl in Hout2.
  unfold startup, bind at 1. rewrite Hload. unfold bind at 1. rewrite Hresolve.
  destruct (falsy poolAddress); unfold bind, emit, ret; simpl;
    repeat (apply Forall_app; split); auto; repeat constructor.
Qed.

Lemma startup_queries (addresses : list string)
    (ethers_getAddress : string -> result string)
    (positionManager : PositionManager)
    (factory : string -> string -> float -> result string) (st : State) :
  (queries (startup addresses ethers_getAddress positionManager factory st).2 <= 1)%nat.
Proof.
  destruct (loadAllPositions_run addresses positionManager st) as (out1 & Hload & Hout1).
  destruct (resolution_outcome addresses ethers_getAddress factory
              (loadState positionManager addresses st))
    as (poolAddress & out2 & Hresolve & Hqueries & _).
  unfold startup, bind at 1. rewrite Hload. unfold bind at 1. rewrite Hresolve.
  destruct (falsy poolAddress); unfold bind, emit, ret; cbn [snd];
    rewrite !queries_app, (queries_none out1 Hout1); simpl; unfold queries at 2; simpl; lia.
Qed.

Lemma loadState_zeroWindows (positionManager : PositionManager) (l : list string)
    (st : State) :
  zeroWindows st -> zeroWindows (loadState positionManager l st).
Proof.
  revert st. induction l as [|a l IH]; intros st Hst; [exact Hst|].
  simpl. apply IH. intros addr values. simpl.
  destruct (decide (a = addr)) as [->|Hne].
  - rewrite lookup_insert_eq. intros [= <-]. split; [simpl; lia|constructor].
  - rewrite lookup_insert_ne by assumption. apply Hst.
Qed.

(** X17: a run of [main] from the empty globals never throws, whatever the
    chain answers. Startup emits no row and at most one registry query; the
    cycles emit one row per roster entry for each cycle that emits, in cycle
    order, and no query; and the positions cached at startup are the ones
    the run ends with. *)
Theorem main_run_summary
    (addresses : list string) (Math_pow : float -> float -> float)
    (ethers_getAddress : string -> result string)
    (positionManager : PositionManager)
    (factory : string -> string -> float -> result string)
    (envs : list CycleEnv) :
  exists mode st1 out1 st out2,
    startup addresses ethers_getAddress positionManager factory emptyState
      = (Ok mode, st1, out1)
    /\ main addresses Math_pow ethers_getAddress positionManager factory envs emptyState
       = (Ok tt, st, out1 ++ out2)
    /\ rows out1 = []
    /\ map rec_address (rows out2)
       = concat (map (fun _ => addresses) (List.filter (emitsRows mode) envs))
    /\ (queries (out1 ++ out2) <= 1)%nat
    /\ positionsByAddress st = positionsByAddress st1.
Proof.
  destruct (startup_run addresses ethers_getAddress positionManager factory emptyState)
    as (mode & out1 & Hstartup).
  pose proof (startup_queries addresses ethers_getAddress positionManager factory emptyState)
    as Hqueries.
  rewrite Hstartup in Hqueries. cbn [snd] in Hqueries.
  destruct (runCycles_summary addresses Math_pow mode envs
              (loadState positionManager addresses emptyState))
    as (st & out2 & Hrun & Hrows & Hpos & _ & Hq2); [apply loadState_hasStores|].
  exists mode, (loadState positionManager addresses emptyState), out1, st, out2.
  split; [exact Hstartup|]. split; [|split; [|split; [exact Hrows|split; [|exact Hpos]]]].
  - unfold main, bind. rewrite Hstartup, Hrun. reflexivity.
  - pose proof (startup_no_rows addresses ethers_getAddress positionManager factory
                  emptyState) as Hnone.
    rewrite Hstartup in Hnone. exact Hnone.
  - rewrite queries_app. lia.
Qed.

(** X18: a run that starts in degraded mode logs nothing but zero rows: for
    every cycle and every roster entry one row with active liquidity 0,
    percentage 0, rolling average exactly 0 and [N/A] for tick and price, in
    cycle order then roster order. *)
Theorem degraded_run_logs_zero_rows
    (addresses : list string) (Math_pow : float -> float -> float)
    (ethers_getAddress : string -> result string)
    (positionManager : PositionManager)
    (factory : string -> string -> float -> result string)
    (envs : list CycleEnv) :
  (startup addresses ethers_getAddress positionManager factory emptyState).1.1
    = Ok DegradedMode ->
  rows (main addresses Math_pow ethers_getAddress positionManager factory envs emptyState).2
  = concat (map (fun env => map (fun addr => noPoolRow env addr 0%float) addresses) envs).
Proof.
  intros Hmode.
  destruct (startup_run addresses ethers_getAddress positionManager factory emptyState)
    as (mode & out1 & Hstartup).
  pose proof (startup_no_rows addresses ethers_getAddress positionManager factory emptyState)
    as Hnone.
  rewrite Hstartup in Hmode, Hnone. simpl in Hmode, Hnone. injection Hmode as ->.
  destruct (runCycles_degraded_zero_rows addresses Math_pow envs
              (loadState positionManager addresses emptyState))
    as (st & out2 & Hrun & Hrows).
  - apply loadState_hasStores.
  - apply loadState_zeroWindows. intros addr values Hlookup.
    simpl in Hlookup. rewrite lookup_empty in Hlookup. discriminate.
  - unfold main, bind. rewrite Hstartup, Hrun. simpl.
    rewrite rows_app, Hnone, Hrows. reflexivity.
Qed.

Lemma degraded_run_logs_zero_rows_witness :
  rows (main [exampleAddress] examplePow exampleGetAddress scenarioManager emptyFactory
          exampleEnvs emptyState).2
  = concat (map (fun env => map (fun addr => noPoolRow env addr 0%float) [exampleAddress])
              exampleEnvs).
Proof.
  apply degraded_run_logs_zero_rows. vm_compute. reflexivity.
Defined.

(** ** Repeated roster entries *)

(** X19: an address listed [k] times in the roster is handled [k] times in
    every cycle that emits rows: it gets [k] rows, and its window receives
    [k] pushes of one and the same percentage. *)
Theorem repeated_address_pushed_per_occurrence
    (addresses : list string) (Math_pow : float -> float -> float)
    (mode : Mode) (env : CycleEnv) (st : State) :
  hasStores addresses st -> emitsRows mode env = true ->
  exists st' out,
    cycle addresses Math_pow mode env st = (Ok tt, st', out)
    /\ forall addr old,
         rollingData st !! addr = Some old ->
         occurrences addr (map rec_address (rows out)) = occurrences addr addresses
         /\ exists percentage,
              rollingData st' !! addr
              = Some (pushAll old (replicate (occurrences addr addresses) percentage)).
Proof.
  intros Hst Hemits.
  destruct (cycle_summary addresses Math_pow mode env st Hst)
    as (st' & out & Hrun & _ & _ & _ & Hrows).
  rewrite Hemits in Hrows.
  assert (hasStores addresses {| positionsByAddress := ∅; rollingData := rollingData st |})
    as Hst' by exact Hst.
  assert (exists v, rollingData st' = pushEach v addresses (rollingData st)) as [v Hstate].
  { destruct mode as [poolAddress|]; simpl in Hrun, Hemits.
    - destruct (sampling env) as [[slot0 poolLiquidity]|] eqn:Hsampling; [|discriminate].
      apply sampling_Ok in Hsampling as [Hslot Hliq].
      destruct (JS.strictEq (JS.Number poolLiquidity) 0) eqn:Hzero.
      + destruct (updateLoop_zero_run addresses Math_pow env st slot0 poolLiquidity
                    Hslot Hliq Hzero Hst) as (rws & Hrun' & _).
        rewrite Hrun' in Hrun. injection Hrun as <- _. eauto.
      + destruct (updateLoop_share_run addresses Math_pow env st slot0 poolLiquidity
                    Hslot Hliq Hzero Hst) as (rws & Hrun' & _).
        rewrite Hrun' in Hrun. injection Hrun as <- _. eauto.
    - destruct (updateLoopNoPool_run addresses env st Hst) as (rws & Hrun' & _).
      rewrite Hrun' in Hrun. injection Hrun as <- _. eauto. }
  exists st', out. split; [exact Hrun|].
  intros addr old Hold. split; [rewrite Hrows; reflexivity|].
  exists (v addr). rewrite Hstate, (pushEach_occurrences v addresses _ addr Hst'), Hold.
  reflexivity.
Qed.

Lemma repeated_address_pushed_per_occurrence_witness :
  exists st' out,
    cycle repeatedRoster examplePow (ActiveMode examplePool) (envSampled 1000)
      twoAddressState = (Ok tt, st', out)
    /\ forall addr old,
         rollingData twoAddressState !! addr = Some old ->
         occurrences addr (map rec_address (rows out)) = occurrences addr repeatedRoster
         /\ exists percentage,
              rollingData st' !! addr
              = Some (pushAll old (replicate (occurrences addr repeatedRoster) percentage)).
Proof.
  apply repeated_address_pushed_per_occurrence.
  - stores_present.
  - reflexivity.
Defined.

(** ** The log file *)

(** X20: the log file is append-only. After a run of [main] the file holds
    what it held before (or the header alone, when it did not exist), then
    one line per row of the run in the order of the rows: an existing file is
    never truncated and gets no second header. *)
Theorem log_file_append_only (file : option (list LogLine)) (out : list Event) :
  logFileAfterMain file out
  = Some (match file with
          | None => [HeaderLine]
          | Some lines => lines
          end ++ map RowLine (rows out)).
Proof.
  unfold logFileAfterMain.
  assert (forall lines, fold_left sinkStep out (Some lines)
                        = Some (lines ++ map RowLine (rows out))) as Hfold.
  { induction out as [|e out IH]; intros lines.
    - simpl. rewrite app_nil_r. reflexivity.
    - destruct e; simpl; try apply IH.
      unfold appendLine. simpl. rewrite IH, <- app_assoc. reflexivity. }
  destruct file as [lines|]; apply Hfold.
Qed.

(** ** Order of the positions *)

Lemma exactActiveLiquidity_Permutation (l l' : list RawPosition) (currentTick : Z) :
  Permutation l l' -> exactActiveLiquidity l currentTick = exactActiveLiquidity l' currentTick.
Proof.
  induction 1 as [|pos l l' _ IH|pos pos' l|l l' l'' _ IH1 _ IH2].
  - reflexivity.
  - rewrite !exactActiveLiquidity_cons, IH. reflexivity.
  - rewrite !exactActiveLiquidity_cons. lia.
  - congruence.
Qed.

(** X21: while the exact sum of an address's active liquidity is below
    [2^53], the active liquidity computed for it does not depend on the order
    in which the position manager returned its positions. Above that bound it
    can: [2^53, 1, 1] and [1, 1, 2^53] give different sums. *)
Theorem active_liquidity_order_independent
    (rawPositions rawPositions' : list RawPosition) (currentTick : Z) :
  (Permutation rawPositions rawPositions' ->
   Forall (fun pos => 0 <= raw_liquidity pos) rawPositions ->
   exactActiveLiquidity rawPositions currentTick < 2 ^ 53 ->
   activeLiquidityOf (map convertPosition rawPositions) currentTick
   = activeLiquidityOf (map convertPosition rawPositions') currentTick)
  /\ Permutation largeFirst largeLast
  /\ activeLiquidityOf (map convertPosition largeFirst) 0
     <> activeLiquidityOf (map convertPosition largeLast) 0.
Proof.
  split; [|split].
  - intros Hperm Hnonneg Hsum.
    assert (Forall (fun pos => 0 <= raw_liquidity pos) rawPositions') as Hnonneg'
      by (eapply Permutation_Forall; eassumption).
    pose proof (exactActiveLiquidity_Permutation _ _ currentTick Hperm) as Hsame.
    unfold activeLiquidityOf. change 0%float with (JS.Number 0).
    rewrite (activeLiquidity_fold_exact rawPositions currentTick 0 Hnonneg) by lia.
    rewrite (activeLiquidity_fold_exact rawPositions' currentTick 0 Hnonneg') by lia.
    rewrite Hsame. reflexivity.
  - unfold largeFirst, largeLast.
    change [positionWithLiquidity 1; positionWithLiquidity 1; positionWithLiquidity (2 ^ 53)]
      with ([positionWithLiquidity 1; positionWithLiquidity 1]
              ++ [positionWithLiquidity (2 ^ 53)]).
    apply Permutation_cons_append.
  - intros Heq.
    assert (JS.integerValue (activeLiquidityOf (map convertPosition largeFirst) 0)
            = Some (2 ^ 53)) as Hfirst by (vm_compute; reflexivity).
    assert (JS.integerValue (activeLiquidityOf (map convertPosition largeLast) 0)
            = Some (2 ^ 53 + 2)) as Hlast by (vm_compute; reflexivity).
    rewrite Heq, Hlast in Hfirst. vm_compute in Hfirst. discriminate.
Qed.

Lemma active_liquidity_order_independent_witness :
  activeLiquidityOf
    (map convertPosition [positionWithLiquidity 500; positionWithLiquidity 7]) 0
  = activeLiquidityOf
      (map convertPosition [positionWithLiquidity 7; positionWithLiquidity 500]) 0.
Proof.
  apply (active_liquidity_order_independent
           [positionWithLiquidity 500; positionWithLiquidity 7]
           [positionWithLiquidity 7; positionWithLiquidity 500] 0).
  - apply perm_swap.
  - repeat constructor; vm_compute; discriminate.
  - vm_compute. reflexivity.
Defined.

(** ** When the registry is queried *)




(** * The rolling window over a run *)

Lemma rowsOf_app (addr : string) (out1 out2 : list Event) :
  rowsOf addr (out1 ++ out2) = rowsOf addr out1 ++ rowsOf addr out2.
Proof. unfold rowsOf. rewrite rows_app. apply List.filter_app. Qed.

Lemma rowsOf_no_rows (addr : string) (out : list Event) :
  rows out = [] -> rowsOf addr out = [].
Proof. unfold rowsOf. intros ->. reflexivity. Qed.

Lemma pushAll_app (values pushed1 pushed2 : list float) :
  pushAll values (pushed1 ++ pushed2) = pushAll (pushAll values pushed1) pushed2.
Proof. unfold pushAll. apply fold_left_app. Qed.

Lemma averagesFrom_app (values pushed1 pushed2 : list float) :
  averagesFrom values (pushed1 ++ pushed2)
  = averagesFrom values pushed1 ++ averagesFrom (pushAll values pushed1) pushed2.
Proof.
  revert values. induction pushed1 as [|v pushed1 IH]; intros values; [reflexivity|].
  simpl. rewrite IH. reflexivity.
Qed.

(** The [n]-th average reported is the average of the window after the
    first [n + 1] pushes. *)
Lemma averagesFrom_lookup (values pushed : list float) (n : nat) :
  (n < length pushed)%nat ->
  averagesFrom values pushed !! n
  = Some (rollingAvg (pushAll values (take (S n) pushed))).
Proof.
  revert values n. induction pushed as [|v pushed IH]; intros values n Hn.
  - simpl in Hn. lia.
  - destruct n as [|n]; [reflexivity|].
    simpl in Hn. cbn [averagesFrom]. rewrite lookup_cons_ne_0 by lia. simpl.
    rewrite IH by lia. reflexivity.
Qed.

Lemma pushAll_mostRecent (pushed : list float) :
  pushAll [] pushed = mostRecent 72 pushed.
Proof. rewrite pushAll_drop by (simpl; lia). reflexivity. Qed.

Lemma mostRecent_length (n : nat) (pushed : list float) :
  length (mostRecent n pushed) = Nat.min (length pushed) n.
Proof. unfold mostRecent. rewrite length_drop. lia. Qed.

Lemma mostRecent_app (oldest recent : list float) :
  mostRecent (length recent) (oldest ++ recent) = recent.
Proof.
  unfold mostRecent. rewrite length_app.
  replace (length oldest + length recent - length recent)%nat with (length oldest) by lia.
  apply drop_app_length.
Qed.

(** Adding Numbers that hold non-negative integers is exact while the total
    stays below [2^53]. *)
Lemma sum_Number_exact (values : list Z) (z : Z) :
  Forall (fun value => 0 <= value) values ->
  0 <= z -> z + fold_right Z.add 0 values < 2 ^ 53 ->
  fold_left (fun sum value => (sum + value)%float) (map JS.Number values) (JS.Number z)
  = JS.Number (z + fold_right Z.add 0 values).
Proof.
  intros Hnonneg. revert z.
  induction Hnonneg as [|value values Hvalue Hrest IH]; intros z Hz Hsum.
  - simpl. f_equal. lia.
  - simpl in *.
    assert (0 <= fold_right Z.add 0 values) as Hpos.
    { clear -Hrest. induction Hrest; simpl; lia. }
    rewrite Number_add_exact by lia.
    rewrite IH by lia. f_equal. lia.
Qed.

Lemma tracks_no_rows (st st' : State) (out : list Event) :
  rows out = [] -> rollingData st' = rollingData st -> tracks st st' out.
Proof.
  intros Hrows Hsame addr old Hold.
  rewrite (rowsOf_no_rows addr out Hrows), Hsame. simpl. auto.
Qed.

Lemma tracks_trans (st st1 st2 : State) (out1 out2 : list Event) :
  tracks st st1 out1 -> tracks st1 st2 out2 -> tracks st st2 (out1 ++ out2).
Proof.
  intros H1 H2 addr old Hold.
  destruct (H1 addr old Hold) as [Hwindow1 Havg1].
  destruct (H2 addr _ Hwindow1) as [Hwindow2 Havg2].
  rewrite rowsOf_app, !map_app, pushAll_app, averagesFrom_app, Havg1, Havg2.
  auto.
Qed.

Lemma tracks_hasStores (l : list string) (st st' : State) (out : list Event) :
  tracks st st' out -> hasStores l st -> hasStores l st'.
Proof.
  intros Htracks Hst. unfold hasStores in *.
  eapply Forall_impl; [exact Hst|]. intros addr [old Hold].
  destruct (Htracks addr old Hold) as [-> _]. eauto.
Qed.

Section RowLoopHistory.

Variable mk : string -> float -> TimeSeriesRecord.
Variable v : string -> float.

Hypothesis mk_address : forall addr avg, rec_address (mk addr avg) = addr.
Hypothesis mk_percentage : forall addr avg, rec_percentage (mk addr avg) = v addr.
Hypothesis mk_rollingAvg : forall addr avg, rec_rollingAvg (mk addr avg) = avg.

(** One turn of a row loop: a push into the window of [a] and the row that
    reports it. *)
Lemma rowLoop_step_tracks (a : string) (st : State) (values : list float) :
  rollingData st !! a = Some values ->
  tracks st
    {| positionsByAddress := positionsByAddress st;
       rollingData := <[a := pushWindow values (v a)]> (rollingData st) |}
    [LogAndSave (mk a (rollingAvg (pushWindow values (v a))))].
Proof.
  intros Hvalues addr old Hold. unfold rowsOf. simpl. rewrite mk_address.
  destruct (String.eqb_spec a addr) as [->|Hne].
  - rewrite lookup_insert_eq. simpl.
    rewrite mk_percentage, mk_rollingAvg.
    assert (old = values) as -> by congruence. auto.
  - rewrite lookup_insert_ne by exact Hne. simpl. auto.
Qed.

Lemma rowLoop_tracks (l : list string) (st : State) :
  hasStores l st ->
  exists st' rws,
    rowLoop mk v l st = (Ok tt, st', map LogAndSave rws)
    /\ tracks st st' (map LogAndSave rws).
Proof.
  revert st. induction l as [|a l IH]; intros st Hst.
  - exists st, []. split; [reflexivity|]. apply tracks_no_rows; reflexivity.
  - pose proof Hst as Hall. apply Forall_cons in Hst as [[values Hvalues] Hrest].
    pose proof (rowLoop_step_tracks a st values Hvalues) as Hstep.
    set (st1 := {| positionsByAddress := positionsByAddress st;
                   rollingData := <[a := pushWindow values (v a)]> (rollingData st) |})
      in Hstep.
    destruct (IH st1 (tracks_hasStores l st st1 _ Hstep Hrest))
      as (st' & rws & Hrun & Htracks).
    exists st', (mk a (rollingAvg (pushWindow values (v a))) :: rws). split.
    + unfold rowLoop in *. simpl. unfold bind at 1. unfold bind at 1.
      rewrite (updateStore_run _ _ _ _ Hvalues). unfold emit at 1.
      fold st1. rewrite Hrun. reflexivity.
    + exact (tracks_trans st st1 st' _ _ Hstep Htracks).
Qed.

End RowLoopHistory.

Lemma cycle_tracks (addresses : list string) (Math_pow : float -> float -> float)
    (mode : Mode) (env : CycleEnv) (st : State) :
  hasStores addresses st ->
  exists st' out,
    cycle addresses Math_pow mode env st = (Ok tt, st', out)
    /\ tracks st st' out.
Proof.
  intros Hst.
  assert (forall st' rws tail,
             tracks st st' (map LogAndSave rws) -> rows tail = [] ->
             tracks st st' (map LogAndSave rws ++ tail)) as Htail.
  { intros st' rws tail Htracks Hrows.
    apply (tracks_trans st st' st'); [exact Htracks|].
    apply tracks_no_rows; [exact Hrows|reflexivity]. }
  destruct mode as [poolAddress|]; simpl.
  - destruct (sampling env) as [[slot0 poolLiquidity]|err] eqn:Hsampling.
    + apply sampling_Ok in Hsampling as [Hslot Hliq].
      rewrite (updateLoop_sampled_eq addresses Math_pow env st slot0 poolLiquidity
                 Hslot Hliq).
      destruct (JS.strictEq (JS.Number poolLiquidity) 0).
      * destruct (rowLoop_tracks (zeroRow Math_pow env slot0) (fun _ => 0%float))
          with (l := addresses) (st := st) as (st' & rws & -> & Htracks);
          [reflexivity|reflexivity|reflexivity|exact Hst|].
        eexists _, _. split; [reflexivity|]. apply Htail; [exact Htracks|reflexivity].
      * destruct (rowLoop_tracks (shareRow addresses Math_pow env slot0 poolLiquidity st)
                    (shareOf addresses st (tick slot0) poolLiquidity))
          with (l := addresses) (st := st) as (st' & rws & -> & Htracks);
          [reflexivity|reflexivity|reflexivity|exact Hst|].
        eexists _, _. split; [reflexivity|exact Htracks].
    + destruct (updateLoop_sampling_failed addresses Math_pow env st) as [err' ->].
      { apply sampling_Throw in Hsampling as [Hslot|(slot0 & Hslot & Hliq)]; eauto. }
      eexists _, _. split; [reflexivity|]. apply tracks_no_rows; reflexivity.
  - rewrite updateLoopNoPool_eq.
    destruct (rowLoop_tracks (noPoolRow env) (fun _ => 0%float))
      with (l := addresses) (st := st) as (st' & rws & -> & Htracks);
      [reflexivity|reflexivity|reflexivity|exact Hst|].
    eexists _, _. split; [reflexivity|]. apply Htail; [exact Htracks|reflexivity].
Qed.

Lemma runCycles_tracks (addresses : list string) (Math_pow : float -> float -> float)
    (mode : Mode) (envs : list CycleEnv) (st : State) :
  hasStores addresses st ->
  exists st' out,
    runCycles addresses Math_pow mode envs st = (Ok tt, st', out)
    /\ tracks st st' out.
Proof.
  unfold runCycles. revert st. induction envs as [|env envs IH]; intros st Hst.
  - exists st, []. split; [reflexivity|]. apply tracks_no_rows; reflexivity.
  - change (for_of (env :: envs) ?body) with (body env ;; for_of envs body).
    unfold bind.
    destruct (cycle_tracks addresses Math_pow mode env st Hst)
      as (st1 & out1 & -> & Htracks1).
    destruct (IH st1 (tracks_hasStores addresses st st1 out1 Htracks1 Hst))
      as (st2 & out2 & -> & Htracks2).
    eexists _, _. split; [reflexivity|].
    exact (tracks_trans st st1 st2 out1 out2 Htracks1 Htracks2).
Qed.

(** A run of [main]: the windows start empty, and the trace of the run
    accounts for them. *)
Lemma main_tracks (addresses : list string) (Math_pow : float -> float -> float)
    (ethers_getAddress : string -> result string)
    (positionManager : PositionManager)
    (factory : string -> string -> float -> result string)
    (envs : list CycleEnv) :
  exists st out,
    main addresses Math_pow ethers_getAddress positionManager factory envs emptyState
      = (Ok tt, st, out)
    /\ forall addr, addr ∈ addresses ->
         rollingData st !! addr
           = Some (pushAll [] (map rec_percentage (rowsOf addr out)))
         /\ map rec_rollingAvg (rowsOf addr out)
            = averagesFrom [] (map rec_percentage (rowsOf addr out)).
Proof.
  pose proof (startup_no_rows addresses ethers_getAddress positionManager factory
                emptyState) as Hrows1.
  destruct (startup_run addresses ethers_getAddress positionManager factory emptyState)
    as (mode & out1 & Hstartup).
  rewrite Hstartup in Hrows1. cbn [snd] in Hrows1.
  destruct (runCycles_tracks addresses Math_pow mode envs
              (loadState positionManager addresses emptyState)
              (loadState_hasStores positionManager addresses emptyState))
    as (st & out2 & Hcycles & Htracks).
  exists st, (out1 ++ out2). split.
  - unfold main, bind. rewrite Hstartup, Hcycles. reflexivity.
  - intros addr Hin.
    destruct (loadState_lookup_in positionManager addresses emptyState addr Hin)
      as [_ Hempty].
    rewrite rowsOf_app, (rowsOf_no_rows addr out1 Hrows1). simpl.
    exact (Htracks addr [] Hempty).
Qed.

(** C2: in every run of [main], whatever the chain answers, the window of a
    roster address is made of the most recent 72 of the percentages pushed
    for it, which are the percentages of its rows, oldest first. So it never
    holds more than [WINDOW_SIZE = 72] values, and after [72 + k] pushes
    ([k > 0]) the [k] oldest are gone. The rolling average of every row is
    the sum of the window as its push left it (the most recent values up to
    that row, at most 72, added in order from [0]) divided by their count;
    where these values are non-negative integers with a sum below [2^53],
    that is the quotient of their exact sum by their count, rounded once. *)
Theorem rolling_window_keeps_most_recent
    (addresses : list string) (Math_pow : float -> float -> float)
    (ethers_getAddress : string -> result string)
    (positionManager : PositionManager)
    (factory : string -> string -> float -> result string)
    (envs : list CycleEnv) :
  exists st out,
    main addresses Math_pow ethers_getAddress positionManager factory envs emptyState
      = (Ok tt, st, out)
    /\ forall addr, addr ∈ addresses ->
         let pushed := map rec_percentage (rowsOf addr out) in
         rollingData st !! addr = Some (mostRecent 72 pushed)
         /\ (length (mostRecent 72 pushed) <= 72)%nat
         /\ (forall (k : nat) (oldest recent : list float),
               (0 < k)%nat -> length oldest = k -> length recent = 72%nat ->
               pushed = oldest ++ recent ->
               rollingData st !! addr = Some recent)
         /\ forall (n : nat) (row : TimeSeriesRecord),
              rowsOf addr out !! n = Some row ->
              let recent := mostRecent 72 (take (S n) pushed) in
              length recent = Nat.min (S n) 72
              /\ rec_rollingAvg row
                 = (fold_left (fun sum value => sum + value) recent 0
                    / JS.Number (Z.of_nat (length recent)))%float
              /\ forall values : list Z,
                   recent = map JS.Number values ->
                   Forall (fun value => 0 <= value) values ->
                   fold_right Z.add 0 values < 2 ^ 53 ->
                   rec_rollingAvg row
                   = (JS.Number (fold_right Z.add 0%Z values)
                      / JS.Number (Z.of_nat (length values)))%float.
Proof.
  destruct (main_tracks addresses Math_pow ethers_getAddress positionManager factory envs)
    as (st & out & Hrun & Hwindows).
  exists st, out. split; [exact Hrun|].
  intros addr Hin pushed. destruct (Hwindows addr Hin) as [Hwindow Haverages].
  fold pushed in Hwindow, Haverages. rewrite pushAll_mostRecent in Hwindow.
  split; [exact Hwindow|]. split; [rewrite mostRecent_length; lia|]. split.
  - intros k oldest recent _ _ Hrecent Hpushed.
    rewrite Hwindow, Hpushed, <- Hrecent. f_equal. apply mostRecent_app.
  - intros n row Hrow recent.
    assert (n < length pushed)%nat as Hn.
    { unfold pushed. rewrite length_map. eapply lookup_lt_Some. exact Hrow. }
    assert (rec_rollingAvg row = rollingAvg recent) as Havg.
    { assert (map rec_rollingAvg (rowsOf addr out) !! n = Some (rec_rollingAvg row))
        as Hlookup by (rewrite list_lookup_fmap, Hrow; reflexivity).
      rewrite Haverages, (averagesFrom_lookup [] pushed n Hn), pushAll_mostRecent
        in Hlookup.
      injection Hlookup as <-. reflexivity. }
    split; [|split].
    + unfold recent. rewrite mostRecent_length, length_take. lia.
    + exact Havg.
    + intros values Hvalues Hnonneg Hsum. rewrite Havg, Hvalues.
      unfold rollingAvg. rewrite length_map.
      change 0%float with (JS.Number 0).
      rewrite (sum_Number_exact values 0 Hnonneg) by lia. reflexivity.
Qed.

(** The example address over 73 cycles: shares 100, then 50 and 25 in turn.
    The window ends as the 72 shares after the first, and the last row
    reports their mean, 37.5. *)
Lemma rolling_window_keeps_most_recent_witness :
  exists st out,
    main [exampleAddress] examplePow exampleGetAddress scenarioManager exampleFactory
      windowEnvs emptyState = (Ok tt, st, out)
    /\ map rec_percentage (rowsOf exampleAddress out)
       = 100%float :: concat (replicate 36 [50%float; 25%float])
    /\ rollingData st !! exampleAddress
       = Some (concat (replicate 36 [50%float; 25%float]))
    /\ rec_rollingAvg <$> rowsOf exampleAddress out !! 72%nat = Some 37.5%float.
Proof.
  destruct (rolling_window_keeps_most_recent [exampleAddress] examplePow exampleGetAddress
              scenarioManager exampleFactory windowEnvs) as (st & out & Hrun & Hwindows).
  exists st, out. split; [exact Hrun|].
  assert (map rec_percentage (rowsOf exampleAddress out)
          = 100%float :: concat (replicate 36 [50%float; 25%float])) as Hpushed.
  { vm_compute in Hrun. injection Hrun as _ <-. vm_compute. reflexivity. }
  split; [exact Hpushed|].
  destruct (Hwindows exampleAddress) as (Hwindow & _ & Hevicted & Hrows); [left|].
  split.
  - apply (Hevicted 1%nat [100%float]); [lia|reflexivity|reflexivity|exact Hpushed].
  - destruct (rowsOf exampleAddress out !! 72%nat) as [row|] eqn:Hrow.
    + destruct (Hrows 72%nat row Hrow) as (_ & _ & Hexact).
      simpl. f_equal.
      rewrite (Hexact (concat (replicate 36 [50; 25]))).
      * vm_compute. reflexivity.
      * rewrite Hpushed. vm_compute. reflexivity.
      * vm_compute. repeat constructor; discriminate.
      * vm_compute. reflexivity.
    + apply lookup_ge_None in Hrow.
      assert (length (map rec_percentage (rowsOf exampleAddress out)) = 73%nat) as Hlen
        by (rewrite Hpushed; reflexivity).
      rewrite length_map in Hlen. lia.
Defined.
